(** * modular-body: configuration resolution and request dispatch

    A shallow embedding of the TypeScript sources of the body-parsing
    middleware ([mediaTypes.ts], [decompressStream.ts], [bufferEncoding.ts],
    [bodyParser.ts]) together with the properties of its specification.

    Conventions of the embedding.
    - A JavaScript string is a [string]: a sequence of 8-bit characters,
      read as the UTF-8 bytes of the text.  Case conversion is the ASCII one.
    - A function that may throw returns a [Result]; the thrown value keeps
      the fields the callers inspect ([status], [type], [message]).
    - A JavaScript object used as a dictionary ([encodingVariations], the
      request headers) is a [gmap string _]; every operation the sources
      perform on those objects is pointwise in the key, so the insertion
      order of the keys is not represented.
    - Packages and platform functions that the sources call but do not
      contain are either written out from their documented behaviour
      ([parseInt], [bytes], [JSON.parse], [createError]) or taken as
      parameters of the functions that call them ([contentType.parse],
      [querystring.parse], [JSON.stringify]).
    - The streaming engine is a state with one transition for each event
      of the stream; the calls of the completion callback are recorded in
      the state, with the mark of a call that was put off to the next
      tick.
    - The [StringDecoder] objects are made once, when the middleware is
      set up, and every request writes to them.  The bytes that each of
      them holds back are a store ([Decoders]) that the engine reads and
      writes and that one request leaves to the next ([Middleware.serve]
      serves the requests one after the other).
    - A number is an integer, [NaN] or an infinity; [parseInt] skips the
      white space of ECMAScript and rounds to a double.

    Not represented: in [encodingVariations], names that the record
    inherits from [Object.prototype] (the properties that read the
    record exclude them; the table of the default parsers does
    represent them, see [readDefault]); the case conversion of letters
    outside ASCII; a key that is present with the value [undefined];
    byte counts that are not integers; requests whose events interleave;
    and user callbacks (decoders, decompressor streams) that throw
    inside a listener. *)

From Stdlib Require Import ZArith String Ascii List Bool Lia.
From stdpp Require Import base tactics option list strings gmap fin_maps.

Local Open Scope string_scope.
Local Open Scope list_scope.
Local Open Scope Z_scope.

(** ** Thrown values and results *)

(** The fields of a thrown [Error] that the sources read back. *)
Record JsError := mkJsError {
  e_message : string;
  e_status : option Z;
  e_type : option string;
  e_code : option string
}.

(** [new Error(message)] *)
Definition newError (message : string) : JsError :=
  {| e_message := message; e_status := None; e_type := None; e_code := None |}.

Inductive Result (A : Type) : Type :=
| Ok (a : A)
| Throw (e : JsError).
Arguments Ok {A} a.
Arguments Throw {A} e.

Global Instance Result_ret : MRet Result := fun A a => Ok a.
Global Instance Result_bind : MBind Result := fun A B f m =>
  match m with
  | Ok a => f a
  | Throw e => Throw e
  end.
Global Instance Result_fmap : FMap Result := fun A B f m =>
  match m with
  | Ok a => Ok (f a)
  | Throw e => Throw e
  end.

(** ** Platform primitives *)
Module Js.

Definition isUpper (c : ascii) : bool :=
  let n := nat_of_ascii c in (Nat.leb 65 n && Nat.leb n 90)%bool.

Definition lowerChar (c : ascii) : ascii :=
  if isUpper c then ascii_of_nat (nat_of_ascii c + 32) else c.

(** [String.prototype.toLowerCase] on ASCII text. *)
Fixpoint toLowerCase (s : string) : string :=
  match s with
  | EmptyString => EmptyString
  | String c r => String (lowerChar c) (toLowerCase r)
  end.

(** [s.split(sep)] for a one-character separator: the pieces between
    the occurrences of [sep]; a string without [sep] is one piece. *)
Fixpoint split (sep : ascii) (s : string) : list string :=
  match s with
  | EmptyString => [EmptyString]
  | String c r =>
      if Ascii.eqb c sep then EmptyString :: split sep r
      else match split sep r with
           | [] => [String c EmptyString]
           | p :: ps => String c p :: ps
           end
  end.

(** [array.includes(x)] on strings. *)
Definition includes (l : list string) (x : string) : bool :=
  bool_decide (x ∈ l).

(** Insertion of the elements of [l] into a [Set] that already holds
    [seen], in iteration order. *)
Definition setAddAll (seen l : list string) : list string :=
  foldl (fun acc x => if includes acc x then acc else acc ++ [x]) seen l.

(** [[...new Set(l)]]: the distinct elements, by first occurrence. *)
Definition uniq (l : list string) : list string := setAddAll [] l.

(** [array.flatMap(f)] *)
Definition flatMap {A B} (f : A -> list B) (l : list A) : list B :=
  concat (map f l).

(** [s.replace('-', '')]: drops the first dash. *)
Fixpoint removeFirstDash (s : string) : string :=
  match s with
  | EmptyString => EmptyString
  | String c r => if Ascii.eqb c "-"%char then r else String c (removeFirstDash r)
  end.

(** Truthiness of a string: non-empty. *)
Definition truthyStr (s : string) : bool :=
  match s with EmptyString => false | _ => true end.

(** [s.includes(sub)] / [s.indexOf(sub) !== -1] *)
Fixpoint isPrefix (p s : string) : bool :=
  match p, s with
  | EmptyString, _ => true
  | String a p', String b s' => Ascii.eqb a b && isPrefix p' s'
  | _, _ => false
  end.

Fixpoint strIncludes (sub s : string) : bool :=
  isPrefix sub s ||
  match s with
  | EmptyString => false
  | String _ r => strIncludes sub r
  end.

(** The names of the properties that a plain object inherits from
    [Object.prototype]: methods, and the accessor ['__proto__']. *)
Definition objectPrototypeNames : list string :=
  ["constructor"; "__defineGetter__"; "__defineSetter__"; "hasOwnProperty";
   "__lookupGetter__"; "__lookupSetter__"; "isPrototypeOf";
   "propertyIsEnumerable"; "toString"; "valueOf"; "__proto__";
   "toLocaleString"].

(** The text consists of ASCII characters. *)
Fixpoint isAscii (s : string) : bool :=
  match s with
  | EmptyString => true
  | String c r => Nat.ltb (nat_of_ascii c) 128 && isAscii r
  end.

(** [array.indexOf(x)] and [array.lastIndexOf(x)] on strings: the
    first and the last position of [x], or [-1]. *)
Fixpoint indexOfFrom (l : list string) (x : string) (i : Z) : Z :=
  match l with
  | [] => -1
  | y :: r => if String.eqb y x then i else indexOfFrom r x (i + 1)
  end.

Definition indexOf (l : list string) (x : string) : Z := indexOfFrom l x 0.

Fixpoint lastIndexOfFrom (l : list string) (x : string) (i found : Z) : Z :=
  match l with
  | [] => found
  | y :: r => lastIndexOfFrom r x (i + 1) (if String.eqb y x then i else found)
  end.

Definition lastIndexOf (l : list string) (x : string) : Z :=
  lastIndexOfFrom l x 0 (-1).

End Js.

(** ** mediaTypes.ts *)
Module MediaTypes.

(** [MediaType]: the pieces of [type.split('/')].  The sources cast the
    array to a pair without checking its length, so a list is kept and
    the two components are read by index. *)
Definition MediaType := list string.

(** [MediaTypeTemplate]: [None] is the [null] that stands for ['*']. *)
Definition MediaTypeTemplate := (option string * option string)%type.

(** A media type predicate may throw. *)
Definition MediaTypeFunction := MediaType -> Result bool.

Inductive MediaTypeIdentifier :=
| IdString (s : string)
| IdFunction (f : MediaTypeFunction).

Inductive MediaTypeMatcher :=
| Template (t : MediaTypeTemplate)
| Predicate (f : MediaTypeFunction).

Definition MediaTypeMatchers := list MediaTypeMatcher.

Definition getMediaTypeIdentifier (mediaTypeIdentifier : string)
  : Result MediaTypeTemplate :=
  let mediaTypeMatcher :=
    map (fun part => if String.eqb part "*" then None else Some part)
        (Js.split "/"%char mediaTypeIdentifier) in
  match mediaTypeMatcher with
  | [a; b] => Ok (a, b)
  | _ => Throw (newError ("Media type identifier '" +:+ mediaTypeIdentifier
                          +:+ "' is invalid."))
  end.

Definition getMediaTypeMatchers (mediaTypeIdentifiers : list MediaTypeIdentifier)
  : Result MediaTypeMatchers :=
  mapM (fun identifier =>
          match identifier with
          | IdString s => Template <$> getMediaTypeIdentifier s
          | IdFunction f => Ok (Predicate f)
          end) mediaTypeIdentifiers.

(** [!t || t === m] for a template component [t] (a string or [null])
    and the media type component [m] (a string, or [undefined] when the
    media type has no such index). *)
Definition matchPart (t : option string) (m : option string) : bool :=
  match t with
  | None => true
  | Some s => negb (Js.truthyStr s) || bool_decide (m = Some s)
  end.

Definition matchType (mediaTypeTemplate : MediaTypeTemplate) (mediaType : MediaType) : bool :=
  matchPart (fst mediaTypeTemplate) (mediaType !! 0%nat)
  && matchPart (snd mediaTypeTemplate) (mediaType !! 1%nat).

(** [mediaTypeMatchers.some(...)]: stops at the first matcher that
    accepts; a throwing predicate aborts the search. *)
Fixpoint matchAnyType (mediaTypeMatchers : MediaTypeMatchers) (mediaType : MediaType)
  : Result bool :=
  match mediaTypeMatchers with
  | [] => Ok false
  | Template t :: rest =>
      if matchType t mediaType then Ok true else matchAnyType rest mediaType
  | Predicate f :: rest =>
      b ← f mediaType;
      if (b : bool) then Ok true else matchAnyType rest mediaType
  end.

End MediaTypes.

(** ** Numbers *)

(** A JavaScript number as the sources use it for byte counts: an
    integer, one of the infinities, or [NaN].  Fractional byte counts are
    not represented. *)
Inductive JsNumber :=
| Num (z : Z)
| PosInfinity
| NegInfinity
| NaN.

Global Instance JsNumber_eq_dec : EqDecision JsNumber.
Proof. solve_decision. Defined.

Module Number.

(** Truthiness: [0] and [NaN] are falsy. *)
Definition truthy (n : JsNumber) : bool :=
  match n with
  | Num z => negb (z =? 0)
  | PosInfinity | NegInfinity => true
  | NaN => false
  end.

(** [a > b] *)
Definition gt (a b : JsNumber) : bool :=
  match a, b with
  | NaN, _ | _, NaN => false
  | Num x, Num y => y <? x
  | PosInfinity, PosInfinity => false
  | PosInfinity, _ => true
  | _, NegInfinity => match a with NegInfinity => false | _ => true end
  | _, _ => false
  end.

(** The white space and line terminators of ASCII: TAB, LF, VT, FF, CR
    and SP. *)
Definition isSpace (c : ascii) : bool :=
  let n := nat_of_ascii c in
  (Nat.eqb n 32 || (Nat.leb 9 n && Nat.leb n 13))%bool.

(** The other characters of [StrWhiteSpaceChar], by their UTF-8 bytes:
    U+00A0 ([C2 A0]) in two bytes, and in three bytes U+1680
    ([E1 9A 80]), U+2000 to U+200A, U+2028, U+2029 and U+202F
    ([E2 80 ..]), U+205F ([E2 81 9F]), U+3000 ([E3 80 80]) and U+FEFF
    ([EF BB BF]). *)
Definition isSpace2 (a b : ascii) : bool :=
  (Nat.eqb (nat_of_ascii a) 194 && Nat.eqb (nat_of_ascii b) 160)%bool.

Definition isSpace3 (a b c : ascii) : bool :=
  let x := nat_of_ascii a in
  let y := nat_of_ascii b in
  let z := nat_of_ascii c in
  ((Nat.eqb x 225 && Nat.eqb y 154 && Nat.eqb z 128)
   || (Nat.eqb x 226 && Nat.eqb y 128
       && ((Nat.leb 128 z && Nat.leb z 138)
           || Nat.eqb z 168 || Nat.eqb z 169 || Nat.eqb z 175))
   || (Nat.eqb x 226 && Nat.eqb y 129 && Nat.eqb z 159)
   || (Nat.eqb x 227 && Nat.eqb y 128 && Nat.eqb z 128)
   || (Nat.eqb x 239 && Nat.eqb y 187 && Nat.eqb z 191))%bool.

(** The text after the leading [StrWhiteSpaceChar]s. *)
Fixpoint skipSpaces (s : string) : string :=
  match s with
  | String a r =>
      if isSpace a then skipSpaces r
      else
        match r with
        | String b r' =>
            if isSpace2 a b then skipSpaces r'
            else
              match r' with
              | String c r'' => if isSpace3 a b c then skipSpaces r'' else s
              | EmptyString => s
              end
        | EmptyString => s
        end
  | EmptyString => s
  end.

(** The value of [c] as a digit of the given radix (10 or 16). *)
Definition digitOf (radix : Z) (c : ascii) : option Z :=
  let n := Z.of_nat (nat_of_ascii c) in
  if (48 <=? n) && (n <=? 57) then Some (n - 48)
  else if (radix =? 16) && (97 <=? n) && (n <=? 102) then Some (n - 87)
  else if (radix =? 16) && (65 <=? n) && (n <=? 70) then Some (n - 55)
  else None.

(** The longest prefix of digits, read in [radix]; [None] when the
    text does not start with a digit. *)
Fixpoint digits (radix : Z) (s : string) (acc : option Z) : option Z :=
  match s with
  | EmptyString => acc
  | String c r =>
      match digitOf radix c with
      | Some d => digits radix r (Some (default 0 acc * radix + d))
      | None => acc
      end
  end.

(** The decimal digits at the head of [s], and the text after them. *)
Fixpoint takeDigits (s : string) : string * string :=
  match s with
  | String c r =>
      if digitOf 10 c is Some _ then
        let '(d, rest) := takeDigits r in (String c d, rest)
      else (EmptyString, s)
  | EmptyString => (EmptyString, EmptyString)
  end.

Definition signOf (s : string) : Z * string :=
  match s with
  | String "-"%char r => (-1, r)
  | String "+"%char r => (1, r)
  | _ => (1, s)
  end.

(** The Number value of an integer: the integer itself up to 2^53 in
    absolute value, beyond that the nearest number with 53 significant
    bits, ties to the even one, and an infinity from 2^1024 on. *)
Definition toDouble (z : Z) : JsNumber :=
  let a := Z.abs z in
  if a <? 2 ^ 53 then Num z
  else
    let shift := Z.log2 a - 52 in
    let q := Z.shiftr a shift in
    let r := a - Z.shiftl q shift in
    let half := Z.shiftl 1 (shift - 1) in
    let q := if (half <? r) || ((r =? half) && Z.odd q) then q + 1 else q in
    let v := Z.shiftl q shift in
    if 2 ^ 1024 <=? v then (if z <? 0 then NegInfinity else PosInfinity)
    else Num (Z.sgn z * v).

(** [parseInt(s)] and [parseInt(s, 10)]: leading white space, a sign,
    with [hexPrefix] an optional [0x], then digits; the value of the
    digits is rounded to a Number, and a text without digits gives
    [NaN]. *)
Definition parseIntWith (hexPrefix : bool) (s : string) : JsNumber :=
  let '(sign, r) := signOf (skipSpaces s) in
  let '(radix, r) :=
    match r with
    | String "0"%char (String x r') =>
        if hexPrefix && (Ascii.eqb x "x"%char || Ascii.eqb x "X"%char)
        then (16, r') else (10, r)
    | _ => (10, r)
    end in
  match digits radix r None with
  | Some v => toDouble (sign * v)
  | None => NaN
  end.

(** [parseInt(x)] where [x] is a string or [undefined]. *)
Definition parseInt (x : option string) : JsNumber :=
  match x with
  | Some s => parseIntWith true s
  | None => NaN
  end.

End Number.

(** ** The [bytes] package (version 3.1.1), string argument *)
Module Bytes.

Fixpoint dropBlanks (s : string) : string :=
  match s with
  | String " "%char r => dropBlanks r
  | _ => s
  end.

(** [map[unit]] for the units the pattern accepts. *)
Definition unitFactor (unit : string) : option Z :=
  if String.eqb unit "kb" then Some (2 ^ 10)
  else if String.eqb unit "mb" then Some (2 ^ 20)
  else if String.eqb unit "gb" then Some (2 ^ 30)
  else if String.eqb unit "tb" then Some (2 ^ 40)
  else if String.eqb unit "pb" then Some (2 ^ 50)
  else None.

Definition decimal (s : string) : Z := default 0 (Number.digits 10 s None).

(** A match of [/^((-|\+)?(\d+(?:\.\d+)?)) *(kb|mb|gb|tb|pb)$/i]:
    the sign, the integer digits, the fraction digits and the factor
    of the unit. *)
Definition matchPattern (val : string) : option (Z * string * string * Z) :=
  let '(sign, r) := Number.signOf val in
  let '(int, r) := Number.takeDigits r in
  if negb (Js.truthyStr int) then None else
  let '(frac, r) :=
    match r with
    | String "."%char r' =>
        let '(f, r'') := Number.takeDigits r' in
        if Js.truthyStr f then (f, r'') else (EmptyString, r)
    | _ => (EmptyString, r)
    end in
  factor ← unitFactor (Js.toLowerCase (dropBlanks r));
  Some (sign, int, frac, factor).

(** [bytes.parse(val)] on a string: [Math.floor(map[unit] * value)],
    or [parseInt(val, 10)] when the pattern does not match, or [null]
    ([None]) when that is [NaN].  The product is computed exactly, not
    in double precision. *)
Definition parse (val : string) : option JsNumber :=
  match matchPattern val with
  | Some (sign, int, frac, factor) =>
      let scale := 10 ^ Z.of_nat (String.length frac) in
      Some (Num ((sign * factor * (decimal int * scale + decimal frac)) `div` scale))
  | None =>
      match Number.parseIntWith false val with
      | NaN => None
      | n => Some n
      end
  end.

(** [bytes(value)] for a string [value]. *)
Definition bytes (value : string) : option JsNumber := parse value.

End Bytes.

(** ** Values *)

Definition Buffer := list Byte.byte.

(** The values that flow through the decoding pipeline.  A number that
    comes out of [JSON.parse] is kept as its literal: no property of the
    middleware computes with it. *)
#[warnings="-register-all"]
Inductive JsValue :=
| VUndefined
| VNull
| VBool (b : bool)
| VNumber (literal : string)
| VString (s : string)
| VBuffer (b : Buffer)
| VArray (items : list JsValue)
| VObject (fields : list (string * JsValue)).

Module Value.

(** [obj[key]] on the own properties of a plain object. *)
Fixpoint getOwn (fields : list (string * JsValue)) (key : string) : option JsValue :=
  match fields with
  | [] => None
  | (k, v) :: rest => if String.eqb k key then Some v else getOwn rest key
  end.

(** Definition of an own data property: an existing key keeps its
    place and takes the new value, a new key goes last. *)
Fixpoint setOwn (fields : list (string * JsValue)) (key : string) (v : JsValue)
  : list (string * JsValue) :=
  match fields with
  | [] => [(key, v)]
  | (k, w) :: rest =>
      if String.eqb k key then (k, v) :: rest else (k, w) :: setOwn rest key v
  end.

(** [typeof v === 'object'] *)
Definition typeofObject (v : JsValue) : bool :=
  match v with
  | VNull | VBuffer _ | VArray _ | VObject _ => true
  | _ => false
  end.

Definition isArray (v : JsValue) : bool :=
  match v with VArray _ => true | _ => false end.

(** The number of entries of [Object.keys(v)]; [null] and [undefined]
    cannot be converted to an object. *)
Definition keysLength (v : JsValue) : Result nat :=
  match v with
  | VUndefined | VNull =>
      Throw (newError "Cannot convert undefined or null to object")
  | VBool _ | VNumber _ => Ok 0%nat
  | VString s => Ok (String.length s)
  | VBuffer b => Ok (length b)
  | VArray items => Ok (length items)
  | VObject fields => Ok (length fields)
  end.

(** [v.__proto__]: an own property of that name if the object has one
    (as [JSON.parse] creates it), otherwise the prototype; the
    prototypes have no enumerable keys of their own and are shown as
    the empty object. *)
Definition getProto (v : JsValue) : Result JsValue :=
  match v with
  | VUndefined | VNull =>
      Throw (newError "Cannot read properties of null (reading '__proto__')")
  | VObject fields => Ok (default (VObject []) (getOwn fields "__proto__"))
  | _ => Ok (VObject [])
  end.

(** [String(v)], as [JSON.parse] and the string methods apply it to
    an argument that is not a string. *)
Fixpoint toString (v : JsValue) : string :=
  match v with
  | VUndefined => "undefined"
  | VNull => "null"
  | VBool true => "true"
  | VBool false => "false"
  | VNumber literal => literal
  | VString s => s
  | VBuffer b => string_of_list_byte b
  | VArray items =>
      (fix join (l : list JsValue) : string :=
         match l with
         | [] => EmptyString
         | x :: r =>
             let piece :=
               match x with
               | VUndefined | VNull => EmptyString
               | _ => toString x
               end in
             match r with
             | [] => piece
             | _ => piece +:+ "," +:+ join r
             end
         end) items
  | VObject _ => "[object Object]"
  end.

End Value.

(** ** [JSON.parse] *)
Module Json.

Definition dquote : ascii := "034"%char.
Definition backslash : ascii := "092"%char.

(** Writes a JSON text with single quotes in the place of the double
    quotes: [text "{'a':1}"] is the text [{"a":1}]. *)
Fixpoint text (s : string) : string :=
  match s with
  | EmptyString => EmptyString
  | String c r => String (if Ascii.eqb c "'"%char then dquote else c) (text r)
  end.

Definition isWs (c : ascii) : bool :=
  let n := nat_of_ascii c in
  (Nat.eqb n 32 || Nat.eqb n 9 || Nat.eqb n 10 || Nat.eqb n 13)%bool.

Fixpoint skipWs (s : string) : string :=
  match s with
  | String c r => if isWs c then skipWs r else s
  | EmptyString => s
  end.

Definition simpleEscape (c : ascii) : option ascii :=
  if Ascii.eqb c dquote then Some dquote
  else if Ascii.eqb c backslash then Some backslash
  else if Ascii.eqb c "/"%char then Some "/"%char
  else if Ascii.eqb c "b"%char then Some "008"%char
  else if Ascii.eqb c "f"%char then Some "012"%char
  else if Ascii.eqb c "n"%char then Some "010"%char
  else if Ascii.eqb c "r"%char then Some "013"%char
  else if Ascii.eqb c "t"%char then Some "009"%char
  else None.

Definition charOf (n : Z) : ascii := ascii_of_nat (Z.to_nat n).

(** The UTF-8 bytes of one UTF-16 code unit (a surrogate pair is
    written unit by unit). *)
Definition utf8 (u : Z) : string :=
  if u <? 128 then String (charOf u) EmptyString
  else if u <? 2048 then
    String (charOf (192 + u / 64)) (String (charOf (128 + u mod 64)) EmptyString)
  else
    String (charOf (224 + u / 4096))
      (String (charOf (128 + (u / 64) mod 64))
         (String (charOf (128 + u mod 64)) EmptyString)).

Definition hex4 (a b c d : ascii) : option Z :=
  x ← Number.digitOf 16 a; y ← Number.digitOf 16 b;
  z ← Number.digitOf 16 c; w ← Number.digitOf 16 d;
  Some (((x * 16 + y) * 16 + z) * 16 + w).

(** The characters of a string literal after its opening quote, and
    the text after its closing quote. *)
Fixpoint parseChars (s : string) : option (string * string) :=
  match s with
  | EmptyString => None
  | String c r =>
      if Ascii.eqb c dquote then Some (EmptyString, r)
      else if Ascii.eqb c backslash then
        match r with
        | String e r1 =>
            match simpleEscape e with
            | Some ch =>
                '(t, rest) ← parseChars r1; Some (String ch t, rest)
            | None =>
                if Ascii.eqb e "u"%char then
                  match r1 with
                  | String h1 (String h2 (String h3 (String h4 r2))) =>
                      u ← hex4 h1 h2 h3 h4;
                      '(t, rest) ← parseChars r2;
                      Some (utf8 u +:+ t, rest)
                  | _ => None
                  end
                else None
            end
        | EmptyString => None
        end
      else if Nat.ltb (nat_of_ascii c) 32 then None
      else '(t, rest) ← parseChars r; Some (String c t, rest)
  end.

(** A number literal at the head of [s], and the text after it. *)
Definition parseNumber (s : string) : option (string * string) :=
  let '(sign, r) :=
    match s with
    | String "-"%char r => ("-", r)
    | _ => (EmptyString, s)
    end in
  let '(int, r) := Number.takeDigits r in
  match int with
  | EmptyString => None
  | String "0"%char (String _ _) => None
  | _ =>
      '(frac, r) ←
        match r with
        | String "."%char r1 =>
            let '(f, r2) := Number.takeDigits r1 in
            if Js.truthyStr f then Some ("." +:+ f, r2) else None
        | _ => Some (EmptyString, r)
        end;
      '(exp, r) ←
        match r with
        | String e r1 =>
            if Ascii.eqb e "e"%char || Ascii.eqb e "E"%char then
              let '(sg, r2) :=
                match r1 with
                | String "+"%char r2 => ("+", r2)
                | String "-"%char r2 => ("-", r2)
                | _ => (EmptyString, r1)
                end in
              let '(d, r3) := Number.takeDigits r2 in
              if Js.truthyStr d then Some (String e sg +:+ d, r3) else None
            else Some (EmptyString, r)
        | _ => Some (EmptyString, r)
        end;
      Some (sign +:+ int +:+ frac +:+ exp, r)
  end.

Definition literal (word : string) (v : JsValue) (s : string)
  : option (JsValue * string) :=
  if Js.isPrefix word s
  then Some (v, String.substring (String.length word)
                  (String.length s - String.length word) s)
  else None.

(** One JSON value at the head of the text (after white space), and
    the text after it.  [fuel] bounds the nesting of the calls; every
    second call consumes a character, so twice the length of the text
    is enough. *)
Fixpoint parseValue (fuel : nat) (s : string) : option (JsValue * string) :=
  match fuel with
  | O => None
  | S fuel =>
      match skipWs s with
      | EmptyString => None
      | String c r as s' =>
          if Ascii.eqb c "{"%char then
            match skipWs r with
            | String "}"%char r1 => Some (VObject [], r1)
            | r1 => parseMembers fuel r1 []
            end
          else if Ascii.eqb c "["%char then
            match skipWs r with
            | String "]"%char r1 => Some (VArray [], r1)
            | r1 => parseElements fuel r1 []
            end
          else if Ascii.eqb c dquote then
            '(t, rest) ← parseChars r; Some (VString t, rest)
          else if Ascii.eqb c "t"%char then literal "true" (VBool true) s'
          else if Ascii.eqb c "f"%char then literal "false" (VBool false) s'
          else if Ascii.eqb c "n"%char then literal "null" VNull s'
          else '(n, rest) ← parseNumber s'; Some (VNumber n, rest)
      end
  end
with parseElements (fuel : nat) (s : string) (acc : list JsValue)
  : option (JsValue * string) :=
  match fuel with
  | O => None
  | S fuel =>
      '(v, r) ← parseValue fuel s;
      match skipWs r with
      | String ","%char r1 => parseElements fuel r1 (acc ++ [v])
      | String "]"%char r1 => Some (VArray (acc ++ [v]), r1)
      | _ => None
      end
  end
with parseMembers (fuel : nat) (s : string) (acc : list (string * JsValue))
  : option (JsValue * string) :=
  match fuel with
  | O => None
  | S fuel =>
      match skipWs s with
      | String c r =>
          if Ascii.eqb c dquote then
            '(k, r1) ← parseChars r;
            match skipWs r1 with
            | String ":"%char r2 =>
                '(v, r3) ← parseValue fuel r2;
                let acc := Value.setOwn acc k v in
                match skipWs r3 with
                | String ","%char r4 => parseMembers fuel r4 acc
                | String "}"%char r4 => Some (VObject acc, r4)
                | _ => None
                end
            | _ => None
            end
          else None
      | EmptyString => None
      end
  end.

(** [JSON.parse(text)].  The message of the [SyntaxError] depends on
    the engine and is not reproduced. *)
Definition parse (s : string) : Result JsValue :=
  match parseValue (2 * String.length s + 2) s with
  | Some (v, rest) =>
      match skipWs rest with
      | EmptyString => Ok v
      | _ => Throw (newError "Unexpected token in JSON")
      end
  | None => Throw (newError "Unexpected token in JSON")
  end.

End Json.

(** ** decompressStream.ts *)
Module DecompressStream.

(** The resolved [inflate] setting: [true] or a list of names. *)
Inductive Inflate :=
| InflateAll
| InflateList (names : list string).

Definition matchContentEncoding (contentEncoding : string) (inflate : Inflate)
    (globalDecompressorNames : list string) : bool :=
  if String.eqb contentEncoding "identity" then true
  else
    let decompressors :=
      match inflate with
      | InflateAll => globalDecompressorNames
      | InflateList names => names
      end in
    Js.includes decompressors contentEncoding.

End DecompressStream.

(** ** bufferEncoding.ts: encodings *)
Module BufferEncoding.

(** The [StringDecoder] objects that the encoders of a middleware
    hold, by the encoding each was made for.  A decoder is the bytes
    that it holds back from one call to the next; a decoder that is
    not listed holds none. *)
Abbreviation Decoders := (gmap string Buffer).

(** [ChunkedBufferEncoder]: decodes chunk by chunk.  [onData] and
    [onEnd] are closures over the decoders that exist when the encoder
    is made: a call reads them and leaves them changed. *)
Record ChunkedBufferEncoder := {
  onData : Decoders -> Buffer -> JsValue * Decoders;
  onEnd : Decoders -> JsValue * Decoders;
  reduce : list JsValue -> JsValue;
  chunkedEncodings : list string
}.

(** [UnchunkedBufferEncoder]: decodes the joined buffer. *)
Record UnchunkedBufferEncoder := {
  transform : Buffer -> JsValue;
  unchunkedEncodings : list string
}.

Inductive BufferEncoder :=
| Chunked (c : ChunkedBufferEncoder)
| Unchunked (u : UnchunkedBufferEncoder).

(** The [encodings] field of either kind of encoder. *)
Definition encodingsOf (e : BufferEncoder) : list string :=
  match e with
  | Chunked c => chunkedEncodings c
  | Unchunked u => unchunkedEncodings u
  end.

(** The [encodings] of a resolved parser: [true] or a list. *)
Inductive Encodings :=
| AllEncodings
| EncodingList (names : list string).

(** [a || b] on optional strings: the empty string is falsy. *)
Definition orElse (a b : option string) : option string :=
  match a with
  | Some s => if Js.truthyStr s then a else b
  | None => b
  end.

Definition truthy (a : option string) : bool :=
  match a with
  | Some s => Js.truthyStr s
  | None => false
  end.

Definition matchCharsetEncoding (charsetEncodings : option Encodings)
    (charset : option string) (availableBufferEncodingNames : list string)
    (defaultEncoding : option string) : bool :=
  let defaultCharset := orElse charset defaultEncoding in
  match charsetEncodings, defaultCharset with
  | None, d => negb (truthy d)
  | Some AllEncodings, Some d =>
      Js.truthyStr d && Js.includes availableBufferEncodingNames d
  | Some (EncodingList names), Some d =>
      Js.truthyStr d && Js.includes names d
  | Some _, None => false
  end.

(** The record of alternative names, [Record<string, string[]>]. *)
Abbreviation EncodingVariations := (gmap string (list string)).

Definition builtinVariations : EncodingVariations :=
  <["ucs-2" := ["ucs-2"; "ucs2"]]>
    (<["ucs2" := ["ucs-2"; "ucs2"]]>
       (<["utf-8" := ["utf-8"; "utf8"]]>
          (<["utf8" := ["utf-8"; "utf8"]]> ∅))).

(** [Object.keys] of the initial record. *)
Definition encodingVariationNames : list string :=
  ["utf8"; "utf-8"; "ucs2"; "ucs-2"].

(** One round of the removal loop: the key is deleted and the name is
    filtered out of every remaining list. *)
Definition removeEncoding (encodingVariations : EncodingVariations)
    (encoding : string) : EncodingVariations :=
  (fun variations : list string =>
     if Js.includes variations encoding
     then filter (fun variation => variation ≠ encoding) variations
     else variations) <$> delete encoding encodingVariations.

(** Registration of the names of one encoder, when it has several. *)
Definition registerGroup (encodingVariations : EncodingVariations)
    (names : list string) : EncodingVariations :=
  if Nat.ltb 1 (length names)
  then foldl (fun V encoding => <[encoding := names]> V) encodingVariations names
  else encodingVariations.

Definition getEncodingVariations (bufferEncodings : option (list BufferEncoder))
  : Result (EncodingVariations * list string) :=
  match bufferEncodings with
  | Some bufferEncodings =>
      let addedBufferEncodings := Js.flatMap encodingsOf bufferEncodings in
      if Nat.ltb (length (Js.uniq addedBufferEncodings)) (length addedBufferEncodings)
      then Throw (newError
             "Same encoding is supplied more than one time in BufferEncoding object.")
      else
        let V1 :=
          foldl removeEncoding builtinVariations
            (filter (fun added => added ∈ encodingVariationNames)
               addedBufferEncodings) in
        let nodeEncodingVariations :=
          Js.uniq (filter (fun name => name ∉ addedBufferEncodings)
                     encodingVariationNames) in
        let singleNodeEncodingVariations :=
          map Js.removeFirstDash nodeEncodingVariations in
        let nodeEncodingVariations :=
          filter (fun name => name ∉ singleNodeEncodingVariations)
            nodeEncodingVariations in
        let V2 := foldl registerGroup V1 (map encodingsOf bufferEncodings) in
        let V3 := filter (fun kv => ¬ (length kv.2 < 2)%nat) V2 in
        Ok (V3, nodeEncodingVariations)
  | None =>
      Ok (builtinVariations,
          Js.uniq (map Js.removeFirstDash encodingVariationNames))
  end.

(** [encodingVariations[encoding] ? encodingVariations[encoding] : [encoding]].
    For a name that is no key of the record and that the record
    inherits ([Js.objectPrototypeNames]; after an assignment to
    ['__proto__'] in [getEncodingVariations], the properties of that
    array) the sources read the inherited member, which is truthy and
    no array of names.  These lookups are not represented: the
    properties below are stated for the other names. *)
Definition variationsOf (encodingVariations : EncodingVariations)
    (encoding : string) : list string :=
  match encodingVariations !! encoding with
  | Some variations => variations
  | None => [encoding]
  end.

(** [normalizeEncodings] on an array of names (a single name is the
    one-element array). *)
Definition normalizeEncodings (names : list string)
    (encodingVariations : EncodingVariations) : list string :=
  let normalizedEncodings := map Js.toLowerCase names in
  Js.uniq (Js.flatMap (variationsOf encodingVariations) normalizedEncodings).

(** The names of all the encoders are in lower case ([true] also when
    no encoders are supplied). *)
Definition namesInLowerCase (bufferEncodings : option (list BufferEncoder)) : bool :=
  match bufferEncodings with
  | Some bufferEncodings =>
      forallb (fun e => forallb (fun name => String.eqb (Js.toLowerCase name) name)
                          (encodingsOf e))
        bufferEncodings
  | None => true
  end.

(** The names of all the encoders are written in ASCII without
    upper-case letters, and none is ['__proto__'] ([true] also when no
    encoders are supplied).  Such names are registered as they are
    looked up: [normalizeEncodings] converts to lower case before it
    reads the record, and an assignment to the key ['__proto__'] does
    not add a key. *)
Definition plainNames (bufferEncodings : option (list BufferEncoder)) : bool :=
  namesInLowerCase bufferEncodings
  && match bufferEncodings with
     | Some bufferEncodings =>
         forallb (fun e => forallb (fun name => Js.isAscii name
                                               && negb (String.eqb name "__proto__"))
                             (encodingsOf e))
           bufferEncodings
     | None => true
     end.

(** *** Parsers *)

(** A parser receives the decoded payload and may throw. *)
Definition ParserFn := JsValue -> Result JsValue.

(** [verify(req, res, buffer, body, encoding)]: the request and the
    response are fixed for one run; the function may throw. *)
Definition VerifyFn := JsValue -> JsValue -> option string -> Result unit.

Fixpoint parameterCountFrom (body : string) (count : Z) (limit : JsNumber)
  : option Z :=
  match body with
  | EmptyString => Some count
  | String c r =>
      if Ascii.eqb c "&"%char then
        if bool_decide (Num (count + 1) = limit) then None
        else parameterCountFrom r (count + 1) limit
      else parameterCountFrom r count limit
  end.

(** [parameterCount]: the number of ['&'], or [undefined] ([None]) as
    soon as it reaches [limit]. *)
Definition parameterCount (body : string) (limit : JsNumber) : option Z :=
  parameterCountFrom body 0 limit.

(** The thrown [ParserError] of the query string parser. *)
Definition tooManyParameters : JsError :=
  {| e_message := "too many parameters"; e_status := Some 413;
     e_type := Some "parameters.too.many"; e_code := None |}.

Section Parsers.

(** [querystring.parse(payload, undefined, undefined, {maxKeys})],
    from the platform. *)
Variable querystringParse : string -> JsNumber -> JsValue.

Definition getQuerystringParser (maxKeys : JsNumber) : Result ParserFn :=
  if Number.gt (Num 0) maxKeys then
    Throw (newError "maxKeys can not be smaller than 0")
  else
    let maxKeys := if bool_decide (maxKeys = PosInfinity) then Num 0 else maxKeys in
    Ok (fun payload =>
          let body := Value.toString payload in
          if parameterCount body maxKeys is Some _
          then Ok (querystringParse body maxKeys)
          else Throw tooManyParameters).

(** The parser that [getQuerystringParser()] returns ([maxKeys] 1000). *)
Definition defaultQuerystringParser : ParserFn :=
  fun payload =>
    let body := Value.toString payload in
    if parameterCount body (Num 1000) is Some _
    then Ok (querystringParse body (Num 1000))
    else Throw tooManyParameters.

(** The parser of ['application/json']. *)
Definition jsonParser : ParserFn :=
  fun payload =>
    raw ← Json.parse (Value.toString payload);
    if Value.typeofObject raw && negb (Value.isArray raw) then
      proto ← Value.getProto raw;
      keys ← Value.keysLength proto;
      if Nat.ltb 0 keys
      then Throw (newError "__proto__ key not allowed in JSON body on main level")
      else Ok raw
    else Ok raw.

(** [DefaultParser]: the optional fields of an entry of
    [defaultMediaTypeParsers]. *)
Record DefaultParser := {
  dp_parser : option ParserFn;
  dp_defaultEncoding : option string;
  dp_emptyResponse : option JsValue
}.

Inductive DefaultMediaType :=
| FormUrlencoded
| ApplicationJson
| TextPlain
| OctetStream.

Definition mediaTypeName (d : DefaultMediaType) : string :=
  match d with
  | FormUrlencoded => "application/x-www-form-urlencoded"
  | ApplicationJson => "application/json"
  | TextPlain => "text/plain"
  | OctetStream => "application/octet-stream"
  end.

Definition defaultMediaTypeParsers (d : DefaultMediaType) : DefaultParser :=
  match d with
  | FormUrlencoded =>
      {| dp_parser := Some defaultQuerystringParser;
         dp_defaultEncoding := Some "utf-8";
         dp_emptyResponse := Some (VObject []) |}
  | ApplicationJson =>
      {| dp_parser := Some jsonParser;
         dp_defaultEncoding := Some "utf-8";
         dp_emptyResponse := Some (VObject []) |}
  | TextPlain =>
      {| dp_parser := None;
         dp_defaultEncoding := Some "utf-8";
         dp_emptyResponse := Some (VString "") |}
  | OctetStream =>
      {| dp_parser := None;
         dp_defaultEncoding := None;
         dp_emptyResponse := Some (VBuffer []) |}
  end.

(** The key of [defaultMediaTypeParsers] that a string is, if any. *)
Definition lookupDefault (name : string) : option DefaultMediaType :=
  if String.eqb name "application/x-www-form-urlencoded" then Some FormUrlencoded
  else if String.eqb name "application/json" then Some ApplicationJson
  else if String.eqb name "text/plain" then Some TextPlain
  else if String.eqb name "application/octet-stream" then Some OctetStream
  else None.

(** *** Parser configurations *)

(** An optional field that can also be set to [null]. *)
Inductive Nullable (A : Type) :=
| Unset
| Null
| Set_ (a : A).
Arguments Unset {A}.
Arguments Null {A}.
Arguments Set_ {A} a.

(** [inflate?: true | string | string[]] *)
Inductive InflateOption :=
| InflateTrue
| InflateString (name : string)
| InflateArray (names : list string).

(** [limit?: string | number] *)
Inductive LimitOption :=
| LimitString (s : string)
| LimitNumber (n : JsNumber).

(** [encodings?: string | string[] | boolean | null] *)
Inductive EncodingsOption :=
| EncodingsUnset
| EncodingsNull
| EncodingsBool (b : bool)
| EncodingsString (s : string)
| EncodingsArray (names : list string).

(** [matcher: MediaTypeIdentifier | MediaTypeIdentifier[]] *)
Inductive MatcherOption :=
| MatcherOne (identifier : MediaTypes.MediaTypeIdentifier)
| MatcherArray (identifiers : list MediaTypes.MediaTypeIdentifier).

(** [ParserConfiguration].  An optional field is [None] when the key
    is absent; a key that is present with the value [undefined] is
    not distinguished from an absent one, except for [emptyResponse],
    whose value can be any [JsValue]. *)
Record ParserConfiguration := {
  pc_inflate : option InflateOption;
  pc_limit : option LimitOption;
  pc_requireContentLength : option bool;
  pc_parser : Nullable ParserFn;
  pc_matcher : MatcherOption;
  pc_encodings : EncodingsOption;
  pc_defaultEncoding : option string;
  pc_emptyResponse : option JsValue;
  pc_verify : option VerifyFn
}.

(** The limit of a resolved parser: [number | null]. *)
Definition Limit := option JsNumber.

(** [PatchedParser] *)
Record PatchedParser := {
  inflate : DecompressStream.Inflate;
  limit : Limit;
  requireContentLength : bool;
  encodings : option Encodings;
  defaultEncoding : option string;
  emptyResponse : option JsValue;
  parser : option ParserFn;
  matcher : MediaTypes.MediaTypeMatchers;
  verify : option VerifyFn
}.

Global Instance EncodingsOption_eq_dec : EqDecision EncodingsOption.
Proof. solve_decision. Defined.

(** The object that [getEncodings] returns. *)
Record EncodingSettings := {
  es_defaultEncoding : option string;
  es_encodings : option Encodings
}.

(** [!parser.encodings] *)
Definition encodingsFalsy (e : EncodingsOption) : bool :=
  match e with
  | EncodingsUnset | EncodingsNull | EncodingsBool false => true
  | EncodingsString s => negb (Js.truthyStr s)
  | EncodingsBool true | EncodingsArray _ => false
  end.

(** ['defaultEncoding' in parser && parser.defaultEncoding]: the
    configured name when it is a non-empty string. *)
Definition ownDefaultEncoding (d : option string) : option string :=
  if truthy d then d else None.

Definition getEncodings (parserEncodings : EncodingsOption)
    (parserDefaultEncoding : option string)
    (encodingVariations : EncodingVariations)
    (defaultMediaTypeDefaultEncoding : option string)
  : Result EncodingSettings :=
  let defaultEncoding := ownDefaultEncoding parserDefaultEncoding in
  if bool_decide (parserEncodings = EncodingsBool true) then
    Ok {| es_defaultEncoding := defaultEncoding;
          es_encodings := Some AllEncodings |}
  else if encodingsFalsy parserEncodings then
    match defaultEncoding with
    | Some d =>
        if negb (truthy defaultMediaTypeDefaultEncoding) then
          if bool_decide (parserEncodings = EncodingsBool false)
             || bool_decide (parserEncodings = EncodingsNull)
          then Throw (newError
                 "Parser Configuration Error: When defaultEncoding is set, encoding can not be false or null.")
          else
            Ok {| es_defaultEncoding := defaultEncoding;
                  es_encodings :=
                    Some (EncodingList
                            (normalizeEncodings [d] encodingVariations)) |}
        else if bool_decide (parserEncodings = EncodingsUnset) then
          Ok {| es_defaultEncoding := defaultMediaTypeDefaultEncoding;
                es_encodings := Some AllEncodings |}
        else Ok {| es_defaultEncoding := None; es_encodings := None |}
    | None =>
        if truthy defaultMediaTypeDefaultEncoding
           && bool_decide (parserEncodings = EncodingsUnset)
        then
          Ok {| es_defaultEncoding := defaultMediaTypeDefaultEncoding;
                es_encodings := Some AllEncodings |}
        else Ok {| es_defaultEncoding := None; es_encodings := None |}
    end
  else
    let own := match defaultEncoding with Some d => [d] | None => [] end in
    let listed :=
      match parserEncodings with
      | EncodingsArray names => names
      | EncodingsString s => [s]
      | _ => []
      end in
    Ok {| es_defaultEncoding := defaultEncoding;
          es_encodings :=
            Some (EncodingList
                    (normalizeEncodings (Js.uniq (own ++ listed))
                       encodingVariations)) |}.

Definition getInflate (inflate : InflateOption) : DecompressStream.Inflate :=
  match inflate with
  | InflateTrue => DecompressStream.InflateAll
  | InflateString name => DecompressStream.InflateList [name]
  | InflateArray names => DecompressStream.InflateList names
  end.

(** An entry of [ParserConfigurations]: the name of a default media
    type, or a configuration. *)
Inductive ParserConfigurationEntry :=
| DefaultName (d : DefaultMediaType)
| Configuration (c : ParserConfiguration).

(** [ParserConfigurations]: one entry or an array of entries. *)
Inductive ParserConfigurations :=
| OneEntry (e : ParserConfigurationEntry)
| EntryArray (l : list ParserConfigurationEntry).

(** The default value of the parameter [parserConfigurations]. *)
Definition allDefaults : list ParserConfigurationEntry :=
  [DefaultName FormUrlencoded; DefaultName ApplicationJson;
   DefaultName TextPlain; DefaultName OctetStream].

(** [typeof l === 'string' ? bytes(l) : l] *)
Definition toLimit (l : LimitOption) : Limit :=
  match l with
  | LimitString s => Bytes.bytes s
  | LimitNumber n => Some n
  end.

(** Truthiness of a configured limit. *)
Definition limitTruthy (l : LimitOption) : bool :=
  match l with
  | LimitString s => Js.truthyStr s
  | LimitNumber n => Number.truthy n
  end.

(** What [defaultMediaTypeParsers] inherits under the names of
    [Object.prototype]: a function, or for ['__proto__'] the prototype
    itself.  Such a value is truthy and has none of the properties
    that the sources read from a default parser. *)
Definition inheritedMember : DefaultParser :=
  {| dp_parser := None; dp_defaultEncoding := None; dp_emptyResponse := None |}.

(** [defaultMediaTypeParsers[name]] for an arbitrary string. *)
Definition readDefault (name : string) : option DefaultParser :=
  match lookupDefault name with
  | Some d => Some (defaultMediaTypeParsers d)
  | None =>
      if Js.includes Js.objectPrototypeNames name then Some inheritedMember
      else None
  end.

(** The default parser that a configuration overlays:
    [typeof parser.matcher === 'string' && defaultMediaTypeParsers[parser.matcher]]. *)
Definition overlaidDefault (m : MatcherOption) : option (string * DefaultParser) :=
  match m with
  | MatcherOne (MediaTypes.IdString name) =>
      (fun defaultParser => (name, defaultParser)) <$> readDefault name
  | _ => None
  end.

Definition identifiersOf (m : MatcherOption) : list MediaTypes.MediaTypeIdentifier :=
  match m with
  | MatcherOne identifier => [identifier]
  | MatcherArray identifiers => identifiers
  end.

(** The body of the [map] callback of [joinParserConfigurations];
    [limit] is the resolved default limit. *)
Definition joinParserConfiguration (limit : Limit) (inflate : InflateOption)
    (encodingVariations : EncodingVariations) (requireContentLength : bool)
    (entry : ParserConfigurationEntry) : Result PatchedParser :=
  match entry with
  | DefaultName d =>
      let defaultMediaTypeParser := defaultMediaTypeParsers d in
      matchers ← MediaTypes.getMediaTypeMatchers
                   [MediaTypes.IdString (mediaTypeName d)];
      settings ← getEncodings EncodingsUnset
                   (dp_defaultEncoding defaultMediaTypeParser) encodingVariations
                   (dp_defaultEncoding defaultMediaTypeParser);
      Ok {| matcher := matchers;
            encodings := es_encodings settings;
            defaultEncoding := es_defaultEncoding settings;
            parser := dp_parser defaultMediaTypeParser;
            emptyResponse := dp_emptyResponse defaultMediaTypeParser;
            limit := limit;
            inflate := getInflate inflate;
            requireContentLength := requireContentLength;
            verify := None |}
  | Configuration parser =>
      match overlaidDefault (pc_matcher parser) with
      | Some (name, defaultParser) =>
          matchers ← MediaTypes.getMediaTypeMatchers [MediaTypes.IdString name];
          settings ← getEncodings (pc_encodings parser) (pc_defaultEncoding parser)
                       encodingVariations (dp_defaultEncoding defaultParser);
          Ok {| matcher := matchers;
                encodings := es_encodings settings;
                defaultEncoding := es_defaultEncoding settings;
                parser :=
                  match pc_parser parser with
                  | Set_ f => Some f
                  | Null => None
                  | Unset => dp_parser defaultParser
                  end;
                emptyResponse :=
                  match pc_emptyResponse parser with
                  | Some VNull => None
                  | Some v => Some v
                  | None => dp_emptyResponse defaultParser
                  end;
                limit :=
                  match pc_limit parser with
                  | Some l => if limitTruthy l then toLimit l else limit
                  | None => limit
                  end;
                inflate := getInflate (default inflate (pc_inflate parser));
                verify := pc_verify parser;
                requireContentLength :=
                  default requireContentLength (pc_requireContentLength parser) |}
      | None =>
          settings ← getEncodings (pc_encodings parser) (pc_defaultEncoding parser)
                       encodingVariations None;
          matchers ← MediaTypes.getMediaTypeMatchers (identifiersOf (pc_matcher parser));
          Ok {| encodings := es_encodings settings;
                defaultEncoding := es_defaultEncoding settings;
                limit :=
                  match pc_limit parser with
                  | Some l => toLimit l
                  | None => limit
                  end;
                requireContentLength :=
                  match pc_requireContentLength parser with
                  | Some true => true
                  | _ => requireContentLength
                  end;
                inflate := getInflate (default inflate (pc_inflate parser));
                parser :=
                  match pc_parser parser with
                  | Set_ f => Some f
                  | _ => None
                  end;
                emptyResponse :=
                  match pc_emptyResponse parser with
                  | Some VNull | Some (VBool false) => None
                  | other => other
                  end;
                matcher := matchers;
                verify := pc_verify parser |}
      end
  end.

Definition joinParserConfigurations
    (parserConfigurations : option ParserConfigurations)
    (defaultLimit : LimitOption) (inflate : InflateOption)
    (encodingVariations : EncodingVariations) (requireContentLength : bool)
  : Result (list PatchedParser) :=
  let limit := toLimit defaultLimit in
  let entries :=
    match parserConfigurations with
    | None => allDefaults
    | Some (OneEntry e) => [e]
    | Some (EntryArray l) => l
    end in
  mapM (joinParserConfiguration limit inflate encodingVariations requireContentLength)
       entries.

End Parsers.

Arguments Unset {A}.
Arguments Null {A}.
Arguments Set_ {A} a.

End BufferEncoding.

(** ** The [http-errors] package *)
Module HttpErrors.

(** The value of a property copied onto an error. *)
Inductive PropValue :=
| PUndefined
| PNull
| PFalse
| PString (s : string)
| PStrings (l : list string)
| PNumber (n : JsNumber)
| PValue (v : JsValue).

(** An error made by [createError]. *)
Record HttpError := {
  status : Z;
  message : string;
  props : list (string * PropValue)
}.

(** The codes of the [statuses] package. *)
Definition statusCodes : list Z :=
  [100; 101; 102; 103; 200; 201; 202; 203; 204; 205; 206; 207; 208; 226;
   300; 301; 302; 303; 304; 305; 306; 307; 308;
   400; 401; 402; 403; 404; 405; 406; 407; 408; 409; 410; 411; 412; 413;
   414; 415; 416; 417; 418; 421; 422; 423; 424; 425; 426; 428; 429; 431; 451;
   500; 501; 502; 503; 504; 505; 506; 507; 508; 509; 510; 511].

(** [createError(status, message, props)]: a status that is neither a
    known code nor in 400..599 becomes 500; the properties other than
    [status] and [statusCode] are copied. *)
Definition createError (status : Z) (message : string)
    (props : list (string * PropValue)) : HttpError :=
  {| status :=
       if negb (bool_decide (status ∈ statusCodes))
          && ((status <? 400) || (600 <=? status))
       then 500 else status;
     message := message;
     props := List.filter
                (fun kv => negb (String.eqb kv.1 "status")
                           && negb (String.eqb kv.1 "statusCode")) props |}.

Fixpoint getProp (props : list (string * PropValue)) (key : string) : PropValue :=
  match props with
  | [] => PUndefined
  | (k, v) :: rest => if String.eqb k key then v else getProp rest key
  end.

(** [err.type] *)
Definition type (e : HttpError) : PropValue := getProp (props e) "type".

End HttpErrors.

(** ** bodyParser.ts: the dispatcher *)
Module BodyParser.

Import HttpErrors.
Export BufferEncoding DecompressStream.

(** The result of [contentType.parse]. *)
Record ParsedMediaType := {
  pm_type : string;
  pm_parameters : gmap string string
}.

(** The request as the dispatcher reads it: the method and the
    headers ([None] when the request has no [headers] object). *)
Record Request := {
  method : string;
  headers : option (gmap string string)
}.

(** What the completion callback is called with: [callback(err)] with
    an error made by [createError], [callback(err)] with a stream error
    passed on as it is, or [callback(null, body)], where
    [callback(null)] has the body [undefined]. *)
Inductive CallbackArg :=
| CbError (e : HttpError)
| CbStreamError (e : JsError)
| CbBody (body : JsValue).

(** The arguments that [readStream] passes to [rawBodyParser] besides
    the request, the response, the callback and the decompressors. *)
Record EngineArgs := {
  parseConfiguration : PatchedParser;
  contentLength : option JsNumber;
  contentEncoding : string;
  defaultEncoding_ : option string;
  limit_ : Limit;
  bufferEncoding : option BufferEncoder;
  bufferEncodingIsStreamDecoder : bool
}.

(** How a call of [readStream] ends: the callback has been called, the
    streaming engine has been started, or an exception left the call. *)
Inductive Dispatch :=
| Completed (arg : CallbackArg)
| Streaming (args : EngineArgs)
| Thrown (e : JsError).

Fixpoint filterResult {A} (f : A -> Result bool) (l : list A) : Result (list A) :=
  match l with
  | [] => Ok []
  | x :: rest =>
      b ← f x;
      kept ← filterResult f rest;
      Ok (if (b : bool) then x :: kept else kept)
  end.

Fixpoint joinWith (sep : string) (l : list string) : string :=
  match l with
  | [] => EmptyString
  | [x] => x
  | x :: rest => x +:+ sep +:+ joinWith sep rest
  end.

Definition createErrorString (type : string) (preTypes : list string) : string :=
  "Specified '" +:+ type +:+ "' is not available"
  +:+ (match preTypes with
       | [] => EmptyString
       | _ => " for this "
              +:+ joinWith " and " (map (fun preType => "'" +:+ preType +:+ "'") preTypes)
       end)
  +:+ " on this server.".

Definition bodilessMethods : list string := ["GET"; "DELETE"].

(** A header value or [undefined], interpolated in a template string. *)
Definition showHeader (h : option string) : string := default "undefined" h.

Definition propOfHeader (h : option string) : PropValue :=
  match h with Some s => PString s | None => PUndefined end.

(** [charset: encoding] for [encoding : string | false] *)
Definition propOfCharset (encoding : option string) : PropValue :=
  match encoding with Some s => PString s | None => PFalse end.

Definition propOfLimit (limit : Limit) : PropValue :=
  match limit with Some n => PNumber n | None => PNull end.

Section Dispatcher.

(** [contentType.parse(req)], from the [content-type] package: it
    reads the header ['content-type'] and returns the media type and
    its parameters, or throws. *)
Variable contentTypeParse : option string -> Result ParsedMediaType.

Variable parsers : list PatchedParser.
Variable availableDecompressorNames : list string.
Variable availableBufferEncodings : gmap string BufferEncoder.
Variable availableBufferEncodingNames : list string.
Variable requireContentLength : bool.
Variable defaultContentTypeEncoding : option string.
Variable defaultContentType : option MediaTypes.MediaType.

(** The constants that [readStream] computes, one definition for
    each, under the name it has in the source. *)

(** [(req.headers['content-encoding'] || '').toLowerCase() || 'identity'] *)
Definition contentEncodingOf (headers : gmap string string) : string :=
  let lowered := Js.toLowerCase (default "" (headers !! "content-encoding")) in
  if Js.truthyStr lowered then lowered else "identity".

(** [parseInt(req.headers['content-length']) || null] *)
Definition contentLengthOf (headers : gmap string string) : option JsNumber :=
  let parsed := Number.parseInt (headers !! "content-length") in
  if Number.truthy parsed then Some parsed else None.

(** The expression in the [try] block:
    [req.headers['Content-Type'] || !defaultContentType ? contentType.parse(req) : undefined] *)
Definition parsedMediaTypeOf (headers : gmap string string)
  : Result (option ParsedMediaType) :=
  if truthy (headers !! "Content-Type")
     || negb (bool_decide (is_Some defaultContentType))
  then Some <$> contentTypeParse (headers !! "content-type")
  else Ok None.

Definition mediaTypeOf (parsedMediaType : option ParsedMediaType)
  : option MediaTypes.MediaType :=
  match parsedMediaType with
  | Some parsed => Some (Js.split "/"%char (pm_type parsed))
  | None => defaultContentType
  end.

Definition allowedMediaTypeParsers (mediaType : MediaTypes.MediaType)
  : Result (list PatchedParser) :=
  filterResult (fun p => MediaTypes.matchAnyType (matcher p) mediaType) parsers.

(** [encoding]: the charset of the request, or [false] ([None]). *)
Definition encodingOf (parsedMediaType : option ParsedMediaType) : option string :=
  match parsedMediaType with
  | Some parsed => Js.toLowerCase <$> pm_parameters parsed !! "charset"
  | None => defaultContentTypeEncoding
  end.

Definition allowedCharsetParsers (allowedMediaTypeParsers : list PatchedParser)
    (encoding : option string) : list PatchedParser :=
  List.filter
    (fun p => matchCharsetEncoding (encodings p) encoding
                availableBufferEncodingNames (defaultEncoding p))
    allowedMediaTypeParsers.

(** [parseConfiguration]: the first charset-compatible configuration
    that accepts the content encoding. *)
Definition parseConfigurationOf (contentEncoding : string)
    (allowedCharsetParsers : list PatchedParser) : option PatchedParser :=
  List.find
    (fun p => matchContentEncoding contentEncoding (inflate p)
                availableDecompressorNames)
    allowedCharsetParsers.

(** The bodiless check:
    [(transferEncoding === undefined && contentLength === null)
     || ['GET', 'DELETE'].includes(req.method)] *)
Definition bodiless (req : Request) (headers : gmap string string) : bool :=
  (bool_decide (headers !! "transfer-encoding" = None)
   && bool_decide (contentLengthOf headers = None))
  || Js.includes bodilessMethods (method req).

(** The hand-over to [rawBodyParser] at the end of [readStream]. *)
Definition handOver (headers : gmap string string) (encoding : option string)
    (parseConfiguration : PatchedParser) : Dispatch :=
  let defaultEncoding :=
    orElse (orElse encoding (defaultEncoding parseConfiguration)) None in
  let limit := limit parseConfiguration in
  match defaultEncoding with
  | None =>
      Streaming {| parseConfiguration := parseConfiguration;
                   contentLength := contentLengthOf headers;
                   contentEncoding := contentEncodingOf headers;
                   defaultEncoding_ := None;
                   limit_ := limit;
                   bufferEncoding := None;
                   bufferEncodingIsStreamDecoder := false |}
  | Some name =>
      match availableBufferEncodings !! name with
      | None =>
          Thrown (newError
            "Cannot use 'in' operator to search for 'onData' in undefined")
      | Some encoder =>
          Streaming {| parseConfiguration := parseConfiguration;
                       contentLength := contentLengthOf headers;
                       contentEncoding := contentEncodingOf headers;
                       defaultEncoding_ := defaultEncoding;
                       limit_ := limit;
                       bufferEncoding := Some encoder;
                       bufferEncodingIsStreamDecoder :=
                         match encoder with
                         | Chunked _ => true
                         | Unchunked _ => false
                         end |}
      end
  end.

(** [readStream], the function that [mediaTypeParser] returns.  The
    mark [_body] that it leaves on the request is not represented. *)
Definition mediaTypeParser (req : Request) : Dispatch :=
  match headers req with
  | None => Completed (CbError (createError 400 "Request Headers not set" []))
  | Some headers =>
  let contentEncoding := contentEncodingOf headers in
  let contentLength := contentLengthOf headers in
  if bool_decide (contentLength = None) && requireContentLength then
    Completed (CbError (createError 411
      "Header 'Content-Length' not specified but required by configuration."
      [("type", PString "contentLength.missing")]))
  else
  match parsedMediaTypeOf headers with
  | Throw err =>
      if Js.includes bodilessMethods (method req) then
        Completed (CbBody VUndefined)
      else
        Completed (CbError (createError 400
          (e_message err +:+ ": " +:+ showHeader (headers !! "content-type"))
          [("mediaType", propOfHeader (headers !! "media-type"));
           ("type", PString "mediaType.invalid")]))
  | Ok parsedMediaType =>
  match mediaTypeOf parsedMediaType with
  | None => Thrown (newError "Header 'Content-Type' has to be specified")
  | Some mediaType =>
  match allowedMediaTypeParsers mediaType with
  | Throw e => Thrown e
  | Ok allowedMediaTypeParsers =>
  if Nat.eqb (length allowedMediaTypeParsers) 0 then
    Completed (CbError (createError 415 "Unsupported Media Type"
      [("mediaType", PStrings mediaType); ("type", PString "mediaType.unsupported")]))
  else
  let encoding := encodingOf parsedMediaType in
  let allowedCharsetParsers := allowedCharsetParsers allowedMediaTypeParsers encoding in
  if Nat.eqb (length allowedCharsetParsers) 0 then
    if negb (truthy encoding) then
      Completed (CbError (createError 415
        "Default charset is not set for this 'Media-Type'. Please provide the 'charset' for this 'Media-Type'"
        [("charset", propOfCharset encoding); ("type", PString "charset.unsupported")]))
    else if Js.includes availableBufferEncodingNames (default "" encoding) then
      Completed (CbError (createError 415
        (createErrorString ("charset=" +:+ default "" encoding) ["Media-Type"])
        [("charset", propOfCharset encoding); ("type", PString "charset.unsupported")]))
    else
      Completed (CbError (createError 415
        (createErrorString ("charset=" +:+ default "" encoding) [])
        [("charset", propOfCharset encoding); ("type", PString "charset.unsupported")]))
  else
  let parseConfiguration := parseConfigurationOf contentEncoding allowedCharsetParsers in
  if bodiless req headers then
    Completed (CbBody (default VUndefined (parseConfiguration ≫= emptyResponse)))
  else
  match parseConfiguration with
  | None =>
      let contentEncodingString := "Content-Encoding: " +:+ contentEncoding in
      if Js.includes availableDecompressorNames contentEncoding then
        Completed (CbError (createError 415
          (createErrorString contentEncodingString ["Media-Type"; "charset"])
          [("contentEncoding", PString contentEncoding);
           ("type", PString "encoding.unsupported")]))
      else
        Completed (CbError (createError 415
          (createErrorString contentEncodingString [])
          [("contentEncoding", PString contentEncoding);
           ("type", PString "encoding.unsupported")]))
  | Some parseConfiguration => handOver headers encoding parseConfiguration
  end
  end
  end
  end
  end.

End Dispatcher.

(** *** The streaming engine [rawBodyParser] *)

(** One call of the completion callback; [deferred] tells that it was
    scheduled with [process.nextTick] and not made on the spot. *)
Record Invocation := {
  deferred : bool;
  arg : CallbackArg
}.

(** The variables of one run of [rawBodyParser].  [listening] tells
    that the listeners are attached; [halted] that [invokeCallback]
    has unpiped and paused the stream; [calls] lists the calls of the
    callback, oldest first; [decoders] are the decoders of the
    middleware, which the encoder of the request reads and changes. *)
Record EngineState := {
  complete : bool;
  sync : bool;
  received : Z;
  chunks : list JsValue;
  verifyBuffer : list Buffer;
  listening : bool;
  halted : bool;
  calls : list Invocation;
  decoders : Decoders
}.

(** The events of the stream that the engine listens to.  The event
    ['error'] carries the error. *)
Inductive StreamEvent :=
| Aborted
| Data (chunk : Buffer)
| End_
| Error (err : JsError)
| Close.

(** [err.status || fallback] *)
Definition statusOr (e : JsError) (fallback : Z) : Z :=
  match e_status e with
  | Some s => if s =? 0 then fallback else s
  | None => fallback
  end.

(** [err.type || fallback] *)
Definition typeOr (e : JsError) (fallback : string) : string :=
  default fallback (orElse (e_type e) None).

(** [Buffer.concat] of the chunks that are buffers. *)
Definition concatBuffers (chunks : list JsValue) : Buffer :=
  Js.flatMap (fun c => match c with VBuffer b => b | _ => [] end) chunks.

Definition isError (a : CallbackArg) : bool :=
  match a with CbBody _ => false | _ => true end.

(** The error of [onData] for a body over the limit. *)
Definition entityTooLarge (limit : Limit) (received : Z) : HttpError :=
  createError 413 "request entity too large"
    [("limit", propOfLimit limit);
     ("received", PNumber (Num received));
     ("type", PString "entity.too.large")].

Section Engine.

(** [JSON.stringify], from the platform ([None] for [undefined]). *)
Variable jsonStringify : JsValue -> option string.

(** What calling [availableDecompressors[name]()] does, for the
    names that have a factory: it returns a stream or throws. *)
Variable availableDecompressors : gmap string (Result unit).
Variable availableDecompressorNames : list string.
Variable args : EngineArgs.

(** The decoders of the middleware as the earlier requests left them. *)
Variable heldDecoders : Decoders.

(** The chunked encoder, when the decoding is made chunk by chunk.
    [readStream] sets the flag only for such an encoder. *)
Definition streamDecoder : option ChunkedBufferEncoder :=
  if bufferEncodingIsStreamDecoder args then
    match bufferEncoding args with
    | Some (Chunked c) => Some c
    | _ => None
    end
  else None.

Definition done (s : EngineState) (a : CallbackArg) : EngineState :=
  {| complete := true;
     sync := sync s;
     received := received s;
     chunks := chunks s;
     verifyBuffer := verifyBuffer s;
     listening := listening s;
     halted := halted s || isError a;
     calls := calls s ++ [{| deferred := sync s; arg := a |}];
     decoders := decoders s |}.

Definition decompressStream : Result unit :=
  if String.eqb (contentEncoding args) "identity"
     && Js.includes availableDecompressorNames "identity" then Ok ()
  else if negb (String.eqb (contentEncoding args) "identity") then
    match availableDecompressors !! contentEncoding args with
    | Some made => made
    | None => Throw (newError "availableDecompressors[contentEncoding] is not a function")
    end
  else
    Throw {| e_message := "server does not allow uncompressed requests.";
             e_status := None;
             e_type := Some "unsupported.content.encoding";
             e_code := None |}.

Definition initial : EngineState :=
  {| complete := false; sync := true; received := 0; chunks := [];
     verifyBuffer := []; listening := false; halted := false; calls := [];
     decoders := heldDecoders |}.

(** The synchronous part of [rawBodyParser]. *)
Definition rawBodyParser : EngineState :=
  match decompressStream with
  | Throw err =>
      done initial
        (CbError (createError (statusOr err 415)
           ("Decompression failed: " +:+ e_message err)
           [("contentEncoding", PString (contentEncoding args));
            ("type", PString (typeOr err "decompression.failed"))]))
  | Ok _ =>
      {| complete := false; sync := false; received := 0; chunks := [];
         verifyBuffer := []; listening := true; halted := false; calls := [];
         decoders := heldDecoders |}
  end.

Definition onAborted (s : EngineState) : EngineState :=
  if complete s then s
  else done s (CbError (createError 400 "request aborted"
                 [("code", PString "ECONNABORTED"); ("type", PString "request.aborted")])).

Definition onData (s : EngineState) (chunk : Buffer) : EngineState :=
  if complete s then s
  else
    let received := received s + Z.of_nat (length chunk) in
    let s := {| complete := complete s; sync := sync s; received := received;
                chunks := chunks s; verifyBuffer := verifyBuffer s;
                listening := listening s; halted := halted s; calls := calls s;
                decoders := decoders s |} in
    let s :=
      match limit_ args with
      | Some limit =>
          if Number.gt (Num received) limit then
            done s (CbError (entityTooLarge (limit_ args) received))
          else s
      | None => s
      end in
    let pushed :=
      match streamDecoder with
      | Some c => BufferEncoding.onData c (decoders s) chunk
      | None => (VBuffer chunk, decoders s)
      end in
    {| complete := complete s; sync := sync s; received := BodyParser.received s;
       chunks := chunks s ++ [pushed.1];
       verifyBuffer :=
         if bool_decide (is_Some (verify (parseConfiguration args)))
            && bufferEncodingIsStreamDecoder args
         then verifyBuffer s ++ [chunk] else verifyBuffer s;
       listening := listening s; halted := halted s; calls := calls s;
       decoders := pushed.2 |}.

Definition sizeProps (s : EngineState) (type : string) : list (string * PropValue) :=
  [("limit", propOfLimit (limit_ args));
   ("received", PNumber (Num (received s)));
   ("type", PString type)].

(** The listener of ['end'] ([err] is [None]) and of ['error']. *)
Definition onEnd (s : EngineState) (err : option JsError) : EngineState :=
  if complete s then s
  else
    match err with
    | Some err =>
        if bool_decide (e_code err = Some "Z_DATA_ERROR") then
          done s (CbError (createError 400 "incorrect header check"
                    (sizeProps s "header.check")))
        else if bool_decide (e_code err = Some "Z_BUF_ERROR") then
          done s (CbError (createError 400 "unexpected end of file"
                    (sizeProps s "end.of.file")))
        else done s (CbStreamError err)
    | None =>
        if bool_decide (is_Some (contentLength args))
           && negb (bool_decide (Some (Num (received s)) = contentLength args))
           && String.eqb (contentEncoding args) "identity" then
          done s (CbError (createError 400 "request size did not match content length"
                    [("expected", PNumber (default NaN (contentLength args)));
                     ("length", PNumber (default NaN (contentLength args)));
                     ("received", PNumber (Num (received s)));
                     ("type", PString "request.size.invalid")]))
        else
          let ended :=
            match streamDecoder with
            | Some c =>
                let ended := BufferEncoding.onEnd c (decoders s) in
                (chunks s ++ [ended.1], ended.2)
            | None => (chunks s, decoders s)
            end in
          let s :=
            {| complete := complete s; sync := sync s; received := received s;
               chunks := ended.1;
               verifyBuffer := verifyBuffer s; listening := listening s;
               halted := halted s; calls := calls s; decoders := ended.2 |} in
          if received s =? 0 then
            done s (CbBody (default VUndefined (emptyResponse (parseConfiguration args))))
          else
            let buffer :=
              match streamDecoder with
              | Some c => reduce c (chunks s)
              | None => VBuffer (concatBuffers (chunks s))
              end in
            let decoded :=
              match encodings (parseConfiguration args), streamDecoder,
                    bufferEncoding args with
              | Some _, None, Some (Unchunked u) =>
                  transform u (concatBuffers (chunks s))
              | _, _, _ => buffer
              end in
            let parsed :=
              match parser (parseConfiguration args) with
              | Some parse => parse decoded
              | None => Ok decoded
              end in
            match parsed with
            | Throw err =>
                done s (CbError (createError (statusOr err 400)
                          ("Parse error: " +:+ e_message err)
                          [("body", PValue decoded);
                           ("type", PString (typeOr err "entity.parse.failed"))]))
            | Ok body =>
                let verified :=
                  match verify (parseConfiguration args) with
                  | Some check =>
                      check
                        (if bufferEncodingIsStreamDecoder args
                         then VBuffer (Js.flatMap id (verifyBuffer s)) else buffer)
                        body (defaultEncoding_ args)
                  | None => Ok ()
                  end in
                match verified with
                | Throw err =>
                    done s (CbError (createError (statusOr err 403)
                              ("Verify function did not match: " +:+ e_message err)
                              [("body",
                                match body with
                                | VString text => PString text
                                | _ =>
                                    match jsonStringify body with
                                    | Some text => PString text
                                    | None => PUndefined
                                    end
                                end);
                               ("type", PString (typeOr err "entity.verify.failed"))]))
                | Ok _ =>
                    let s :=
                      {| complete := complete s; sync := sync s; received := received s;
                         chunks := chunks s;
                         verifyBuffer :=
                           if bool_decide (is_Some (verify (parseConfiguration args)))
                           then [] else verifyBuffer s;
                         listening := listening s; halted := halted s;
                         calls := calls s; decoders := decoders s |} in
                    done s (CbBody body)
                end
            end
    end.

(** The listener of ['close']. *)
Definition cleanup (s : EngineState) : EngineState :=
  {| complete := complete s; sync := sync s; received := received s;
     chunks := []; verifyBuffer := verifyBuffer s; listening := false;
     halted := halted s; calls := calls s; decoders := decoders s |}.

(** The effect of one event of the stream; without listeners there
    is none. *)
Definition handle (s : EngineState) (ev : StreamEvent) : EngineState :=
  if listening s then
    match ev with
    | Aborted => onAborted s
    | Data chunk => onData s chunk
    | End_ => onEnd s None
    | Error err => onEnd s (Some err)
    | Close => cleanup s
    end
  else s.

(** The engine after the events [evs], delivered in this order after
    the synchronous part. *)
Definition run (evs : list StreamEvent) : EngineState :=
  foldl handle rawBodyParser evs.

End Engine.

(** What [onData] makes of a run of chunks: the pieces that it
    pushes, one for each chunk, and the decoders afterwards. *)
Fixpoint pushChunks (decoder : option ChunkedBufferEncoder) (decoders : Decoders)
    (cs : list Buffer) : list JsValue * Decoders :=
  match cs with
  | [] => ([], decoders)
  | chunk :: rest =>
      let pushed :=
        match decoder with
        | Some c => BufferEncoding.onData c decoders chunk
        | None => (VBuffer chunk, decoders)
        end in
      let later := pushChunks decoder pushed.2 rest in
      (pushed.1 :: later.1, later.2)
  end.

End BodyParser.

(** ** decompressStream.ts: the available decompressors *)
Module Decompressors.

Import BodyParser.

(** A JavaScript object as the sources enumerate it: the own
    properties in the order of their creation.  Keys that are array
    indices, which the platform lists first, are not represented. *)
Abbreviation Fields D := (list (string * D)).

Section Objects.

Context {D : Type}.

(** [Object.keys(obj)] *)
Definition keys (obj : Fields D) : list string := map fst obj.

(** [obj[key]] *)
Fixpoint get (obj : Fields D) (key : string) : option D :=
  match obj with
  | [] => None
  | (k, v) :: rest => if String.eqb k key then Some v else get rest key
  end.

(** [obj[key] = v]: an existing key keeps its place, a new one goes last. *)
Fixpoint set (obj : Fields D) (key : string) (v : D) : Fields D :=
  match obj with
  | [] => [(key, v)]
  | (k, w) :: rest =>
      if String.eqb k key then (k, v) :: rest else (k, w) :: set rest key v
  end.

(** [delete obj[key]] *)
Definition deleteKey (obj : Fields D) (key : string) : Fields D :=
  List.filter (fun kv => negb (String.eqb kv.1 key)) obj.

(** [{...a, ...b}] *)
Definition spread (a b : Fields D) : Fields D :=
  foldl (fun obj kv => set obj kv.1 kv.2) a b.

(** [deleteMissingKeys] changes the object that it is given; the
    object after the call is returned ([None] is [undefined]). *)
Definition deleteMissingKeys (obj : option (Fields D)) (neededKeys : list string)
  : option (Fields D) :=
  match obj with
  | Some fields =>
      Some (foldl (fun obj key =>
                     if negb (Js.includes neededKeys key) then deleteKey obj key
                     else obj)
              fields (keys fields))
  | None => None
  end.

End Objects.

Section Factories.

(** The functions that make a decompression stream; the three of
    [zlib] come from the platform. *)
Variable Factory : Type.
Variables createInflate createGunzip createBrotliDecompress : Factory.

Definition standardDecompressors : Fields Factory :=
  [("deflate", createInflate); ("gzip", createGunzip);
   ("br", createBrotliDecompress)].

(** [Array.isArray(inflate) ? inflate : []] *)
Definition inflateNames (p : PatchedParser) : list string :=
  match inflate p with
  | InflateList names => names
  | InflateAll => []
  end.

Definition getAvailableDecompressors (parsers : list PatchedParser)
    (decompressors : option (Fields Factory))
  : Result (Fields Factory * list string) :=
  let allowsAllDecompressors :=
    existsb (fun p => match inflate p with InflateAll => true | _ => false end)
      parsers in
  let suppliedDecompressorNames := Js.uniq (Js.flatMap inflateNames parsers) in
  let standardDecompressors :=
    if negb allowsAllDecompressors
    then default [] (deleteMissingKeys (Some standardDecompressors)
                       suppliedDecompressorNames)
    else standardDecompressors in
  let decompressors :=
    if negb allowsAllDecompressors
    then deleteMissingKeys decompressors suppliedDecompressorNames
    else decompressors in
  let availableDecompressors :=
    spread standardDecompressors (default [] decompressors) in
  let availableDecompressorNames :=
    (if allowsAllDecompressors || Js.includes suppliedDecompressorNames "identity"
     then ["identity"] else [])
    ++ keys availableDecompressors in
  let notAvailableDecompressors :=
    joinWith ", "
      (filter (fun suppliedDecompressorName =>
                 suppliedDecompressorName ∉ availableDecompressorNames)
         suppliedDecompressorNames) in
  if negb (String.eqb notAvailableDecompressors "") then
    Throw (newError
      ("The following decompressors in the parse configuration are not supplied: "
       +:+ notAvailableDecompressors))
  else Ok (availableDecompressors, availableDecompressorNames).

End Factories.

End Decompressors.

(** ** The [StringDecoder] of UTF-8 *)
Module Utf8.

(** U+FFFD, which stands for bytes that are no UTF-8. *)
Definition replacement : Buffer := [Byte.xef; Byte.xbf; Byte.xbd].

(** For the first byte of a sequence of several bytes: the number of
    bytes that follow and the range of the next one. *)
Definition lead (n : nat) : option (nat * nat * nat) :=
  if Nat.leb 194 n && Nat.leb n 223 then Some (1, 128, 191)%nat
  else if Nat.eqb n 224 then Some (2, 160, 191)%nat
  else if Nat.eqb n 237 then Some (2, 128, 159)%nat
  else if Nat.leb 225 n && Nat.leb n 239 then Some (2, 128, 191)%nat
  else if Nat.eqb n 240 then Some (3, 144, 191)%nat
  else if Nat.eqb n 244 then Some (3, 128, 143)%nat
  else if Nat.leb 241 n && Nat.leb n 243 then Some (3, 128, 191)%nat
  else None.

(** The text of the bytes [bs], as its UTF-8 bytes: a well-formed
    sequence is kept, and every maximal part of an ill-formed one
    becomes U+FFFD.  [opened] are the bytes of the sequence that is
    being read, [needed] the number of bytes that it still lacks, and
    [lo] to [hi] the range of the next one. *)
Fixpoint decodeFrom (bs opened : Buffer) (needed lo hi : nat) : Buffer :=
  match bs with
  | [] => if Nat.eqb needed 0 then [] else replacement
  | b :: rest =>
      let n := Byte.to_nat b in
      let fresh :=
        if Nat.ltb n 128 then b :: decodeFrom rest [] 0 128 191
        else
          match lead n with
          | Some (k, l, h) => decodeFrom rest [b] k l h
          | None => replacement ++ decodeFrom rest [] 0 128 191
          end in
      if Nat.eqb needed 0 then fresh
      else if Nat.leb lo n && Nat.leb n hi then
        if Nat.eqb needed 1 then opened ++ b :: decodeFrom rest [] 0 128 191
        else decodeFrom rest (opened ++ [b]) (needed - 1) 128 191
      else replacement ++ fresh
  end.

(** [buffer.toString('utf8')] *)
Definition decode (bs : Buffer) : string :=
  string_of_list_byte (decodeFrom bs [] 0 128 191).

(** The number of bytes of a character that a first byte announces:
    the decoder looks at its upper bits only. *)
Definition announced (n : nat) : nat :=
  if Nat.leb 192 n && Nat.leb n 223 then 2
  else if Nat.leb 224 n && Nat.leb n 239 then 3
  else if Nat.leb 240 n && Nat.leb n 247 then 4
  else 0.

(** The length of the character at the end of the bytes that is not
    complete yet; [reversed] are the bytes from the last one on, and
    [buffered] counts the bytes that were passed. *)
Fixpoint incompleteFrom (reversed : Buffer) (buffered : nat) : nat :=
  match reversed with
  | [] => 0
  | b :: before =>
      let n := Byte.to_nat b in
      let buffered := S buffered in
      if Nat.leb 128 n && Nat.ltb n 192 then
        if Nat.leb 4 buffered then 0
        else
          match before with
          | [] => 0
          | _ => incompleteFrom before buffered
          end
      else if Nat.leb (announced n) buffered then 0
      else buffered
  end.

Definition incomplete (bs : Buffer) : nat :=
  match rev bs with
  | [] => 0
  | b :: before =>
      if Nat.ltb (Byte.to_nat b) 128 then 0 else incompleteFrom (b :: before) 0
  end.

(** [decoder.write(chunk)] of a decoder that holds [held] back: the
    text of the bytes up to the character that is not complete, and
    the bytes of that character, which are held back. *)
Definition write (held chunk : Buffer) : string * Buffer :=
  let bytes := held ++ chunk in
  let kept := (length bytes - incomplete bytes)%nat in
  (decode (take kept bytes), drop kept bytes).

(** [decoder.end()]: U+FFFD for a character that was not completed;
    the decoder holds nothing back afterwards. *)
Definition end_ (held : Buffer) : string * Buffer :=
  (match held with
   | [] => EmptyString
   | _ => string_of_list_byte replacement
   end, []).

End Utf8.

(** ** bufferEncoding.ts: the available buffer encodings *)
Module Encoders.

Import BodyParser.

Definition nodeBufferEncodings : list string :=
  ["utf-8"; "utf8"; "ucs-2"; "ucs2"; "utf16le"; "latin1"; "ascii";
   "base64"; "base64url"; "hex"; "binary"].

(** [array.join('')] on the pieces of a decoder. *)
Definition joinPieces (array : list JsValue) : JsValue :=
  VString (String.concat ""
             (map (fun piece => match piece with
                                | VUndefined | VNull => EmptyString
                                | _ => Value.toString piece
                                end) array)).

(** The encodings that occur more than once, for the error message. *)
Definition multipleBufferEncodings (suppliedBufferEncodings : list string)
  : list string :=
  Js.uniq (List.filter
             (fun encoding => Js.indexOf suppliedBufferEncodings encoding
                              <? Js.lastIndexOf suppliedBufferEncodings encoding)
             suppliedBufferEncodings).

(** The names that one parser asks for: the callback of the first
    [flatMap] of [suppliedEncodingNames]. *)
Definition requestedEncodings (parser : PatchedParser) : list string :=
  match encodings parser with
  | Some (EncodingList names) =>
      match defaultEncoding parser with
      | Some d => if Js.truthyStr d then d :: names else names
      | None => names
      end
  | _ =>
      match defaultEncoding parser with
      | Some d => if Js.truthyStr d then d :: nodeBufferEncodings
                  else nodeBufferEncodings
      | None => nodeBufferEncodings
      end
  end.

Section Native.

(** A [StringDecoder] of the platform for the given encoding, as a
    function of the bytes that it holds back: [write(chunk)] and
    [end()] give the text and the bytes that are held back
    afterwards. *)
Variable decoderWrite : string -> Buffer -> Buffer -> JsValue * Buffer.
Variable decoderEnd : string -> Buffer -> JsValue * Buffer.

(** The bytes that the decoder of [nodeEncoding] holds back. *)
Definition heldBy (decoders : Decoders) (nodeEncoding : string) : Buffer :=
  default [] (decoders !! nodeEncoding).

(** The encoder that is made for a native encoding, around its one
    [new StringDecoder(nodeEncoding)]. *)
Definition nativeEncoder (encodingVariations : EncodingVariations)
    (nodeEncoding : string) : BufferEncoder :=
  Chunked {| BufferEncoding.onData := fun decoders buffer =>
               let written :=
                 decoderWrite nodeEncoding (heldBy decoders nodeEncoding) buffer in
               (written.1, <[nodeEncoding := written.2]> decoders);
             BufferEncoding.onEnd := fun decoders =>
               let ended := decoderEnd nodeEncoding (heldBy decoders nodeEncoding) in
               (ended.1, <[nodeEncoding := ended.2]> decoders);
             BufferEncoding.reduce := joinPieces;
             BufferEncoding.chunkedEncodings :=
               normalizeEncodings [nodeEncoding] encodingVariations |}.

(** [Object.fromEntries] of the names with the first encoder that
    lists each.  An encoder is always found, because the names are
    taken from the encoders. *)
Definition encoderEntries (availableBufferEncodingsArray : list BufferEncoder)
    (availableBufferEncodingNames : list string) : gmap string BufferEncoder :=
  foldl (fun entries encoding =>
           match List.find (fun e => Js.includes (encodingsOf e) encoding)
                   availableBufferEncodingsArray with
           | Some e => <[encoding := e]> entries
           | None => entries
           end) ∅ availableBufferEncodingNames.

Definition getAvailableBufferEncodings (parsers : list PatchedParser)
    (encodingVariations : EncodingVariations)
    (nodeEncodingVariations : list string)
    (bufferEncodings : option (list BufferEncoder))
  : Result (gmap string BufferEncoder * list string) :=
  let suppliedBufferEncodings :=
    match bufferEncodings with
    | Some bufferEncodings =>
        map Js.toLowerCase (Js.flatMap encodingsOf bufferEncodings)
    | None => []
    end in
  if negb (Nat.eqb (length suppliedBufferEncodings)
             (length (Js.uniq suppliedBufferEncodings))) then
    Throw (newError
      ("The encodings "
       +:+ joinWith ", " (multipleBufferEncodings suppliedBufferEncodings)
       +:+ " are defined in multiple BufferEncodings"))
  else
    let nativeNodeEncodings :=
      filter (fun nodeEncoding =>
                (nodeEncoding ∉ suppliedBufferEncodings)
                /\ (nodeEncoding ∉ nodeEncodingVariations))
        nodeBufferEncodings in
    let availableBufferEncodingsArray :=
      map (nativeEncoder encodingVariations) nativeNodeEncodings
      ++ default [] bufferEncodings in
    let suppliedEncodingNames :=
      Js.uniq
        (Js.flatMap (variationsOf encodingVariations)
           (Js.flatMap requestedEncodings
              (filter (fun parser => is_Some (encodings parser)
                                     \/ is_Some (defaultEncoding parser))
                 parsers))) in
    let availableBufferEncodingNames :=
      filter (fun encoding => encoding ∈ suppliedEncodingNames)
        (Js.uniq (Js.flatMap encodingsOf availableBufferEncodingsArray)) in
    let notAvailableEncodings :=
      joinWith ", "
        (filter (fun suppliedEncodingName =>
                   suppliedEncodingName ∉ availableBufferEncodingNames)
           suppliedEncodingNames) in
    if negb (String.eqb notAvailableEncodings "") then
      Throw (newError
        ("The following decompressors in the parse configuration are not supplied: "
         +:+ notAvailableEncodings))
    else
      Ok (encoderEntries availableBufferEncodingsArray availableBufferEncodingNames,
          availableBufferEncodingNames).

End Native.

End Encoders.

(** ** bodyParser.ts: the set-up of the middleware *)
Module Middleware.

Import BodyParser Decompressors Encoders.

(** [DefaultOptions]; [None] is an absent key.  A key that is present
    with the value [undefined], which the spread would copy over the
    default, is not represented. *)
Record DefaultOptions := {
  o_defaultLimit : option LimitOption;
  o_inflate : option InflateOption;
  o_requireContentLength : option bool;
  o_defaultContentType : option string
}.

(** [parsers.find(...)] with a predicate that may throw. *)
Fixpoint findResult {A} (f : A -> Result bool) (l : list A) : Result (option A) :=
  match l with
  | [] => Ok None
  | x :: rest =>
      b ← f x;
      if (b : bool) then Ok (Some x) else findResult f rest
  end.

(** The block that sets [defaultContentTypeEncoding]. *)
Definition defaultContentTypeEncodingOf (parsers : list PatchedParser)
    (defaultContentType : option MediaTypes.MediaType) : Result (option string) :=
  match defaultContentType with
  | Some defaultContentType =>
      defaultParser ←
        findResult (fun p => MediaTypes.matchAnyType (matcher p) defaultContentType)
          parsers;
      match defaultParser with
      | None =>
          if Nat.eqb (length defaultContentType) 2 then
            Throw (newError
              ("The specified default content type '"
               +:+ joinWith "/" defaultContentType
               +:+ "' does not match any parser configuration"))
          else
            Throw (newError
              ("The specified default content type '"
               +:+ joinWith "/" defaultContentType +:+ "' is invalid."))
      | Some defaultParser => Ok (orElse (defaultEncoding defaultParser) None)
      end
  | None => Ok None
  end.

Section Setup.

Variable querystringParse : string -> JsNumber -> JsValue.
Variable Factory : Type.
Variables createInflate createGunzip createBrotliDecompress : Factory.
Variable decoderWrite : string -> Buffer -> Buffer -> JsValue * Buffer.
Variable decoderEnd : string -> Buffer -> JsValue * Buffer.
Variable contentTypeParse : option string -> Result ParsedMediaType.

(** The constants that [getBody] closes over. *)
Record GetBody := {
  gb_parsers : list PatchedParser;
  gb_availableDecompressors : Fields Factory;
  gb_availableDecompressorNames : list string;
  gb_availableBufferEncodings : gmap string BufferEncoder;
  gb_availableBufferEncodingNames : list string;
  gb_requireContentLength : bool;
  gb_defaultContentTypeEncoding : option string;
  gb_defaultContentType : option MediaTypes.MediaType
}.

(** [bodyParser(options, parserConfigurations, bufferEncodings, decompressors)]:
    the set-up, which may throw, up to the function [getBody] that it
    returns. *)
Definition bodyParser (options : DefaultOptions)
    (parserConfigurations : option ParserConfigurations)
    (bufferEncodings : option (list BufferEncoder))
    (decompressors : option (Fields Factory)) : Result GetBody :=
  let defaultLimit := default (LimitString "20kb") (o_defaultLimit options) in
  let inflate := default (InflateString "identity") (o_inflate options) in
  let requireContentLength := default false (o_requireContentLength options) in
  let defaultContentType := Js.split "/"%char <$> o_defaultContentType options in
  '(encodingVariations, nodeEncodingVariations) ←
    getEncodingVariations bufferEncodings;
  parsers ← joinParserConfigurations querystringParse parserConfigurations
              defaultLimit inflate encodingVariations requireContentLength;
  '(availableDecompressors, availableDecompressorNames) ←
    getAvailableDecompressors Factory createInflate createGunzip
      createBrotliDecompress parsers decompressors;
  '(availableBufferEncodings, availableBufferEncodingNames) ←
    getAvailableBufferEncodings decoderWrite decoderEnd parsers encodingVariations
      nodeEncodingVariations bufferEncodings;
  defaultContentTypeEncoding ←
    defaultContentTypeEncodingOf parsers defaultContentType;
  Ok {| gb_parsers := parsers;
        gb_availableDecompressors := availableDecompressors;
        gb_availableDecompressorNames := availableDecompressorNames;
        gb_availableBufferEncodings := availableBufferEncodings;
        gb_availableBufferEncodingNames := availableBufferEncodingNames;
        gb_requireContentLength := requireContentLength;
        gb_defaultContentTypeEncoding := defaultContentTypeEncoding;
        gb_defaultContentType := defaultContentType |}.

(** The [readStream] that [getBody] makes for each request.  The test
    of [req._body] before it and [readStreamCallback], which stores the
    body in the request and calls [next], are not represented. *)
Definition readStream (getBody : GetBody) : Request -> Dispatch :=
  mediaTypeParser contentTypeParse
    (gb_parsers getBody)
    (gb_availableDecompressorNames getBody)
    (gb_availableBufferEncodings getBody)
    (gb_availableBufferEncodingNames getBody)
    (gb_requireContentLength getBody)
    (gb_defaultContentTypeEncoding getBody)
    (gb_defaultContentType getBody).

(** What calling the factory of each available decompressor does. *)
Variable callFactory : Factory -> Result unit.
Variable jsonStringify : JsValue -> option string.

Definition madeDecompressors (getBody : GetBody) : gmap string (Result unit) :=
  list_to_map (map (fun kv => (kv.1, callFactory kv.2))
                 (gb_availableDecompressors getBody)).

(** One request that [getBody] receives, with the events of its
    stream when it is handed over to the engine: the calls of the
    callback, and the decoders as the request leaves them.  An
    exception that leaves [readStream] gives no call. *)
Definition serveRequest (getBody : GetBody) (decoders : Decoders)
    (req : Request) (evs : list StreamEvent) : list Invocation * Decoders :=
  match readStream getBody req with
  | Completed a => ([{| deferred := false; arg := a |}], decoders)
  | Thrown _ => ([], decoders)
  | Streaming args =>
      let s := run jsonStringify (madeDecompressors getBody)
                 (gb_availableDecompressorNames getBody) args decoders evs in
      (calls s, BodyParser.decoders s)
  end.

(** Requests that the middleware serves one after the other, each
    with all the events of its stream; the decoders of the middleware
    pass from one request to the next. *)
Fixpoint serve (getBody : GetBody) (decoders : Decoders)
    (requests : list (Request * list StreamEvent)) : list (list Invocation) :=
  match requests with
  | [] => []
  | (req, evs) :: rest =>
      let served := serveRequest getBody decoders req evs in
      served.1 :: serve getBody served.2 rest
  end.

(** [defaultContentType?: M | boolean] of the standard parsers. *)
Inductive StandardDefault :=
| DefaultFlag (b : bool)
| DefaultType (name : string).

(** [options.defaultContentType === true ? parserConfigurations : options.defaultContentType],
    and then the test [defaultContentType ? {defaultContentType} : {}]. *)
Definition standardDefaultContentType (parserConfigurations : DefaultMediaType)
    (defaultContentType : option StandardDefault) : option string :=
  match defaultContentType with
  | Some (DefaultFlag true) => Some (mediaTypeName parserConfigurations)
  | Some (DefaultType name) => if Js.truthyStr name then Some name else None
  | Some (DefaultFlag false) | None => None
  end.

(** The function that [getStandardParser(parserConfigurations)]
    returns; [options] are the options without [defaultContentType]. *)
Definition getStandardParser (parserConfigurations : DefaultMediaType)
    (options : DefaultOptions) (defaultContentType : option StandardDefault)
    (bufferEncodings : option (list BufferEncoder))
    (decompressors : option (Fields Factory)) : Result GetBody :=
  bodyParser
    {| o_defaultLimit := o_defaultLimit options;
       o_inflate := o_inflate options;
       o_requireContentLength := o_requireContentLength options;
       o_defaultContentType :=
         standardDefaultContentType parserConfigurations defaultContentType |}
    (Some (OneEntry (DefaultName parserConfigurations)))
    bufferEncodings decompressors.

(** [bodyParser.raw] *)
Definition raw (options : DefaultOptions) (defaultContentType : option StandardDefault)
    (decompressors : option (Fields Factory)) : Result GetBody :=
  bodyParser
    {| o_defaultLimit := o_defaultLimit options;
       o_inflate := o_inflate options;
       o_requireContentLength := o_requireContentLength options;
       o_defaultContentType :=
         standardDefaultContentType OctetStream defaultContentType |}
    (Some (OneEntry (DefaultName OctetStream)))
    None decompressors.

(** [bodyParser.json], [bodyParser.urlencoded], [bodyParser.text] *)
Definition json := getStandardParser ApplicationJson.
Definition urlencoded := getStandardParser FormUrlencoded.
Definition text := getStandardParser TextPlain.

End Setup.

Arguments gb_parsers {Factory} _.
Arguments gb_availableDecompressors {Factory} _.
Arguments gb_availableDecompressorNames {Factory} _.
Arguments gb_availableBufferEncodings {Factory} _.
Arguments gb_availableBufferEncodingNames {Factory} _.
Arguments gb_requireContentLength {Factory} _.
Arguments gb_defaultContentTypeEncoding {Factory} _.
Arguments gb_defaultContentType {Factory} _.
Arguments readStream {Factory} contentTypeParse getBody _.
Arguments madeDecompressors {Factory} callFactory getBody.
Arguments serveRequest {Factory} contentTypeParse callFactory jsonStringify
  getBody decoders req evs.
Arguments serve {Factory} contentTypeParse callFactory jsonStringify
  getBody decoders requests.

End Middleware.

(** ** Example inputs *)
Module Examples.

Import BufferEncoding.

(** The configuration object [{matcher: m}]. *)
Definition configurationOf (m : MatcherOption) : ParserConfiguration :=
  {| pc_inflate := None; pc_limit := None; pc_requireContentLength := None;
     pc_parser := Unset; pc_matcher := m; pc_encodings := EncodingsUnset;
     pc_defaultEncoding := None; pc_emptyResponse := None; pc_verify := None |}.

(** [{matcher: name, limit: l}] *)
Definition withLimit (name : string) (l : LimitOption) : ParserConfiguration :=
  {| pc_inflate := None; pc_limit := Some l; pc_requireContentLength := None;
     pc_parser := Unset; pc_matcher := MatcherOne (MediaTypes.IdString name);
     pc_encodings := EncodingsUnset;
     pc_defaultEncoding := None; pc_emptyResponse := None; pc_verify := None |}.

(** [{matcher: name, encodings: e, defaultEncoding: d}] *)
Definition withEncodings (name : string) (e : EncodingsOption) (d : string)
  : ParserConfiguration :=
  {| pc_inflate := None; pc_limit := None; pc_requireContentLength := None;
     pc_parser := Unset; pc_matcher := MatcherOne (MediaTypes.IdString name);
     pc_encodings := e;
     pc_defaultEncoding := Some d; pc_emptyResponse := None; pc_verify := None |}.

(** The limit of the only entry of a resolved list. *)
Definition onlyLimit (r : Result (list PatchedParser)) : option Limit :=
  match r with
  | Ok [p] => Some (limit p)
  | _ => None
  end.

(** An encoder for the given names that hands the buffer on. *)
Definition encoder (names : list string) : BufferEncoder :=
  Unchunked {| transform := fun b => VBuffer b; unchunkedEncodings := names |}.

(** A stand-in for [querystring.parse] where a closed term is needed. *)
Definition noQuerystring : string -> JsNumber -> JsValue := fun _ _ => VUndefined.

(** A stand-in for [JSON.stringify]. *)
Definition noStringify : JsValue -> option string := fun _ => None.

(** The parser of [bodyParser.text()] with its default options. *)
Definition textConfiguration : PatchedParser :=
  {| matcher := [MediaTypes.Template (Some "text", Some "plain")];
     encodings := Some AllEncodings;
     defaultEncoding := Some "utf-8";
     parser := None;
     emptyResponse := Some (VString "");
     limit := Some (Num 20480);
     inflate := DecompressStream.InflateList ["identity"];
     requireContentLength := false;
     verify := None |}.

(** The parser of [bodyParser.json()] with its default options. *)
Definition jsonConfiguration : PatchedParser :=
  {| matcher := [MediaTypes.Template (Some "application", Some "json")];
     encodings := Some AllEncodings;
     defaultEncoding := Some "utf-8";
     parser := Some jsonParser;
     emptyResponse := Some (VObject []);
     limit := Some (Num 20480);
     inflate := DecompressStream.InflateList ["identity"];
     requireContentLength := false;
     verify := None |}.

(** The parser of [bodyParser.json({inflate: ['gzip', 'deflate']})]. *)
Definition gzipJsonConfiguration : PatchedParser :=
  {| matcher := [MediaTypes.Template (Some "application", Some "json")];
     encodings := Some AllEncodings;
     defaultEncoding := Some "utf-8";
     parser := Some jsonParser;
     emptyResponse := Some (VObject []);
     limit := Some (Num 20480);
     inflate := DecompressStream.InflateList ["gzip"; "deflate"];
     requireContentLength := false;
     verify := None |}.

(** The [StringDecoder] of the platform.  The examples use the
    encoding UTF-8 only; the decoders of the other encodings are shown
    like it. *)
Definition decoderWrite : string -> Buffer -> Buffer -> JsValue * Buffer :=
  fun _ held chunk =>
    let written := Utf8.write held chunk in (VString written.1, written.2).

Definition decoderEnd : string -> Buffer -> JsValue * Buffer :=
  fun _ held => let ended := Utf8.end_ held in (VString ended.1, ended.2).

(** The encoder that [getAvailableBufferEncodings] makes for the
    native encoding ['utf-8'], around its [StringDecoder]. *)
Definition utf8Decoder : ChunkedBufferEncoder :=
  {| onData := fun decoders chunk =>
       let written :=
         decoderWrite "utf-8" (Encoders.heldBy decoders "utf-8") chunk in
       (written.1, <["utf-8" := written.2]> decoders);
     onEnd := fun decoders =>
       let ended := decoderEnd "utf-8" (Encoders.heldBy decoders "utf-8") in
       (ended.1, <["utf-8" := ended.2]> decoders);
     reduce := Encoders.joinPieces;
     chunkedEncodings := ["utf-8"; "utf8"] |}.

(** The names of the native encodings, as the registry lists them. *)
Definition nativeEncodingNames : list string :=
  ["utf-8"; "utf8"; "ucs-2"; "ucs2"; "utf16le"; "latin1"; "ascii";
   "base64"; "base64url"; "hex"; "binary"].

(** The entries of the registry of encoders for ['utf-8'] and ['utf8']. *)
Definition utf8Encodings : gmap string BufferEncoder :=
  <["utf8" := Chunked utf8Decoder]> (<["utf-8" := Chunked utf8Decoder]> ∅).

(** [contentType.parse] on a header that is a media type alone,
    without parameters or surrounding space. *)
Definition parseTypeOnly (header : option string) : Result BodyParser.ParsedMediaType :=
  match header with
  | Some h =>
      Ok {| BodyParser.pm_type := Js.toLowerCase h; BodyParser.pm_parameters := ∅ |}
  | None => Throw (newError "content-type header is missing from object")
  end.

(** A request with the given method and headers. *)
Definition request (method : string) (headers : list (string * string))
  : BodyParser.Request :=
  {| BodyParser.method := method; BodyParser.headers := Some (list_to_map headers) |}.

(** The arguments of the engine for a JSON request of [length] bytes
    under [bodyParser.json()]. *)
Definition jsonArgs (contentEncoding : string) (length : Z) : BodyParser.EngineArgs :=
  {| BodyParser.parseConfiguration := jsonConfiguration;
     BodyParser.contentLength := Some (Num length);
     BodyParser.contentEncoding := contentEncoding;
     BodyParser.defaultEncoding_ := Some "utf-8";
     BodyParser.limit_ := Some (Num 20480);
     BodyParser.bufferEncoding := Some (Chunked utf8Decoder);
     BodyParser.bufferEncodingIsStreamDecoder := true |}.

(** The two bodies of the prototype-pollution scenario. *)
Definition poisonedBody : string :=
  Json.text "{'user':'tobi','__proto__':'poison'}".

Definition harmlessBody : string :=
  Json.text "{'user':'tobi','other':'uses __proto__ in a value'}".

(** A POST request for JSON with the given [Content-Length]. *)
Definition jsonPost (length : string) : BodyParser.Request :=
  request "POST" [("content-type", "application/json"); ("content-length", length)].

(** The same with a limit of [limit] bytes. *)
Definition limitedJsonArgs (limit length : Z) : BodyParser.EngineArgs :=
  {| BodyParser.parseConfiguration := jsonConfiguration;
     BodyParser.contentLength := Some (Num length);
     BodyParser.contentEncoding := "identity";
     BodyParser.defaultEncoding_ := Some "utf-8";
     BodyParser.limit_ := Some (Num limit);
     BodyParser.bufferEncoding := Some (Chunked utf8Decoder);
     BodyParser.bufferEncodingIsStreamDecoder := true |}.

(** The dispatcher of [bodyParser(undefined, ['application/json', 'text/plain'])]
    with the default options. *)
Definition defaultDispatcher : BodyParser.Request -> BodyParser.Dispatch :=
  BodyParser.mediaTypeParser parseTypeOnly [jsonConfiguration; textConfiguration]
    ["identity"] utf8Encodings nativeEncodingNames false None None.

(** The dispatcher of [bodyParser.json({inflate: ['gzip', 'deflate']})]. *)
Definition gzipJsonDispatcher : BodyParser.Request -> BodyParser.Dispatch :=
  BodyParser.mediaTypeParser parseTypeOnly [gzipJsonConfiguration] ["deflate"; "gzip"]
    utf8Encodings nativeEncodingNames false None None.

(** The parser of [bodyParser.raw()] with its default options. *)
Definition rawConfiguration : PatchedParser :=
  {| matcher := [MediaTypes.Template (Some "application", Some "octet-stream")];
     encodings := None;
     defaultEncoding := None;
     parser := None;
     emptyResponse := Some (VBuffer []);
     limit := Some (Num 20480);
     inflate := DecompressStream.InflateList ["identity"];
     requireContentLength := false;
     verify := None |}.

(** The arguments of the engine for a request under [bodyParser.raw()]
    with the given [Content-Length] and limit. *)
Definition rawArgs (length : option Z) (limit : Limit) : BodyParser.EngineArgs :=
  {| BodyParser.parseConfiguration := rawConfiguration;
     BodyParser.contentLength := Num <$> length;
     BodyParser.contentEncoding := "identity";
     BodyParser.defaultEncoding_ := None;
     BodyParser.limit_ := limit;
     BodyParser.bufferEncoding := None;
     BodyParser.bufferEncodingIsStreamDecoder := false |}.

(** A [verify] function that lets nothing pass. *)
Definition rejectAll : VerifyFn := fun _ _ _ => Throw (newError "not signed").

(** The arguments of the engine for a chunked text request of five
    bytes under [bodyParser({}, {matcher: 'text/plain', verify: rejectAll})]. *)
Definition verifiedTextArgs : BodyParser.EngineArgs :=
  {| BodyParser.parseConfiguration :=
       {| matcher := [MediaTypes.Template (Some "text", Some "plain")];
          encodings := Some AllEncodings;
          defaultEncoding := Some "utf-8";
          parser := None;
          emptyResponse := Some (VString "");
          limit := Some (Num 20480);
          inflate := DecompressStream.InflateList ["identity"];
          requireContentLength := false;
          verify := Some rejectAll |};
     BodyParser.contentLength := Some (Num 5);
     BodyParser.contentEncoding := "identity";
     BodyParser.defaultEncoding_ := Some "utf-8";
     BodyParser.limit_ := Some (Num 20480);
     BodyParser.bufferEncoding := Some (Chunked utf8Decoder);
     BodyParser.bufferEncodingIsStreamDecoder := true |}.

(** A configuration whose media type function throws. *)
Definition throwingConfiguration : PatchedParser :=
  {| matcher := [MediaTypes.Predicate (fun _ => Throw (newError "no media type expected"))];
     encodings := None;
     defaultEncoding := None;
     parser := None;
     emptyResponse := None;
     limit := None;
     inflate := DecompressStream.InflateList ["identity"];
     requireContentLength := false;
     verify := None |}.

(** The options object [{}]. *)
Definition noOptions : Middleware.DefaultOptions :=
  {| Middleware.o_defaultLimit := None; Middleware.o_inflate := None;
     Middleware.o_requireContentLength := None;
     Middleware.o_defaultContentType := None |}.

(** [bodyParser.json()] and [bodyParser.json({inflate: ['gzip', 'deflate']})],
    with the factories of [zlib] shown by their names. *)
Definition jsonMiddleware : Result (Middleware.GetBody string) :=
  Middleware.json noQuerystring string "createInflate" "createGunzip"
    "createBrotliDecompress" decoderWrite decoderEnd noOptions None None None.

Definition gzipJsonMiddleware : Result (Middleware.GetBody string) :=
  Middleware.json noQuerystring string "createInflate" "createGunzip"
    "createBrotliDecompress" decoderWrite decoderEnd
    {| Middleware.o_defaultLimit := None;
       Middleware.o_inflate := Some (InflateArray ["gzip"; "deflate"]);
       Middleware.o_requireContentLength := None;
       Middleware.o_defaultContentType := None |}
    None None None.

(** The calls of the callback for requests that a middleware serves
    one after the other, from its set-up on; the factories of the
    decompressors make their streams. *)
Definition served (middleware : Result (Middleware.GetBody string))
    (requests : list (BodyParser.Request * list BodyParser.StreamEvent))
  : list (list BodyParser.Invocation) :=
  match middleware with
  | Ok getBody =>
      Middleware.serve parseTypeOnly (fun _ => Ok ()) noStringify getBody ∅ requests
  | Throw _ => []
  end.

(** The JSON text [{"name":"é"}] up to the first of the two bytes of
    its [é]. *)
Definition cutBody : Buffer :=
  list_byte_of_string (Json.text "{'name':'") ++ [Byte.xc3].

(** *** Variants of a configuration *)

(** The configuration [p] with another value of [requireContentLength]. *)
Definition withRequireContentLength (b : bool) (p : PatchedParser) : PatchedParser :=
  {| matcher := matcher p;
     encodings := encodings p;
     defaultEncoding := defaultEncoding p;
     parser := parser p;
     emptyResponse := emptyResponse p;
     limit := limit p;
     inflate := inflate p;
     requireContentLength := b;
     verify := verify p |}.

(** The arguments of the engine with the configuration changed by [f]. *)
Definition withConfiguration (f : PatchedParser -> PatchedParser)
    (args : BodyParser.EngineArgs) : BodyParser.EngineArgs :=
  {| BodyParser.parseConfiguration := f (BodyParser.parseConfiguration args);
     BodyParser.contentLength := BodyParser.contentLength args;
     BodyParser.contentEncoding := BodyParser.contentEncoding args;
     BodyParser.defaultEncoding_ := BodyParser.defaultEncoding_ args;
     BodyParser.limit_ := BodyParser.limit_ args;
     BodyParser.bufferEncoding := BodyParser.bufferEncoding args;
     BodyParser.bufferEncodingIsStreamDecoder :=
       BodyParser.bufferEncodingIsStreamDecoder args |}.

(** The outcome of [readStream] with the configuration that is handed
    over changed by [f]. *)
Definition onConfiguration (f : PatchedParser -> PatchedParser)
    (outcome : BodyParser.Dispatch) : BodyParser.Dispatch :=
  match outcome with
  | BodyParser.Streaming args => BodyParser.Streaming (withConfiguration f args)
  | other => other
  end.

End Examples.

(** * Properties *)

Import MediaTypes BodyParser.

(** ** Agreement with the tests of the repository

    Cases of the test suite of [bufferEncoding.ts], evaluated on the
    embedding. *)

Example test_matchCharsetEncoding :
  matchCharsetEncoding None None ["utf8"; "utf-8"] None = true
  /\ matchCharsetEncoding (Some (EncodingList ["utf8"; "utf-8"])) None
       ["utf8"; "utf-8"] None = false
  /\ matchCharsetEncoding (Some AllEncodings) None ["utf8"; "utf-8"] None = false
  /\ matchCharsetEncoding None (Some "utf-8") ["utf8"; "utf-8"] None = false
  /\ matchCharsetEncoding (Some (EncodingList ["utf-8"])) None [] (Some "utf-8") = true
  /\ matchCharsetEncoding (Some AllEncodings) (Some "utf-8") ["ucs2"; "ucs-2"]
       (Some "ucs-2") = false
  /\ matchCharsetEncoding (Some AllEncodings) (Some "utf-8") ["utf8"; "utf-8"] None
     = true.
Proof. repeat split; reflexivity. Qed.

Example test_getEncodingVariations_overwrites :
  exists V,
    getEncodingVariations (Some [Examples.encoder ["utf-8"; "utf8"; "utf"]])
      = Ok (V, ["ucs-2"])
    /\ V !! "utf" = Some ["utf-8"; "utf8"; "utf"]
    /\ V !! "utf8" = Some ["utf-8"; "utf8"; "utf"]
    /\ V !! "utf-8" = Some ["utf-8"; "utf8"; "utf"]
    /\ V !! "ucs2" = Some ["ucs-2"; "ucs2"]
    /\ V !! "ucs-2" = Some ["ucs-2"; "ucs2"]
    /\ size V = 5%nat.
Proof. eexists. split; [reflexivity|]. repeat split; vm_compute; reflexivity. Qed.

Example test_getEncodingVariations_throws :
  getEncodingVariations
    (Some [Examples.encoder ["windows-1252"; "latin1"];
           Examples.encoder ["utf-8"; "latin1"]])
  = Throw (newError
      "Same encoding is supplied more than one time in BufferEncoding object.").
Proof. reflexivity. Qed.

Example test_normalizeEncodings :
  normalizeEncodings ["utf8"; "ucs-2"; "hex"] builtinVariations
    = ["utf-8"; "utf8"; "ucs-2"; "ucs2"; "hex"]
  /\ normalizeEncodings ["utf-8"; "ucs2"; "ucs-2"] builtinVariations
     = ["utf-8"; "utf8"; "ucs-2"; "ucs2"]
  /\ normalizeEncodings ["windows-1252"] builtinVariations = ["windows-1252"].
Proof. repeat split; vm_compute; reflexivity. Qed.

Example test_getEncodings :
  getEncodings (EncodingsBool true) (Some "utf-8") builtinVariations None
    = Ok {| es_defaultEncoding := Some "utf-8"; es_encodings := Some AllEncodings |}
  /\ getEncodings EncodingsUnset (Some "hex") builtinVariations None
     = Ok {| es_defaultEncoding := Some "hex";
             es_encodings := Some (EncodingList ["hex"]) |}
  /\ getEncodings EncodingsUnset None builtinVariations (Some "utf8")
     = Ok {| es_defaultEncoding := Some "utf8"; es_encodings := Some AllEncodings |}
  /\ getEncodings EncodingsNull None builtinVariations None
     = Ok {| es_defaultEncoding := None; es_encodings := None |}
  /\ getEncodings (EncodingsArray ["ucs2"; "hex"]) (Some "utf-8") builtinVariations None
     = Ok {| es_defaultEncoding := Some "utf-8";
             es_encodings :=
               Some (EncodingList ["utf-8"; "utf8"; "ucs-2"; "ucs2"; "hex"]) |}.
Proof. repeat split; vm_compute; reflexivity. Qed.

Example test_overwrites_default_limit :
  (fun r => match r with
            | Ok l => map limit l
            | Throw _ => []
            end)
    (joinParserConfigurations Examples.noQuerystring
       (Some (EntryArray
          [Configuration (Examples.withLimit "application/json" (LimitNumber (Num 1000)));
           Configuration (Examples.withLimit "application/x-www-form-urlencoded"
                            (LimitString "10kb"));
           Configuration (Examples.withLimit "text/plain" (LimitNumber PosInfinity));
           Configuration (Examples.configurationOf
                            (MatcherOne (IdString "application/octet-stream")))]))
       (LimitString "20kb") (InflateString "inflate") builtinVariations true)
  = [Some (Num 1000); Some (Num 10240); Some PosInfinity; Some (Num 20480)].
Proof. reflexivity. Qed.

(** ** Media type identifiers *)

(** C10. The identifier ['/'] passes the construction-time validation:
    it splits into two empty components, and the template it yields
    matches every media type, because an empty component is falsy and so
    is treated like the wildcard. *)
Theorem slash_identifier_matches_everything :
  Js.split "/"%char "/" = [""; ""]
  /\ getMediaTypeIdentifier "/" = Ok (Some "", Some "")
  /\ getMediaTypeMatchers [IdString "/"] = Ok [Template (Some "", Some "")]
  /\ (forall mediaType : MediaType, matchType (Some "", Some "") mediaType = true)
  /\ (forall mediaType : MediaType,
        matchAnyType [Template (Some "", Some "")] mediaType = Ok true).
Proof.
  repeat split; reflexivity.
Qed.

(** ** Joining the parser configurations *)
Section Joining.

Variable querystringParse : string -> JsNumber -> JsValue.

(** C4. Without parser configurations and with the default options of
    [bodyParser] (limit ['20kb'], inflate ['identity'], no required
    content length) the result has exactly four entries, in the order
    urlencoded, json, text, octet-stream, each with the limit of 20480
    bytes and its built-in empty value. *)
Theorem default_parser_configurations (V : gmap string (list string)) :
  joinParserConfigurations querystringParse None
    (LimitString "20kb") (InflateString "identity") V false =
  Ok [ {| matcher := [Template (Some "application", Some "x-www-form-urlencoded")];
          encodings := Some AllEncodings;
          defaultEncoding := Some "utf-8";
          parser := Some (defaultQuerystringParser querystringParse);
          emptyResponse := Some (VObject []);
          limit := Some (Num 20480);
          inflate := InflateList ["identity"];
          requireContentLength := false;
          verify := None |};
       {| matcher := [Template (Some "application", Some "json")];
          encodings := Some AllEncodings;
          defaultEncoding := Some "utf-8";
          parser := Some jsonParser;
          emptyResponse := Some (VObject []);
          limit := Some (Num 20480);
          inflate := InflateList ["identity"];
          requireContentLength := false;
          verify := None |};
       {| matcher := [Template (Some "text", Some "plain")];
          encodings := Some AllEncodings;
          defaultEncoding := Some "utf-8";
          parser := None;
          emptyResponse := Some (VString "");
          limit := Some (Num 20480);
          inflate := InflateList ["identity"];
          requireContentLength := false;
          verify := None |};
       {| matcher := [Template (Some "application", Some "octet-stream")];
          encodings := None;
          defaultEncoding := None;
          parser := None;
          emptyResponse := Some (VBuffer []);
          limit := Some (Num 20480);
          inflate := InflateList ["identity"];
          requireContentLength := false;
          verify := None |} ].
Proof. reflexivity. Qed.

(** C3, at the input where the sources depart from it.  An overlay of
    a default media type with the numeric limit [0] gets the default
    limit (the sources test the truthiness of [parser.limit]), whereas
    the same limit on an arbitrary matcher, or written ['0kb'] on the
    overlay, is kept as zero. *)
Theorem overlay_zero_limit_replaced_by_default (V : gmap string (list string)) :
  Examples.onlyLimit (joinParserConfigurations querystringParse
               (Some (OneEntry (Configuration
                  (Examples.withLimit "application/json" (LimitNumber (Num 0))))))
               (LimitString "20kb") (InflateString "identity") V false)
    = Some (Some (Num 20480))
  /\ Examples.onlyLimit (joinParserConfigurations querystringParse
                  (Some (OneEntry (Configuration
                     (Examples.withLimit "image/png" (LimitNumber (Num 0))))))
                  (LimitString "20kb") (InflateString "identity") V false)
       = Some (Some (Num 0))
  /\ Examples.onlyLimit (joinParserConfigurations querystringParse
                  (Some (OneEntry (Configuration
                     (Examples.withLimit "application/json" (LimitString "0kb")))))
                  (LimitString "20kb") (InflateString "identity") V false)
       = Some (Some (Num 0)).
Proof. repeat split; reflexivity. Qed.

(** The parts of C3 that hold: a string limit is converted with
    [bytes], and a truthy number, [Infinity] included, is kept. *)
Lemma toLimit_string s : toLimit (LimitString s) = Bytes.bytes s.
Proof. reflexivity. Qed.

Lemma toLimit_number n : toLimit (LimitNumber n) = Some n.
Proof. reflexivity. Qed.

Lemma infinite_limit_never_exceeded z : Number.gt (Num z) PosInfinity = false.
Proof. reflexivity. Qed.

Lemma lookupDefault_name name d :
  lookupDefault name = Some d -> name = mediaTypeName d.
Proof.
  unfold lookupDefault.
  repeat match goal with
         | |- context [String.eqb name ?s] =>
             destruct (String.eqb_spec name s) as [->|_];
             [intros [= <-]; reflexivity|]
         end.
  intros H; discriminate H.
Qed.

Lemma default_matchers_ok d :
  exists m, getMediaTypeMatchers [IdString (mediaTypeName d)] = Ok m.
Proof. destruct d; eexists; reflexivity. Qed.

Lemma mapM_Throw {A B} (f : A -> Result B) (l : list A) x e :
  x ∈ l -> f x = Throw e -> exists e', mapM f l = Throw e'.
Proof.
  induction l as [|a l IH]; intros Hin Hx.
  - inversion Hin.
  - apply elem_of_cons in Hin as [<-|Hin].
    + exists e. simpl. rewrite Hx. reflexivity.
    + destruct (IH Hin Hx) as [e' He'].
      change (mapM f (a :: l)) with (y ← f a; k ← mapM f l; mret (y :: k)).
      rewrite He'. destruct (f a) as [b|ea]; eexists; reflexivity.
Qed.

(** [getEncodings] on the contradictory combination, when no default
    encoding of a default media type is passed. *)
Lemma getEncodings_contradiction e d V third :
  truthy d = true ->
  e = EncodingsBool false \/ e = EncodingsNull ->
  truthy third = false ->
  getEncodings e d V third =
  Throw (newError
    "Parser Configuration Error: When defaultEncoding is set, encoding can not be false or null.").
Proof.
  intros Hd He Ht. unfold getEncodings, ownDefaultEncoding.
  rewrite Hd, Ht. destruct d as [d|]; [|discriminate Hd].
  destruct He as [-> | ->]; reflexivity.
Qed.


(** A matcher that is the name of a property inherited from
    [Object.prototype] selects the overlay branch, whose first step,
    [getMediaTypeMatchers], refuses the name: such an entry is rejected
    at construction time whatever its encodings are. *)
Lemma inherited_name_overlay_rejected (V : gmap string (list string)) :
  joinParserConfigurations querystringParse
    (Some (OneEntry (Configuration
       (Examples.withEncodings "constructor" (EncodingsBool false) "latin1"))))
    (LimitString "20kb") (InflateString "identity") V false
  = Throw (newError "Media type identifier 'constructor' is invalid.").
Proof. reflexivity. Qed.

(** The parser of the urlencoded default is [getQuerystringParser()],
    with its default of 1000 keys. *)
Lemma default_querystring_parser :
  getQuerystringParser querystringParse (Num 1000)
  = Ok (defaultQuerystringParser querystringParse).
Proof. reflexivity. Qed.

End Joining.

(** ** The dispatcher *)
Section DispatcherProperties.

Variable contentTypeParse : option string -> Result ParsedMediaType.
Variable parsers : list PatchedParser.
Variable availableDecompressorNames : list string.
Variable availableBufferEncodings : gmap string BufferEncoder.
Variable availableBufferEncodingNames : list string.
Variable requireContentLength : bool.
Variable defaultContentTypeEncoding : option string.
Variable defaultContentType : option MediaType.

Abbreviation dispatch :=
  (mediaTypeParser contentTypeParse parsers availableDecompressorNames
     availableBufferEncodings availableBufferEncodingNames requireContentLength
     defaultContentTypeEncoding defaultContentType).

Lemma matchContentEncoding_identity inflate names :
  matchContentEncoding "identity" inflate names = true.
Proof. reflexivity. Qed.

Lemma handOver_not_completed hs encoding p a :
  handOver availableBufferEncodings hs encoding p <> Completed a.
Proof.
  unfold handOver.
  destruct (orElse _ None) as [name|]; [|discriminate].
  destruct (availableBufferEncodings !! name); discriminate.
Qed.

Lemma find_first {A} (f : A -> bool) (l : list A) :
  (forall x, f x = true) -> List.find f l = head l.
Proof. intros Hf. destruct l as [|x l]; simpl; [|rewrite Hf]; reflexivity. Qed.

(** For the content encoding ['identity'] the selected configuration
    is the first charset-compatible one. *)
Lemma parseConfigurationOf_identity l :
  parseConfigurationOf availableDecompressorNames "identity" l = head l.
Proof. apply find_first. intros x. reflexivity. Qed.

Lemma identity_never_unsupported_encoding req hs e :
  headers req = Some hs ->
  contentEncodingOf hs = "identity" ->
  dispatch req = Completed (CbError e) ->
  HttpErrors.type e <> HttpErrors.PString "encoding.unsupported".
Proof.
  intros Hh Hce. unfold mediaTypeParser. rewrite Hh, Hce.
  repeat match goal with
         | |- (if ?b then _ else _) = _ -> _ => destruct b eqn:?
         | |- match ?x with _ => _ end = _ -> _ => destruct x eqn:?
         | |- Completed (CbError _) = Completed (CbError _) -> _ =>
             intros [= <-]; cbv; discriminate
         | |- Completed (CbBody _) = _ -> _ => discriminate
         | |- Thrown _ = _ -> _ => discriminate
         end.
  all: try (intros H; by apply handOver_not_completed in H).
  all: rewrite parseConfigurationOf_identity in *.
  all: destruct (allowedCharsetParsers _ _ _); simpl in *; discriminate.
Qed.

(** The engine receives the content encoding that the dispatcher
    computed. *)
Lemma dispatch_content_encoding req hs args :
  headers req = Some hs ->
  dispatch req = Streaming args ->
  contentEncoding args = contentEncodingOf hs.
Proof.
  intros Hh. unfold mediaTypeParser. rewrite Hh.
  repeat match goal with
         | |- (if ?b then _ else _) = _ -> _ => destruct b eqn:?
         | |- match ?x with _ => _ end = _ -> _ => destruct x eqn:?
         | |- Completed _ = _ -> _ => discriminate
         | |- Thrown _ = _ -> _ => discriminate
         end.
  unfold handOver.
  destruct (orElse _ None) as [name|]; [|by intros [= <-]].
  destruct (availableBufferEncodings !! name); [by intros [= <-]|discriminate].
Qed.

(** [parseInt] skips the white space of ECMAScript, here U+00A0. *)
Lemma parseInt_skips_no_break_space :
  Number.parseInt (Some (string_of_list_byte [Byte.xc2; Byte.xa0; Byte.x35])) = Num 5.
Proof. vm_compute. reflexivity. Qed.




(** The dispatcher hands over to the engine only when the bodiless
    check fails. *)
Lemma dispatch_streaming_not_bodiless req hs args :
  headers req = Some hs ->
  dispatch req = Streaming args ->
  bodiless req hs = false.
Proof.
  intros Hh. unfold mediaTypeParser. rewrite Hh.
  repeat match goal with
         | |- (if ?b then _ else _) = _ -> _ => destruct b eqn:?
         | |- match ?x with _ => _ end = _ -> _ => destruct x eqn:?
         | |- Completed _ = _ -> _ => discriminate
         | |- Thrown _ = _ -> _ => discriminate
         end; done.
Qed.

(** The bodiless short-circuit: a request that passes the stages
    before the bodiless check and that the check holds for completes
    with the empty value of the selected configuration, or with no
    value when no configuration accepts the content encoding. *)
Lemma dispatch_bodiless req hs pm mt allowed :
  headers req = Some hs ->
  (contentLengthOf hs = None -> requireContentLength = false) ->
  parsedMediaTypeOf contentTypeParse defaultContentType hs = Ok pm ->
  mediaTypeOf defaultContentType pm = Some mt ->
  allowedMediaTypeParsers parsers mt = Ok allowed ->
  allowed <> [] ->
  allowedCharsetParsers availableBufferEncodingNames allowed
    (encodingOf defaultContentTypeEncoding pm) <> [] ->
  bodiless req hs = true ->
  dispatch req =
  Completed (CbBody (default VUndefined
    (parseConfigurationOf availableDecompressorNames (contentEncodingOf hs)
       (allowedCharsetParsers availableBufferEncodingNames allowed
          (encodingOf defaultContentTypeEncoding pm))
     ≫= emptyResponse))).
Proof.
  intros Hh Hreq Hpm Hmt Hal Hne Hcs Hb. unfold mediaTypeParser.
  rewrite Hh, Hpm, Hmt, Hal, Hb.
  assert (bool_decide (contentLengthOf hs = None) && requireContentLength = false) as ->.
  { case_bool_decide; [by rewrite Hreq|done]. }
  assert (Nat.eqb (length allowed) 0 = false) as -> by (by destruct allowed).
  assert (Nat.eqb (length (allowedCharsetParsers availableBufferEncodingNames allowed
                             (encodingOf defaultContentTypeEncoding pm))) 0 = false)
    as -> by (by destruct (allowedCharsetParsers _ _ _)).
  reflexivity.
Qed.

End DispatcherProperties.

(** ** The streaming engine *)

Arguments Number.gt : simpl never.

Section EngineProperties.

Variable jsonStringify : JsValue -> option string.
Variable availableDecompressors : gmap string (Result unit).
Variable availableDecompressorNames : list string.
Variable args : EngineArgs.
Variable heldDecoders : Decoders.

Abbreviation start :=
  (rawBodyParser availableDecompressors availableDecompressorNames args heldDecoders).
Abbreviation step := (handle jsonStringify args).
Abbreviation engine :=
  (run jsonStringify availableDecompressors availableDecompressorNames args
     heldDecoders).

Lemma run_app pre suf : engine (pre ++ suf) = foldl step (engine pre) suf.
Proof. unfold run. apply foldl_app. Qed.

(** Without listeners the events change nothing. *)
Lemma deaf_engine s evs : listening s = false -> foldl step s evs = s.
Proof.
  intros Hl. induction evs as [|ev evs IH]; [reflexivity|].
  simpl. unfold handle at 2. rewrite Hl. exact IH.
Qed.

(** Once [complete] is set, the events leave the counter and the
    calls of the callback as they are. *)
Lemma handle_complete s ev :
  complete s = true ->
  complete (step s ev) = true
  /\ received (step s ev) = received s
  /\ calls (step s ev) = calls s.
Proof.
  intros Hc. unfold handle.
  destruct (listening s); [|done].
  destruct ev; unfold onAborted, onData, onEnd, cleanup; rewrite ?Hc; done.
Qed.

Lemma run_complete s evs :
  complete s = true ->
  complete (foldl step s evs) = true
  /\ received (foldl step s evs) = received s
  /\ calls (foldl step s evs) = calls s.
Proof.
  revert s. induction evs as [|ev evs IH]; intros s Hc; [done|].
  simpl. destruct (handle_complete s ev Hc) as (Hc' & Hr & Hk).
  destruct (IH _ Hc') as (? & ? & ?). repeat split; congruence.
Qed.

(** When the content encoding is ['identity'] and that name is not
    among the available decompressor names, the engine attaches no
    listener and schedules one call of the callback, with the error
    that [decompressStream] threw wrapped by [createError]: its type
    stays ['unsupported.content.encoding']. *)
Lemma identity_refused evs :
  contentEncoding args = "identity" ->
  Js.includes availableDecompressorNames "identity" = false ->
  calls (engine evs) =
    [{| deferred := true;
        arg := CbError (HttpErrors.createError 415
                 "Decompression failed: server does not allow uncompressed requests."
                 [("contentEncoding", HttpErrors.PString "identity");
                  ("type", HttpErrors.PString "unsupported.content.encoding")]) |}].
Proof.
  intros Hce Hnames. unfold run.
  assert (Hstart : start = done (initial heldDecoders)
            (CbError (HttpErrors.createError 415
               "Decompression failed: server does not allow uncompressed requests."
               [("contentEncoding", HttpErrors.PString "identity");
                ("type", HttpErrors.PString "unsupported.content.encoding")]))).
  { unfold rawBodyParser, decompressStream. rewrite Hce, Hnames. reflexivity. }
  rewrite Hstart, deaf_engine; reflexivity.
Qed.

(** A run of data events that stays within the limit: the chunks are
    counted and stored, decoded when the decoding is chunked, and the
    callback is not called. *)
Lemma run_data_within_limit (lim : Z) (cs : list Buffer) : forall s,
  limit_ args = Some (Num lim) ->
  verify (parseConfiguration args) = None ->
  listening s = true ->
  complete s = false ->
  received s + Z.of_nat (length (concat cs)) <= lim ->
  foldl step s (map Data cs) =
  {| complete := false; sync := sync s;
     received := received s + Z.of_nat (length (concat cs));
     chunks := chunks s ++ (pushChunks (streamDecoder args) (decoders s) cs).1;
     verifyBuffer := verifyBuffer s; listening := true;
     halted := halted s; calls := calls s;
     decoders := (pushChunks (streamDecoder args) (decoders s) cs).2 |}.
Proof.
  induction cs as [|c cs IH]; intros s Hlim Hver Hl Hc Hle.
  - destruct s; simpl in *. subst. rewrite Z.add_0_r, app_nil_r. reflexivity.
  - simpl in Hle. rewrite length_app, Nat2Z.inj_add in Hle.
    assert (Hnn : 0 <= Z.of_nat (length (concat cs))) by lia.
    simpl. unfold handle at 2. rewrite Hl. unfold onData. rewrite Hc, Hlim, Hver.
    assert (Hgt : Number.gt (Num (received s + Z.of_nat (length c))) (Num lim) = false).
    { unfold Number.gt. apply Z.ltb_ge. lia. }
    rewrite Hgt. simpl. rewrite IH; simpl; try done; [|lia].
    rewrite length_app, Nat2Z.inj_add, Z.add_assoc, <- app_assoc. reflexivity.
Qed.

(** The events do not change [sync] and attach no listener. *)
Lemma handle_sync s ev :
  (listening s = true -> sync s = false) ->
  listening (step s ev) = true -> sync (step s ev) = false.
Proof.
  intros Hsync. unfold handle. destruct (listening s) eqn:Hl; [|congruence].
  specialize (Hsync eq_refl).
  destruct ev; unfold onAborted, onData, onEnd, cleanup;
    repeat match goal with
           | |- context [if ?b then _ else _] => destruct b
           | |- context [match ?x with _ => _ end] => destruct x
           end; simpl; auto.
Qed.

(** What holds of the engine between two events, for a limit [lim]
    that is not negative: no call is made before [complete] is set;
    with listeners attached the calls are made on the spot; and a
    counter above the limit means that the only call so far is the
    one with the 413 error for that counter. *)
Lemma limit_invariant lim s ev :
  limit_ args = Some lim ->
  (complete s = false -> calls s = []) ->
  (listening s = true -> sync s = false) ->
  (Number.gt (Num (received s)) lim = true ->
     complete s = true
     /\ calls s = [{| deferred := false;
                      arg := CbError (entityTooLarge (Some lim) (received s)) |}]) ->
  (complete (step s ev) = false -> calls (step s ev) = [])
  /\ (listening (step s ev) = true -> sync (step s ev) = false)
  /\ (Number.gt (Num (received (step s ev))) lim = true ->
        complete (step s ev) = true
        /\ calls (step s ev) =
             [{| deferred := false;
                 arg := CbError (entityTooLarge (Some lim) (received (step s ev))) |}]).
Proof.
  intros Hlim Hcalls Hsync Hover.
  split; [|split; [by apply handle_sync|]].
  - destruct (complete s) eqn:Hc.
    + destruct (handle_complete s ev Hc) as (Hc' & _). congruence.
    + specialize (Hcalls eq_refl).
      unfold handle. destruct (listening s); [|auto].
      destruct ev; unfold onAborted, onData, onEnd, cleanup; rewrite Hc;
        try (simpl; auto; discriminate).
      * rewrite Hlim.
        destruct (Number.gt (Num (received s + Z.of_nat (length chunk))) lim);
          simpl; [discriminate|auto].
      * repeat match goal with
               | |- context [if ?b then _ else _] => destruct b
               | |- context [match ?x with _ => _ end] => destruct x
               end; simpl; discriminate.
      * repeat match goal with
               | |- context [if ?b then _ else _] => destruct b
               | |- context [match ?x with _ => _ end] => destruct x
               end; simpl; discriminate.
  - destruct (complete s) eqn:Hc.
    + destruct (handle_complete s ev Hc) as (Hc' & Hr & Hk).
      rewrite Hc', Hr, Hk. intros Hg. split; [done|]. by apply Hover.
    + specialize (Hcalls eq_refl).
      assert (Hle : Number.gt (Num (received s)) lim = false).
      { destruct (Number.gt (Num (received s)) lim) eqn:Hg; [|done].
        by destruct (Hover eq_refl) as [? _]. }
      unfold handle. destruct (listening s) eqn:Hl; [|by rewrite Hle].
      specialize (Hsync eq_refl).
      destruct ev.
      * unfold onAborted. rewrite Hc. simpl. by rewrite Hle.
      * unfold onData. rewrite Hc, Hlim. simpl.
        destruct (Number.gt (Num (received s + Z.of_nat (length chunk))) lim) eqn:Hg;
          simpl; rewrite ?Hg; [|done].
        intros _. by rewrite Hcalls, Hsync.
      * unfold onEnd. rewrite Hc.
        repeat match goal with
               | |- context [if ?b then _ else _] => destruct b
               | |- context [match ?x with _ => _ end] => destruct x
               end; simpl; by rewrite Hle.
      * unfold onEnd. rewrite Hc.
        repeat match goal with
               | |- context [if ?b then _ else _] => destruct b
               | |- context [match ?x with _ => _ end] => destruct x
               end; simpl; by rewrite Hle.
      * unfold cleanup. simpl. by rewrite Hle.
Qed.

Lemma limit_invariant_run lim evs : forall s,
  limit_ args = Some lim ->
  (complete s = false -> calls s = []) ->
  (listening s = true -> sync s = false) ->
  (Number.gt (Num (received s)) lim = true ->
     complete s = true
     /\ calls s = [{| deferred := false;
                      arg := CbError (entityTooLarge (Some lim) (received s)) |}]) ->
  Number.gt (Num (received (foldl step s evs))) lim = true ->
  complete (foldl step s evs) = true
  /\ calls (foldl step s evs) =
       [{| deferred := false;
           arg := CbError (entityTooLarge (Some lim) (received (foldl step s evs))) |}].
Proof.
  induction evs as [|ev evs IH]; intros s Hlim H1 H2 H3; [exact H3|].
  simpl. destruct (limit_invariant lim s ev Hlim H1 H2 H3) as (H1' & H2' & H3').
  by apply IH.
Qed.

Lemma gt_monotone (a b : Z) (lim : JsNumber) :
  a <= b -> Number.gt (Num b) lim = false -> Number.gt (Num a) lim = false.
Proof.
  unfold Number.gt. destruct lim; try done.
  rewrite !Z.ltb_ge. lia.
Qed.

(** A run of data events that stays within the limit, if there is
    one: the chunks are counted and stored, decoded when the decoding
    is chunked, the raw chunks are kept for [verify] in that case, and
    the callback is not called. *)
Lemma run_data (cs : list Buffer) : forall s,
  listening s = true -> complete s = false ->
  (forall lim, limit_ args = Some lim ->
     Number.gt (Num (received s + Z.of_nat (length (concat cs)))) lim = false) ->
  foldl step s (map Data cs) =
  {| complete := false; sync := sync s;
     received := received s + Z.of_nat (length (concat cs));
     chunks := chunks s ++ (pushChunks (streamDecoder args) (decoders s) cs).1;
     verifyBuffer :=
       if bool_decide (is_Some (verify (parseConfiguration args)))
          && bufferEncodingIsStreamDecoder args
       then verifyBuffer s ++ cs else verifyBuffer s;
     listening := true; halted := halted s; calls := calls s;
     decoders := (pushChunks (streamDecoder args) (decoders s) cs).2 |}.
Proof.
  induction cs as [|c cs IH]; intros s Hl Hc Hle.
  - destruct s; simpl in *. subst. rewrite Z.add_0_r, !app_nil_r.
    by destruct (_ && _).
  - assert (Hsize : Z.of_nat (length (concat (c :: cs)))
                    = Z.of_nat (length c) + Z.of_nat (length (concat cs))).
    { simpl. by rewrite length_app, Nat2Z.inj_add. }
    rewrite Hsize in *.
    simpl foldl. simpl map. simpl foldl. unfold handle at 2. rewrite Hl.
    unfold onData. rewrite Hc.
    assert (Hstep : match limit_ args with
                    | Some limit =>
                        if Number.gt (Num (received s + Z.of_nat (length c))) limit
                        then true else false
                    | None => false
                    end = false).
    { destruct (limit_ args) as [lim|] eqn:Hlim; [|done].
      rewrite (gt_monotone _ (received s + (Z.of_nat (length c)
                                            + Z.of_nat (length (concat cs)))) lim);
        [done|lia|by apply Hle]. }
    destruct (limit_ args) as [lim|] eqn:Hlim.
    + destruct (Number.gt _ lim); [discriminate Hstep|].
      simpl. rewrite IH; simpl; try done.
      * rewrite Z.add_assoc, <- app_assoc. simpl.
        destruct (_ && _); [by rewrite <- app_assoc|done].
      * intros lim' Hlim'. rewrite Z.add_assoc in Hle. by apply Hle.
    + simpl. rewrite IH; simpl; try done.
      rewrite Z.add_assoc, <- app_assoc. simpl.
      destruct (_ && _); [by rewrite <- app_assoc|done].
Qed.

(** The same from the start of an engine whose stream could be set up. *)
Lemma run_data_start (cs : list Buffer) :
  decompressStream availableDecompressors availableDecompressorNames args = Ok () ->
  (forall lim, limit_ args = Some lim ->
     Number.gt (Num (Z.of_nat (length (concat cs)))) lim = false) ->
  engine (map Data cs) =
  {| complete := false; sync := false;
     received := Z.of_nat (length (concat cs));
     chunks := (pushChunks (streamDecoder args) heldDecoders cs).1;
     verifyBuffer :=
       if bool_decide (is_Some (verify (parseConfiguration args)))
          && bufferEncodingIsStreamDecoder args
       then cs else [];
     listening := true; halted := false; calls := [];
     decoders := (pushChunks (streamDecoder args) heldDecoders cs).2 |}.
Proof.
  intros Hstart Hle. unfold run, rawBodyParser. rewrite Hstart.
  rewrite run_data; simpl; try done.
Qed.

(** The chunk with which a run of chunks goes over the limit: the
    chunks before it are within the limit, with it they are not. *)
Lemma first_chunk_over (lim : JsNumber) (cs : list Buffer) :
  Number.gt (Num 0) lim = false ->
  Number.gt (Num (Z.of_nat (length (concat cs)))) lim = true ->
  exists pre c post,
    cs = pre ++ c :: post
    /\ Number.gt (Num (Z.of_nat (length (concat pre)))) lim = false
    /\ Number.gt (Num (Z.of_nat (length (concat (pre ++ [c]))))) lim = true.
Proof.
  intros H0. induction cs as [|x cs IH] using rev_ind; intros Hover.
  - change (Number.gt (Num 0) lim = true) in Hover. congruence.
  - destruct (Number.gt (Num (Z.of_nat (length (concat cs)))) lim) eqn:Hcs.
    + destruct (IH eq_refl) as (pre & c & post & -> & Hpre & Hc).
      exists pre, c, (post ++ [x]). by rewrite <- app_assoc.
    + exists cs, x, []. done.
Qed.

(** C2. With a configured limit [lim] (a byte count, so not negative)
    and a stream that the engine listens to: if the bytes of the data
    events [cs] add up to more than the limit, the callback is called
    exactly once in the whole run, whatever events follow, on the
    spot, with the 413 error of type ['entity.too.large'] that carries
    the limit and the number of bytes received up to the chunk [c]
    with which the limit was first exceeded; in particular the
    callback is never called with a parsed body. *)
Theorem limit_exceeded_yields_413 (lim : JsNumber) (cs : list Buffer)
    (suf : list StreamEvent) :
  decompressStream availableDecompressors availableDecompressorNames args = Ok () ->
  limit_ args = Some lim ->
  Number.gt (Num 0) lim = false ->
  Number.gt (Num (Z.of_nat (length (concat cs)))) lim = true ->
  exists (pre : list Buffer) (c : Buffer) (post : list Buffer) (r : Z),
    cs = pre ++ c :: post
    /\ r = Z.of_nat (length (concat (pre ++ [c])))
    /\ Number.gt (Num (Z.of_nat (length (concat pre)))) lim = false
    /\ Number.gt (Num r) lim = true
    /\ calls (engine (map Data cs ++ suf)) =
         [{| deferred := false; arg := CbError (entityTooLarge (Some lim) r) |}]
    /\ HttpErrors.status (entityTooLarge (Some lim) r) = 413
    /\ HttpErrors.type (entityTooLarge (Some lim) r)
         = HttpErrors.PString "entity.too.large"
    /\ HttpErrors.getProp (HttpErrors.props (entityTooLarge (Some lim) r)) "limit"
         = HttpErrors.PNumber lim
    /\ HttpErrors.getProp (HttpErrors.props (entityTooLarge (Some lim) r)) "received"
         = HttpErrors.PNumber (Num r)
    /\ forall inv body,
         inv ∈ calls (engine (map Data cs ++ suf)) -> arg inv <> CbBody body.
Proof.
  intros Hstart Hlim Hpos Hover.
  destruct (first_chunk_over lim cs Hpos Hover) as (pre & c & post & -> & Hpre & Hc).
  exists pre, c, post, (Z.of_nat (length (concat (pre ++ [c])))).
  assert (Hall : calls (engine (map Data (pre ++ c :: post) ++ suf)) =
                 [{| deferred := false;
                     arg := CbError (entityTooLarge (Some lim)
                              (Z.of_nat (length (concat (pre ++ [c]))))) |}]).
  { rewrite map_app, <- app_assoc. simpl. rewrite run_app.
    rewrite run_data_start; [|exact Hstart|].
    2: { intros lim' Hlim'. congruence. }
    set (s0 := {| complete := false |}).
    assert (Hstep : complete (step s0 (Data c)) = true
                    /\ calls (step s0 (Data c)) =
                         [{| deferred := false;
                             arg := CbError (entityTooLarge (Some lim)
                                      (Z.of_nat (length (concat (pre ++ [c]))))) |}]).
    { unfold handle, onData. simpl. rewrite Hlim.
      rewrite concat_app, length_app, Nat2Z.inj_add in Hc. simpl in Hc.
      rewrite app_nil_r in Hc. rewrite Hc. simpl.
      rewrite concat_app, length_app, Nat2Z.inj_add. simpl.
      by rewrite app_nil_r. }
    destruct Hstep as [Hcomplete Hcalls]. simpl foldl.
    destruct (run_complete (step s0 (Data c)) (map Data post ++ suf) Hcomplete)
      as (_ & _ & ->).
    exact Hcalls. }
  repeat split; try done.
  intros inv body Hin. rewrite Hall in Hin.
  apply list_elem_of_singleton in Hin as ->. discriminate.
Qed.

End EngineProperties.

(** ** Bodiless requests, content length and identity encoding *)
Section DispatcherClaims.

Variable contentTypeParse : option string -> Result ParsedMediaType.
Variable parsers : list PatchedParser.
Variable availableDecompressorNames : list string.
Variable availableBufferEncodings : gmap string BufferEncoder.
Variable availableBufferEncodingNames : list string.
Variable requireContentLength : bool.
Variable defaultContentTypeEncoding : option string.
Variable defaultContentType : option MediaType.

Abbreviation dispatch :=
  (mediaTypeParser contentTypeParse parsers availableDecompressorNames
     availableBufferEncodings availableBufferEncodingNames requireContentLength
     defaultContentTypeEncoding defaultContentType).

(** The requests of C1 are those for which the bodiless check holds. *)
Lemma bodiless_condition req hs :
  method req = "GET" \/ method req = "DELETE"
  \/ (hs !! "content-length" = None /\ hs !! "transfer-encoding" = None) ->
  bodiless req hs = true.
Proof.
  unfold bodiless. intros [-> | [-> | [Hcl Hte]]].
  - apply orb_true_r.
  - apply orb_true_r.
  - unfold contentLengthOf. by rewrite Hcl, Hte.
Qed.

(** C1, amended.  For a request whose method is GET or DELETE, or
    whose headers carry neither [content-length] nor
    [transfer-encoding], the dispatcher never starts the streaming
    engine, which is the only place where the configured parser is
    called.  If the request passes the checks that come before the
    bodiless check, it completes with the empty value of the selected
    configuration, or with no value when no configuration accepts the
    content encoding; a GET or DELETE request whose content type
    cannot be parsed completes with no value.  A media type or a
    charset that no configuration supports is reported with its 415
    error for these requests as for the others. *)
Theorem bodiless_requests_skip_the_parser (req : Request) (hs : gmap string string) :
  headers req = Some hs ->
  method req = "GET" \/ method req = "DELETE"
  \/ (hs !! "content-length" = None /\ hs !! "transfer-encoding" = None) ->
  (forall args, dispatch req <> Streaming args)
  /\ (forall pm mt allowed,
        (contentLengthOf hs = None -> requireContentLength = false) ->
        parsedMediaTypeOf contentTypeParse defaultContentType hs = Ok pm ->
        mediaTypeOf defaultContentType pm = Some mt ->
        allowedMediaTypeParsers parsers mt = Ok allowed ->
        allowed <> [] ->
        allowedCharsetParsers availableBufferEncodingNames allowed
          (encodingOf defaultContentTypeEncoding pm) <> [] ->
        dispatch req =
        Completed (CbBody (default VUndefined
          (parseConfigurationOf availableDecompressorNames (contentEncodingOf hs)
             (allowedCharsetParsers availableBufferEncodingNames allowed
                (encodingOf defaultContentTypeEncoding pm))
           ≫= emptyResponse))))
  /\ (forall e,
        method req = "GET" \/ method req = "DELETE" ->
        (contentLengthOf hs = None -> requireContentLength = false) ->
        parsedMediaTypeOf contentTypeParse defaultContentType hs = Throw e ->
        dispatch req = Completed (CbBody VUndefined))
  /\ (forall pm mt,
        (contentLengthOf hs = None -> requireContentLength = false) ->
        parsedMediaTypeOf contentTypeParse defaultContentType hs = Ok pm ->
        mediaTypeOf defaultContentType pm = Some mt ->
        allowedMediaTypeParsers parsers mt = Ok [] ->
        dispatch req =
        Completed (CbError (HttpErrors.createError 415 "Unsupported Media Type"
          [("mediaType", HttpErrors.PStrings mt);
           ("type", HttpErrors.PString "mediaType.unsupported")])))
  /\ (forall pm mt allowed,
        (contentLengthOf hs = None -> requireContentLength = false) ->
        parsedMediaTypeOf contentTypeParse defaultContentType hs = Ok pm ->
        mediaTypeOf defaultContentType pm = Some mt ->
        allowedMediaTypeParsers parsers mt = Ok allowed ->
        allowed <> [] ->
        allowedCharsetParsers availableBufferEncodingNames allowed
          (encodingOf defaultContentTypeEncoding pm) = [] ->
        exists e,
          dispatch req = Completed (CbError e)
          /\ HttpErrors.status e = 415
          /\ HttpErrors.type e = HttpErrors.PString "charset.unsupported").
Proof.
  intros Hh Hcond. pose proof (bodiless_condition req hs Hcond) as Hb.
  split; [|split; [|split; [|split]]].
  - intros args Hs.
    pose proof (dispatch_streaming_not_bodiless _ _ _ _ _ _ _ _ req hs args Hh Hs).
    congruence.
  - intros pm mt allowed Hreq Hpm Hmt Hal Hne Hcs.
    by apply (dispatch_bodiless _ _ _ _ _ _ _ _ req hs pm mt allowed).
  - intros e Hm Hreq Hpm. unfold mediaTypeParser. rewrite Hh, Hpm.
    assert (bool_decide (contentLengthOf hs = None) && requireContentLength = false) as ->.
    { case_bool_decide; [by rewrite Hreq|done]. }
    by destruct Hm as [-> | ->].
  - intros pm mt Hreq Hpm Hmt Hal. unfold mediaTypeParser. rewrite Hh, Hpm, Hmt, Hal.
    assert (bool_decide (contentLengthOf hs = None) && requireContentLength = false) as ->.
    { case_bool_decide; [by rewrite Hreq|done]. }
    reflexivity.
  - intros pm mt allowed Hreq Hpm Hmt Hal Hne Hcs. unfold mediaTypeParser.
    rewrite Hh, Hpm, Hmt, Hal, Hcs.
    assert (bool_decide (contentLengthOf hs = None) && requireContentLength = false) as ->.
    { case_bool_decide; [by rewrite Hreq|done]. }
    assert (Nat.eqb (length allowed) 0 = false) as -> by (by destruct allowed).
    simpl. destruct (negb _); [|destruct (Js.includes _ _)]; eexists; repeat split.
Qed.


(** C8, amended.  For a request whose content encoding is
    ['identity'], [matchContentEncoding] is true whatever the [inflate]
    setting and the available names are, and the dispatcher never
    answers with an error of type ['encoding.unsupported'].  When the
    dispatcher hands such a request over and ['identity'] is not among
    the available decompressor names, the engine calls the callback
    once, on the next tick, with a 415 error whose message starts with
    ['Decompression failed'] and whose type is the one that
    [decompressStream] set, ['unsupported.content.encoding']. *)
Theorem identity_encoding_is_refused_by_the_engine
    (req : Request) (hs : gmap string string) :
  headers req = Some hs ->
  contentEncodingOf hs = "identity" ->
  (forall inflate names,
      matchContentEncoding (contentEncodingOf hs) inflate names = true)
  /\ (forall e, dispatch req = Completed (CbError e) ->
         HttpErrors.type e <> HttpErrors.PString "encoding.unsupported")
  /\ (forall args jsonStringify availableDecompressors heldDecoders evs,
         dispatch req = Streaming args ->
         Js.includes availableDecompressorNames "identity" = false ->
         calls (run jsonStringify availableDecompressors availableDecompressorNames
                  args heldDecoders evs) =
         [{| deferred := true;
             arg := CbError (HttpErrors.createError 415
                      "Decompression failed: server does not allow uncompressed requests."
                      [("contentEncoding", HttpErrors.PString "identity");
                       ("type", HttpErrors.PString "unsupported.content.encoding")]) |}]).
Proof.
  intros Hh Hce. split; [|split].
  - intros inflate names. rewrite Hce. reflexivity.
  - intros e. by apply identity_never_unsupported_encoding with (hs := hs).
  - intros args jsonStringify availableDecompressors heldDecoders evs Hs Hnames.
    apply identity_refused; [|exact Hnames].
    rewrite <- Hce. by eapply dispatch_content_encoding.
Qed.

End DispatcherClaims.

(** ** The claims at concrete requests *)

(** C1 at a GET request with a media type that no default configuration
    matches: the dispatcher answers with the 415 error and not with an
    empty value. *)
Lemma get_with_unsupported_media_type :
  let req := Examples.request "GET" [("content-type", "text/html")] in
  method req = "GET"
  /\ Examples.defaultDispatcher req =
     Completed (CbError (HttpErrors.createError 415 "Unsupported Media Type"
       [("mediaType", HttpErrors.PStrings ["text"; "html"]);
        ("type", HttpErrors.PString "mediaType.unsupported")]))
  /\ forall body, Examples.defaultDispatcher req <> Completed (CbBody body).
Proof.
  split; [reflexivity|].
  assert (H : Examples.defaultDispatcher
                (Examples.request "GET" [("content-type", "text/html")]) =
              Completed (CbError (HttpErrors.createError 415 "Unsupported Media Type"
                [("mediaType", HttpErrors.PStrings ["text"; "html"]);
                 ("type", HttpErrors.PString "mediaType.unsupported")])))
    by (vm_compute; reflexivity).
  split; [exact H|].
  intros body. cbv zeta. rewrite H. discriminate.
Qed.


(** C1, amended, at a GET request for JSON with a content encoding that
    is not available: no hand-over, and no value. *)
Lemma bodiless_requests_skip_the_parser_witness :
  let req := Examples.request "GET"
               [("content-type", "application/json"); ("content-encoding", "br")] in
  (forall args, Examples.defaultDispatcher req <> Streaming args)
  /\ Examples.defaultDispatcher req = Completed (CbBody VUndefined).
Proof.
  destruct (bodiless_requests_skip_the_parser Examples.parseTypeOnly
              [Examples.jsonConfiguration; Examples.textConfiguration]
              ["identity"] Examples.utf8Encodings
              Examples.nativeEncodingNames false None None
              (Examples.request "GET"
                 [("content-type", "application/json"); ("content-encoding", "br")])
              (list_to_map
                 [("content-type", "application/json"); ("content-encoding", "br")])
              eq_refl (or_introl eq_refl)) as (H1 & H2 & _).
  split; [exact H1|].
  unfold Examples.defaultDispatcher.
  rewrite (H2 (Some {| pm_type := "application/json"; pm_parameters := ∅ |})
              ["application"; "json"] [Examples.jsonConfiguration]).
  - vm_compute. reflexivity.
  - reflexivity.
  - vm_compute. reflexivity.
  - reflexivity.
  - reflexivity.
  - discriminate.
  - intros H. apply (f_equal length) in H. vm_compute in H. discriminate H.
Defined.


(** C8 at an identity-encoded JSON request under
    [inflate: ['gzip', 'deflate']]: the dispatcher hands the request
    over, and the error that the engine reports has the type
    ['unsupported.content.encoding'], not ['decompression.failed']. *)
Lemma identity_refusal_keeps_its_type :
  let req := Examples.request "POST"
               [("content-type", "application/json");
                ("content-encoding", "identity"); ("content-length", "14")] in
  exists args e,
    Examples.gzipJsonDispatcher req = Streaming args
    /\ calls (run Examples.noStringify ∅ ["deflate"; "gzip"] args ∅ [])
       = [{| deferred := true; arg := CbError e |}]
    /\ HttpErrors.status e = 415
    /\ HttpErrors.type e = HttpErrors.PString "unsupported.content.encoding"
    /\ HttpErrors.type e <> HttpErrors.PString "decompression.failed".
Proof.
  eexists. eexists. split; [reflexivity|].
  split; [reflexivity|].
  split; [reflexivity|]. split; [reflexivity|]. discriminate.
Qed.

(** C8, amended, at the same request. *)
Lemma identity_encoding_is_refused_by_the_engine_witness :
  let req := Examples.request "POST"
               [("content-type", "application/json");
                ("content-encoding", "identity"); ("content-length", "14")] in
  exists args,
    Examples.gzipJsonDispatcher req = Streaming args
    /\ calls (run Examples.noStringify ∅ ["deflate"; "gzip"] args ∅
               [Data (list_byte_of_string "{}"); End_; Close]) =
       [{| deferred := true;
           arg := CbError (HttpErrors.createError 415
                    "Decompression failed: server does not allow uncompressed requests."
                    [("contentEncoding", HttpErrors.PString "identity");
                     ("type", HttpErrors.PString "unsupported.content.encoding")]) |}].
Proof.
  intros req. eexists. split; [reflexivity|].
  destruct (identity_encoding_is_refused_by_the_engine Examples.parseTypeOnly
              [Examples.gzipJsonConfiguration] ["deflate"; "gzip"]
              Examples.utf8Encodings Examples.nativeEncodingNames false None None
              req
              (list_to_map
                 [("content-type", "application/json");
                  ("content-encoding", "identity"); ("content-length", "14")])
              eq_refl) as (_ & _ & H).
  - vm_compute. reflexivity.
  - apply H; [reflexivity|]. vm_compute. reflexivity.
Defined.

(** C2 for a limit of four bytes and a body of nine bytes that arrives
    in chunks of three: the limit is exceeded with the second chunk,
    at six bytes. *)
Lemma limit_exceeded_yields_413_witness :
  calls (run Examples.noStringify ∅ ["identity"] (Examples.limitedJsonArgs 4 9) ∅
           (map Data [list_byte_of_string "{'a"; list_byte_of_string "':1";
                      list_byte_of_string "23}"]
            ++ [End_; Close])) =
  [{| deferred := false; arg := CbError (entityTooLarge (Some (Num 4)) 6) |}].
Proof.
  destruct (limit_exceeded_yields_413 Examples.noStringify ∅ ["identity"]
              (Examples.limitedJsonArgs 4 9) ∅ (Num 4)
              [list_byte_of_string "{'a"; list_byte_of_string "':1";
               list_byte_of_string "23}"]
              [End_; Close])
    as (pre & c & post & r & Hcs & Hr & Hpre & Hover & Hcalls & _).
  - reflexivity.
  - reflexivity.
  - reflexivity.
  - vm_compute. reflexivity.
  - rewrite Hcalls. subst r. do 3 f_equal.
    destruct pre as [|p1 [|p2 pre]].
    + injection Hcs as <- <-. vm_compute in Hover. discriminate Hover.
    + injection Hcs as <- <- <-. vm_compute. reflexivity.
    + injection Hcs as <- <- Hrest.
      rewrite !concat_cons, !length_app in Hpre.
      unfold Number.gt in Hpre. apply Z.ltb_ge in Hpre. simpl in Hpre. lia.
Defined.

(** ** The JSON parser *)
Section JsonParser.

Variable jsonStringify : JsValue -> option string.
Variable availableDecompressors : gmap string (Result unit).

Lemma json_requests_are_handed_over :
  Examples.defaultDispatcher (Examples.jsonPost "36")
    = Streaming (Examples.jsonArgs "identity" 36)
  /\ Examples.defaultDispatcher (Examples.jsonPost "51")
     = Streaming (Examples.jsonArgs "identity" 51).
Proof. split; reflexivity. Qed.

Lemma string_of_list_byte_app (a b : Buffer) :
  string_of_list_byte (a ++ b) = string_of_list_byte a +:+ string_of_list_byte b.
Proof.
  unfold string_of_list_byte. induction a as [|x a IH]; [reflexivity|].
  simpl. by rewrite IH.
Qed.

(** The bytes are ASCII characters. *)
Abbreviation ascii bs := (forallb (fun b => Nat.ltb (Byte.to_nat b) 128) bs).

Lemma decodeFrom_ascii (bs : Buffer) :
  ascii bs = true -> Utf8.decodeFrom bs [] 0 128 191 = bs.
Proof.
  induction bs as [|b bs IH]; [reflexivity|].
  simpl. intros [Hb Hbs]%andb_true_iff. rewrite Hb. by rewrite IH.
Qed.

Lemma incomplete_ascii (bs : Buffer) : ascii bs = true -> Utf8.incomplete bs = 0%nat.
Proof.
  intros Hbs. unfold Utf8.incomplete.
  destruct (rev bs) as [|b before] eqn:Hrev; [reflexivity|].
  assert (Hin : In b bs).
  { apply in_rev. rewrite Hrev. by left. }
  rewrite forallb_forall in Hbs. by rewrite (Hbs b Hin).
Qed.

(** A decoder of UTF-8 that holds nothing back writes an ASCII chunk
    as it is, and holds nothing back afterwards. *)
Lemma write_ascii (chunk : Buffer) :
  ascii chunk = true -> Utf8.write [] chunk = (string_of_list_byte chunk, []).
Proof.
  intros Hc. unfold Utf8.write. simpl.
  rewrite (incomplete_ascii chunk Hc), Nat.sub_0_r.
  rewrite firstn_all, drop_all. unfold Utf8.decode.
  by rewrite decodeFrom_ascii.
Qed.

Lemma ascii_concat (cs : list Buffer) :
  ascii (concat cs) = true -> Forall (fun c => ascii c = true) cs.
Proof.
  induction cs as [|c cs IH]; [constructor|].
  simpl. rewrite forallb_app. intros [Hc Hcs]%andb_true_iff.
  constructor; [exact Hc|by apply IH].
Qed.

(** The pieces that the decoder of ['utf-8'] makes of ASCII chunks,
    when it holds nothing back: the chunks as text; and it holds
    nothing back afterwards. *)
Lemma push_ascii_chunks (cs : list Buffer) : forall decoders : Decoders,
  Encoders.heldBy decoders "utf-8" = [] ->
  Forall (fun c => ascii c = true) cs ->
  (pushChunks (Some Examples.utf8Decoder) decoders cs).1
  = map (fun c => VString (string_of_list_byte c)) cs
  /\ Encoders.heldBy (pushChunks (Some Examples.utf8Decoder) decoders cs).2 "utf-8"
     = [].
Proof.
  induction cs as [|c cs IH]; intros decoders Hheld Hcs; [done|].
  apply Forall_cons in Hcs as [Hc Hcs].
  pose proof (write_ascii c Hc) as Hw. unfold Utf8.write in Hw.
  simpl app in Hw. injection Hw as Hw1 Hw2.
  simpl. rewrite Hheld. simpl app. rewrite Hw1, Hw2.
  destruct (IH (<["utf-8" := []]> decoders)) as [H1 H2]; try done.
  { unfold Encoders.heldBy. by rewrite lookup_insert_eq. }
  split; [f_equal; exact H1|exact H2].
Qed.

(** The pieces add up to the text of the whole body. *)
Lemma decoded_chunks_join (cs : list Buffer) :
  Encoders.joinPieces
    (map (fun c => VString (string_of_list_byte c)) cs ++ [VString ""])
  = VString (string_of_list_byte (concat cs)).
Proof.
  unfold Encoders.joinPieces. f_equal.
  induction cs as [|c cs IH]; [reflexivity|].
  simpl concat. rewrite string_of_list_byte_app, <- IH.
  destruct cs; reflexivity.
Qed.

(** A JSON body of [len] ASCII bytes within the limit, delivered in
    any number of chunks and followed by the end of the stream, when
    the decoder of ['utf-8'] holds nothing back from an earlier
    request: the callback is called once, with what the parser makes
    of the text. *)
Lemma json_engine_result (heldDecoders : Decoders) (len : Z) (cs : list Buffer)
    (body : string) :
  Encoders.heldBy heldDecoders "utf-8" = [] ->
  concat cs = list_byte_of_string body ->
  ascii (list_byte_of_string body) = true ->
  Z.of_nat (length (list_byte_of_string body)) = len ->
  0 < len <= 20480 ->
  calls (run jsonStringify availableDecompressors ["identity"]
           (Examples.jsonArgs "identity" len) heldDecoders (map Data cs ++ [End_]))
  = [{| deferred := false;
        arg :=
          match jsonParser (VString body) with
          | Ok v => CbBody v
          | Throw err =>
              CbError (HttpErrors.createError (statusOr err 400)
                         ("Parse error: " +:+ e_message err)
                         [("body", HttpErrors.PValue (VString body));
                          ("type", HttpErrors.PString
                                     (typeOr err "entity.parse.failed"))])
          end |}].
Proof.
  intros Hheld Hcs Hascii Hlen Hbound. unfold run. rewrite foldl_app.
  change (rawBodyParser availableDecompressors ["identity"]
            (Examples.jsonArgs "identity" len) heldDecoders)
    with {| complete := false; sync := false; received := 0; chunks := [];
            verifyBuffer := []; listening := true; halted := false; calls := [];
            decoders := heldDecoders |}.
  rewrite (run_data_within_limit jsonStringify (Examples.jsonArgs "identity" len) 20480 cs);
    try reflexivity.
  2: { simpl. rewrite Hcs, Hlen. lia. }
  destruct (push_ascii_chunks cs heldDecoders Hheld) as [Hpieces Hafter].
  { apply ascii_concat. by rewrite Hcs. }
  change (streamDecoder (Examples.jsonArgs "identity" len))
    with (Some Examples.utf8Decoder).
  simpl foldl. unfold handle, onEnd. simpl.
  change (streamDecoder (Examples.jsonArgs "identity" len))
    with (Some Examples.utf8Decoder).
  simpl. rewrite Hpieces, Hafter. simpl.
  rewrite decoded_chunks_join, Hcs, string_of_list_byte_of_string, Hlen.
  rewrite Z.add_0_l, bool_decide_eq_true_2 by reflexivity. simpl.
  destruct (Z.eqb_spec len 0) as [->|_]; [lia|].
  destruct (jsonParser (VString body)); reflexivity.
Qed.

Lemma poisoned_body_rejected :
  jsonParser (VString Examples.poisonedBody)
  = Throw (newError "__proto__ key not allowed in JSON body on main level").
Proof. vm_compute. reflexivity. Qed.

Lemma harmless_body_parsed :
  jsonParser (VString Examples.harmlessBody)
  = Ok (VObject [("user", VString "tobi");
                 ("other", VString "uses __proto__ in a value")]).
Proof. vm_compute. reflexivity. Qed.

(** What C7 says holds of a request to a middleware whose decoder of
    ['utf-8'] holds nothing back, as after its set-up: the body
    [{"user":"tobi","__proto__":"poison"}] makes the callback receive
    an error of type ['entity.parse.failed'] whose message contains
    ['__proto__ key not allowed'], and the body
    [{"user":"tobi","other":"uses __proto__ in a value"}] is parsed to
    the object with these two entries, however the stream cuts the
    body into chunks. *)
Lemma json_proto_key_rejected (heldDecoders : Decoders) :
  Encoders.heldBy heldDecoders "utf-8" = [] ->
  Examples.defaultDispatcher (Examples.jsonPost "36")
    = Streaming (Examples.jsonArgs "identity" 36)
  /\ Examples.defaultDispatcher (Examples.jsonPost "51")
     = Streaming (Examples.jsonArgs "identity" 51)
  /\ (forall cs : list Buffer,
        concat cs = list_byte_of_string Examples.poisonedBody ->
        exists e,
          calls (run jsonStringify availableDecompressors ["identity"]
                   (Examples.jsonArgs "identity" 36) heldDecoders
                   (map Data cs ++ [End_]))
            = [{| deferred := false; arg := CbError e |}]
          /\ HttpErrors.status e = 400
          /\ HttpErrors.type e = HttpErrors.PString "entity.parse.failed"
          /\ Js.strIncludes "__proto__ key not allowed" (HttpErrors.message e) = true)
  /\ (forall cs : list Buffer,
        concat cs = list_byte_of_string Examples.harmlessBody ->
        calls (run jsonStringify availableDecompressors ["identity"]
                 (Examples.jsonArgs "identity" 51) heldDecoders
                 (map Data cs ++ [End_]))
        = [{| deferred := false;
              arg := CbBody (VObject [("user", VString "tobi");
                                      ("other", VString "uses __proto__ in a value")]) |}]).
Proof.
  intros Hheld. destruct json_requests_are_handed_over as [H1 H2].
  split; [exact H1|]. split; [exact H2|]. split.
  - intros cs Hcs.
    rewrite (json_engine_result heldDecoders 36 cs Examples.poisonedBody Hheld Hcs);
      [|reflexivity|reflexivity|lia].
    rewrite poisoned_body_rejected. eexists. split; [reflexivity|].
    split; [reflexivity|]. split; reflexivity.
  - intros cs Hcs.
    rewrite (json_engine_result heldDecoders 51 cs Examples.harmlessBody Hheld Hcs);
      [|reflexivity|reflexivity|lia].
    by rewrite harmless_body_parsed.
Qed.

End JsonParser.

(** C7, at the input where the sources depart from it.  The
    [StringDecoder] of an encoding is made once, at the set-up, and
    [onEnd], which ends it, is not reached by a request that is
    aborted.  Under [bodyParser.json()] a first request is aborted
    after the first of the two bytes of a character; the decoder keeps
    that byte.  The next request carries the harmless body
    [{"user":"tobi","other":"uses __proto__ in a value"}]: the decoder
    puts U+FFFD in front of its text, and the callback receives the
    400 error of type ['entity.parse.failed'] and not the parsed
    object.  The body with the key ['__proto__'] fails in the same
    way, with a message that does not name the key.  As the first
    request of the middleware both bodies are treated as C7 says. *)
Theorem harmless_body_fails_after_cut_request :
  Examples.served Examples.jsonMiddleware
    [(Examples.jsonPost "51",
      [Data (list_byte_of_string Examples.harmlessBody); End_])]
  = [[{| deferred := false;
         arg := CbBody (VObject [("user", VString "tobi");
                                 ("other", VString "uses __proto__ in a value")]) |}]]
  /\ Examples.served Examples.jsonMiddleware
       [(Examples.jsonPost "12", [Data Examples.cutBody; Aborted]);
        (Examples.jsonPost "51",
         [Data (list_byte_of_string Examples.harmlessBody); End_])]
     = [[{| deferred := false;
            arg := CbError (HttpErrors.createError 400 "request aborted"
                     [("code", HttpErrors.PString "ECONNABORTED");
                      ("type", HttpErrors.PString "request.aborted")]) |}];
        [{| deferred := false;
            arg := CbError (HttpErrors.createError 400
                     "Parse error: Unexpected token in JSON"
                     [("body", HttpErrors.PValue
                                 (VString (string_of_list_byte Utf8.replacement
                                           +:+ Examples.harmlessBody)));
                      ("type", HttpErrors.PString "entity.parse.failed")]) |}]]
  /\ Examples.served Examples.jsonMiddleware
       [(Examples.jsonPost "12", [Data Examples.cutBody; Aborted]);
        (Examples.jsonPost "36",
         [Data (list_byte_of_string Examples.poisonedBody); End_])]
     = [[{| deferred := false;
            arg := CbError (HttpErrors.createError 400 "request aborted"
                     [("code", HttpErrors.PString "ECONNABORTED");
                      ("type", HttpErrors.PString "request.aborted")]) |}];
        [{| deferred := false;
            arg := CbError (HttpErrors.createError 400
                     "Parse error: Unexpected token in JSON"
                     [("body", HttpErrors.PValue
                                 (VString (string_of_list_byte Utf8.replacement
                                           +:+ Examples.poisonedBody)));
                      ("type", HttpErrors.PString "entity.parse.failed")]) |}]].
Proof. repeat split; vm_compute; reflexivity. Qed.

(** ** Normalisation of encoding names *)
Section SetInsertion.

Lemma includes_true l x : Js.includes l x = true <-> x ∈ l.
Proof. unfold Js.includes. apply bool_decide_eq_true. Qed.

Lemma setAddAll_cons seen x l :
  Js.setAddAll seen (x :: l) =
  Js.setAddAll (if Js.includes seen x then seen else seen ++ [x]) l.
Proof. reflexivity. Qed.

Lemma setAddAll_app seen l1 l2 :
  Js.setAddAll seen (l1 ++ l2) = Js.setAddAll (Js.setAddAll seen l1) l2.
Proof. unfold Js.setAddAll. apply foldl_app. Qed.

(** Elements that the set already holds are not added again. *)
Lemma setAddAll_included l : forall seen,
  (forall x, x ∈ l -> x ∈ seen) -> Js.setAddAll seen l = seen.
Proof.
  induction l as [|x l IH]; intros seen Hin; [reflexivity|].
  rewrite setAddAll_cons.
  assert (Hx : Js.includes seen x = true).
  { apply includes_true, Hin. left. }
  rewrite Hx. apply IH. intros y Hy. apply Hin. by right.
Qed.

Lemma elem_of_setAddAll l : forall seen x,
  x ∈ Js.setAddAll seen l <-> x ∈ seen \/ x ∈ l.
Proof.
  induction l as [|y l IH]; intros seen x.
  - simpl. split; [by left|]. intros [H|H]; [done|inversion H].
  - rewrite setAddAll_cons, IH.
    destruct (Js.includes seen y) eqn:Hy.
    + apply includes_true in Hy. rewrite elem_of_cons.
      intuition (subst; auto).
    + rewrite elem_of_app, list_elem_of_singleton, elem_of_cons.
      intuition (subst; auto).
Qed.

(** The insertion only appends, and what it appends comes from [l]. *)
Lemma setAddAll_extends l : forall seen,
  exists ext, Js.setAddAll seen l = seen ++ ext /\ forall x, x ∈ ext -> x ∈ l.
Proof.
  induction l as [|y l IH]; intros seen.
  - exists []. split; [by rewrite app_nil_r|]. intros x H. inversion H.
  - rewrite setAddAll_cons. destruct (Js.includes seen y).
    + destruct (IH seen) as (ext & -> & Hext). exists ext.
      split; [done|]. intros x Hx. right. by apply Hext.
    + destruct (IH (seen ++ [y])) as (ext & -> & Hext). exists (y :: ext).
      split; [by rewrite <- app_assoc|].
      intros x Hx. apply elem_of_cons in Hx as [->|Hx]; [left|right; by apply Hext].
Qed.

Lemma elem_of_concat (ls : list (list string)) x :
  x ∈ concat ls <-> exists l, x ∈ l /\ l ∈ ls.
Proof.
  induction ls as [|l0 ls IH]; simpl.
  - split; [intros H; inversion H|intros (l & _ & H); inversion H].
  - rewrite elem_of_app, IH. split.
    + intros [H|(l & Hx & Hl)]; [exists l0; split; [done|left]|].
      exists l. split; [done|by right].
    + intros (l & Hx & Hl). apply elem_of_cons in Hl as [->|Hl]; [by left|].
      right. eauto.
Qed.

Variable expand : string -> list string.

(** The groups are closed: every member of a group has the same group. *)
Hypothesis expand_closed : forall x y, y ∈ expand x -> expand y = expand x.

Lemma flatMap_app (l1 l2 : list string) :
  Js.flatMap expand (l1 ++ l2) = Js.flatMap expand l1 ++ Js.flatMap expand l2.
Proof. unfold Js.flatMap. by rewrite map_app, concat_app. Qed.

Lemma flatMap_cons x (l : list string) :
  Js.flatMap expand (x :: l) = expand x ++ Js.flatMap expand l.
Proof. reflexivity. Qed.

Lemma elem_of_flatMap (l : list string) y :
  y ∈ Js.flatMap expand l <-> exists x, x ∈ l /\ y ∈ expand x.
Proof.
  unfold Js.flatMap. rewrite elem_of_concat. split.
  - intros (g & Hy & Hg). apply list_elem_of_fmap in Hg as (x & -> & Hx). eauto.
  - intros (x & Hx & Hy). exists (expand x). split; [done|].
    apply list_elem_of_fmap. eauto.
Qed.

(** One more group after a list that expands to itself. *)
Lemma expansion_fixed_step seen x :
  Js.setAddAll [] (Js.flatMap expand seen) = seen ->
  Js.setAddAll [] (Js.flatMap expand (Js.setAddAll seen (expand x)))
  = Js.setAddAll seen (expand x).
Proof.
  intros Hfix.
  destruct (setAddAll_extends (expand x) seen) as (ext & Hext & Hin).
  rewrite Hext at 1. rewrite flatMap_app, setAddAll_app, Hfix.
  destruct ext as [|e ext].
  - rewrite Hext, app_nil_r. reflexivity.
  - rewrite flatMap_cons, setAddAll_app.
    rewrite (expand_closed x e) by (apply Hin; left).
    apply setAddAll_included. intros y Hy.
    apply elem_of_setAddAll. right.
    apply elem_of_flatMap in Hy as (z & Hz & Hy).
    rewrite (expand_closed x z) in Hy by (apply Hin; by right). exact Hy.
Qed.

Lemma expansion_fixed_from l : forall seen,
  Js.setAddAll [] (Js.flatMap expand seen) = seen ->
  Js.setAddAll [] (Js.flatMap expand (Js.setAddAll seen (Js.flatMap expand l)))
  = Js.setAddAll seen (Js.flatMap expand l).
Proof.
  induction l as [|x l IH]; intros seen Hfix; [exact Hfix|].
  rewrite flatMap_cons, setAddAll_app. apply IH. by apply expansion_fixed_step.
Qed.

(** Expanding and deduplicating a second time changes nothing. *)
Lemma expansion_idempotent l :
  Js.uniq (Js.flatMap expand (Js.uniq (Js.flatMap expand l)))
  = Js.uniq (Js.flatMap expand l).
Proof. unfold Js.uniq. by apply expansion_fixed_from. Qed.

End SetInsertion.

(** ** The record of encoding variations *)
Section EncodingVariations.

Implicit Types (V : gmap string (list string)) (k m : string) (G : list string).

Lemma setAddAll_length_le l : forall seen,
  (length (Js.setAddAll seen l) <= length seen + length l)%nat.
Proof.
  induction l as [|x l IH]; intros seen; [simpl; lia|].
  rewrite setAddAll_cons. destruct (Js.includes seen x).
  - specialize (IH seen). simpl. lia.
  - specialize (IH (seen ++ [x])). rewrite length_app in IH. simpl in *. lia.
Qed.

(** The check of [getEncodingVariations] for names that are supplied
    more than once: when the set has as many elements as the array,
    the array has no duplicates. *)
Lemma setAddAll_length_full l : forall seen,
  (length seen + length l <= length (Js.setAddAll seen l))%nat ->
  NoDup l /\ forall x, x ∈ l -> x ∉ seen.
Proof.
  induction l as [|x l IH]; intros seen Hlen.
  - split; [constructor|]. intros x H. inversion H.
  - rewrite setAddAll_cons in Hlen. destruct (Js.includes seen x) eqn:Hx.
    + pose proof (setAddAll_length_le l seen). simpl in Hlen. lia.
    + assert (Hx' : x ∉ seen).
      { intros H. apply includes_true in H. congruence. }
      destruct (IH (seen ++ [x])) as [Hnd Hnot].
      { rewrite length_app. simpl in *. lia. }
      split.
      * constructor; [|exact Hnd]. intros H. apply (Hnot x H).
        apply elem_of_app. right. left.
      * intros y Hy. apply elem_of_cons in Hy as [->|Hy]; [exact Hx'|].
        intros H. apply (Hnot y Hy). apply elem_of_app. by left.
Qed.

Lemma uniq_check_NoDup l :
  Nat.ltb (length (Js.uniq l)) (length l) = false -> NoDup l.
Proof.
  intros H. apply Nat.ltb_ge in H.
  by destruct (setAddAll_length_full l [] H).
Qed.

(** Distinct arrays of a concatenation without duplicates share no name. *)
Lemma NoDup_concat_unique (Gs : list (list string)) G G' k :
  NoDup (concat Gs) -> G ∈ Gs -> G' ∈ Gs -> k ∈ G -> k ∈ G' -> G = G'.
Proof.
  induction Gs as [|G0 Gs IH]; intros Hnd HG HG' Hk Hk'; [inversion HG|].
  simpl in Hnd. apply NoDup_app in Hnd as (_ & Hdisj & Hnd).
  apply elem_of_cons in HG as [->|HG]; apply elem_of_cons in HG' as [->|HG'].
  - reflexivity.
  - exfalso. apply (Hdisj k Hk). apply elem_of_concat. eauto.
  - exfalso. apply (Hdisj k Hk'). apply elem_of_concat. eauto.
  - by apply IH.
Qed.

Lemma filter_all (P : string -> Prop) `{!forall x, Decision (P x)} (l : list string) :
  (forall x, x ∈ l -> P x) -> filter P l = l.
Proof.
  induction l as [|x l IH]; intros Hall; [reflexivity|].
  rewrite filter_cons_True by (apply Hall; left).
  f_equal. apply IH. intros y Hy. apply Hall. by right.
Qed.

Lemma filter_full_length (P : string -> Prop) `{!forall x, Decision (P x)}
    (l : list string) :
  (length l <= length (filter P l))%nat -> forall x, x ∈ l -> P x.
Proof.
  intros Hlen x Hx. destruct (decide (P x)) as [|Hn]; [done|].
  pose proof (length_filter_lt P l x Hx Hn). lia.
Qed.

(** The removal loop, key by key. *)
Lemma removeEncoding_lookup V encoding k :
  removeEncoding V encoding !! k =
  if decide (k = encoding) then None
  else filter (fun v => v ≠ encoding) <$> V !! k.
Proof.
  unfold removeEncoding. rewrite lookup_fmap.
  destruct (decide (k = encoding)) as [->|Hne].
  - by rewrite lookup_delete_eq.
  - rewrite lookup_delete_ne by done.
    destruct (V !! k) as [vs|]; [|reflexivity]. simpl. f_equal.
    destruct (Js.includes vs encoding) eqn:Hin; [reflexivity|].
    symmetry. apply filter_all. intros x Hx ->.
    apply includes_true in Hx. congruence.
Qed.

Lemma removeEncodings_lookup R : forall V k,
  foldl removeEncoding V R !! k =
  if decide (k ∈ R) then None else filter (fun v => v ∉ R) <$> V !! k.
Proof.
  induction R as [|e R IH]; intros V k.
  - simpl. destruct (decide (k ∈ [])) as [H|_]; [inversion H|].
    destruct (V !! k) as [vs|]; [|reflexivity]. simpl. f_equal.
    symmetry. apply filter_all. intros x _ H. inversion H.
  - simpl. rewrite IH, removeEncoding_lookup.
    destruct (decide (k ∈ R)) as [HR|HR].
    + rewrite decide_True by (by right). reflexivity.
    + destruct (decide (k = e)) as [->|Hne].
      * rewrite decide_True by left. reflexivity.
      * rewrite decide_False by (rewrite elem_of_cons; tauto).
        destruct (V !! k) as [vs|]; [|reflexivity]. simpl. f_equal.
        rewrite list_filter_filter. apply list_filter_iff.
        intros x. rewrite elem_of_cons. tauto.
Qed.

(** The registration of the names of one encoder, key by key. *)
Lemma insert_all_lookup G es : forall V k,
  foldl (fun V encoding => <[encoding := G]> V) V es !! k =
  if decide (k ∈ es) then Some G else V !! k.
Proof.
  induction es as [|e es IH]; intros V k.
  - simpl. destruct (decide (k ∈ [])) as [H|_]; [inversion H|reflexivity].
  - simpl. rewrite IH. destruct (decide (k ∈ es)) as [Hin|Hin].
    + by rewrite decide_True by (by right).
    + destruct (decide (k = e)) as [->|Hne].
      * rewrite decide_True by left. by rewrite lookup_insert_eq.
      * rewrite decide_False by (rewrite elem_of_cons; tauto).
        by rewrite lookup_insert_ne.
Qed.

Lemma registerGroup_lookup V G k :
  registerGroup V G !! k =
  if decide ((1 < length G)%nat /\ k ∈ G) then Some G else V !! k.
Proof.
  unfold registerGroup. destruct (Nat.ltb_spec 1 (length G)) as [Hlen|Hlen].
  - rewrite insert_all_lookup. destruct (decide (k ∈ G)).
    + by rewrite decide_True.
    + by rewrite decide_False by tauto.
  - by rewrite decide_False by lia.
Qed.

(** After the registration loop a key has either the names of an
    encoder that lists it, or what it had before. *)
Lemma registerGroups_lookup_Some Gs : forall V k G,
  foldl registerGroup V Gs !! k = Some G ->
  (G ∈ Gs /\ k ∈ G /\ (1 < length G)%nat)
  \/ (V !! k = Some G /\ forall G', G' ∈ Gs -> (1 < length G')%nat -> k ∉ G').
Proof.
  induction Gs as [|G0 Gs IH] using rev_ind; intros V k G.
  - simpl. intros H. right. split; [done|]. intros G' HG'. inversion HG'.
  - rewrite foldl_app. simpl. rewrite registerGroup_lookup.
    destruct (decide ((1 < length G0)%nat /\ k ∈ G0)) as [[Hlen Hk]|Hno].
    + intros [= <-]. left. split; [|done]. apply elem_of_app. right. left.
    + intros H. destruct (IH V k G H) as [(HG & Hk & Hlen)|[HV Hnone]].
      * left. split; [|done]. apply elem_of_app. by left.
      * right. split; [done|]. intros G' HG' Hlen Hk.
        apply elem_of_app in HG' as [HG'|HG'].
        -- by apply (Hnone G').
        -- apply list_elem_of_singleton in HG' as ->. tauto.
Qed.

Lemma registerGroups_lookup_registered Gs : forall V k G,
  (forall G', G' ∈ Gs -> k ∈ G' -> G' = G) ->
  G ∈ Gs -> k ∈ G -> (1 < length G)%nat ->
  foldl registerGroup V Gs !! k = Some G.
Proof.
  induction Gs as [|G0 Gs IH] using rev_ind; intros V k G Huniq HG Hk Hlen.
  - inversion HG.
  - rewrite foldl_app. simpl. rewrite registerGroup_lookup.
    destruct (decide ((1 < length G0)%nat /\ k ∈ G0)) as [[Hlen0 Hk0]|Hno].
    + f_equal. apply Huniq; [|done]. apply elem_of_app. right. left.
    + apply elem_of_app in HG as [HG|HG].
      * apply IH; try done. intros G' HG'. apply Huniq. apply elem_of_app. by left.
      * apply list_elem_of_singleton in HG as ->. tauto.
Qed.

Lemma registerGroups_lookup_other Gs : forall V k,
  (forall G', G' ∈ Gs -> (1 < length G')%nat -> k ∉ G') ->
  foldl registerGroup V Gs !! k = V !! k.
Proof.
  induction Gs as [|G0 Gs IH] using rev_ind; intros V k Hnone; [reflexivity|].
  rewrite foldl_app. simpl. rewrite registerGroup_lookup.
  rewrite decide_False.
  - apply IH. intros G' HG'. apply Hnone. apply elem_of_app. by left.
  - intros [Hlen Hk]. apply (Hnone G0); [|done..]. apply elem_of_app. right. left.
Qed.

(** The initial record: its keys, and its groups of two names that
    are closed and in lower case. *)
Lemma builtinVariations_lookup k G :
  builtinVariations !! k = Some G ->
  k ∈ encodingVariationNames
  /\ k ∈ G
  /\ length G = 2%nat
  /\ (forall m, m ∈ G -> builtinVariations !! m = Some G)
  /\ (forall m, m ∈ G -> Js.toLowerCase m = m).
Proof.
  unfold builtinVariations. rewrite !lookup_insert_Some, lookup_empty.
  intros [[<- <-]|[_ [[<- <-]|[_ [[<- <-]|[_ [[<- <-]|[_ H]]]]]]]]; [..|discriminate H].
  all: split; [unfold encodingVariationNames; set_solver|].
  all: split; [set_solver|].
  all: split; [reflexivity|].
  all: split; intros m Hm;
    repeat (apply elem_of_cons in Hm as [->|Hm]); try (by inversion Hm);
    reflexivity.
Qed.

Lemma removed_names (added : list string) k :
  k ∈ filter (fun a => a ∈ encodingVariationNames) added
  <-> k ∈ encodingVariationNames /\ k ∈ added.
Proof. by rewrite list_elem_of_filter. Qed.

(** What [getEncodingVariations] returns for a list of encoders, as
    the three loops build it. *)
Lemma getEncodingVariations_Some bes V nodeNames :
  getEncodingVariations (Some bes) = Ok (V, nodeNames) ->
  NoDup (Js.flatMap encodingsOf bes)
  /\ V = filter (fun kv => ¬ (length kv.2 < 2)%nat)
           (foldl registerGroup
              (foldl removeEncoding builtinVariations
                 (filter (fun a => a ∈ encodingVariationNames)
                    (Js.flatMap encodingsOf bes)))
              (map encodingsOf bes)).
Proof.
  unfold getEncodingVariations.
  destruct (Nat.ltb _ _) eqn:Hcheck; [discriminate|].
  intros [= <- _]. split; [by apply uniq_check_NoDup|reflexivity].
Qed.

(** A group of the result is the list of an encoder with several
    names, or a built-in group none of whose names is supplied. *)
Lemma variations_cases bes V nodeNames k G :
  getEncodingVariations (Some bes) = Ok (V, nodeNames) ->
  V !! k = Some G ->
  (G ∈ map encodingsOf bes /\ k ∈ G /\ (1 < length G)%nat)
  \/ (builtinVariations !! k = Some G
      /\ forall m, m ∈ G -> m ∉ Js.flatMap encodingsOf bes).
Proof.
  intros Hget Hk. apply getEncodingVariations_Some in Hget as [Hnd ->].
  apply map_lookup_filter_Some in Hk as [Hk Hlen]. simpl in Hlen.
  apply registerGroups_lookup_Some in Hk as [Hreg|[Hk Hnone]]; [by left|].
  right. rewrite removeEncodings_lookup in Hk.
  destruct (decide (k ∈ _)) as [|HkR]; [discriminate|].
  destruct (builtinVariations !! k) as [G0|] eqn:HG0; [|discriminate].
  injection Hk as <-.
  destruct (builtinVariations_lookup k G0 HG0) as (Hkn & HkG & Hlen0 & Hcl & _).
  assert (Hall : forall x, x ∈ G0 ->
            x ∉ filter (fun a => a ∈ encodingVariationNames)
                  (Js.flatMap encodingsOf bes)).
  { intros x Hx.
    apply (filter_full_length
             (fun v => v ∉ filter (fun a => a ∈ encodingVariationNames)
                             (Js.flatMap encodingsOf bes)) G0); [lia|exact Hx]. }
  rewrite filter_all by exact Hall. split; [reflexivity|].
  intros m Hm Hadded. apply (Hall m Hm). apply removed_names. split; [|done].
  by destruct (builtinVariations_lookup m G0 (Hcl m Hm)).
Qed.

Lemma variations_registered bes V nodeNames G m :
  getEncodingVariations (Some bes) = Ok (V, nodeNames) ->
  G ∈ map encodingsOf bes -> m ∈ G -> (1 < length G)%nat ->
  V !! m = Some G.
Proof.
  intros Hget HG Hm Hlen. apply getEncodingVariations_Some in Hget as [Hnd ->].
  apply map_lookup_filter_Some. split; [|simpl; lia].
  apply registerGroups_lookup_registered; try done.
  intros G' HG' Hm'. by apply (NoDup_concat_unique (map encodingsOf bes) G' G m).
Qed.

Lemma variations_builtin bes V nodeNames G m :
  getEncodingVariations (Some bes) = Ok (V, nodeNames) ->
  builtinVariations !! m = Some G ->
  (forall x, x ∈ G -> x ∉ Js.flatMap encodingsOf bes) ->
  V !! m = Some G.
Proof.
  intros Hget HG Hfree. apply getEncodingVariations_Some in Hget as [Hnd ->].
  destruct (builtinVariations_lookup m G HG) as (Hmn & HmG & Hlen & _).
  apply map_lookup_filter_Some. split; [|simpl; lia].
  rewrite registerGroups_lookup_other.
  - rewrite removeEncodings_lookup, HG.
    rewrite decide_False by (rewrite removed_names; intros [_ H]; by apply (Hfree m)).
    simpl. f_equal. apply filter_all. intros x Hx.
    rewrite removed_names. intros [_ H]. by apply (Hfree x).
  - intros G' HG' _ Hm. apply (Hfree m HmG). apply elem_of_concat. eauto.
Qed.

(** The record that [getEncodingVariations] returns is closed: every
    name of a group is a key with that group. *)
Lemma getEncodingVariations_closed bufferEncodings V nodeNames k G m :
  getEncodingVariations bufferEncodings = Ok (V, nodeNames) ->
  V !! k = Some G -> m ∈ G -> V !! m = Some G.
Proof.
  destruct bufferEncodings as [bes|].
  - intros Hget Hk Hm.
    destruct (variations_cases bes V nodeNames k G Hget Hk)
      as [(HG & _ & Hlen)|[HG Hfree]].
    + by apply (variations_registered bes V nodeNames).
    + apply (variations_builtin bes V nodeNames); [done| |done].
      by destruct (builtinVariations_lookup k G HG) as (_ & _ & _ & Hcl & _); apply Hcl.
  - intros [= <- _] Hk Hm.
    by destruct (builtinVariations_lookup k G Hk) as (_ & _ & _ & Hcl & _); apply Hcl.
Qed.

(** With encoders whose names are in lower case, so are the groups. *)
Lemma getEncodingVariations_lower bufferEncodings V nodeNames k G m :
  (forall bes e name, bufferEncodings = Some bes -> e ∈ bes ->
     name ∈ encodingsOf e -> Js.toLowerCase name = name) ->
  getEncodingVariations bufferEncodings = Ok (V, nodeNames) ->
  V !! k = Some G -> m ∈ G -> Js.toLowerCase m = m.
Proof.
  intros Hlower. destruct bufferEncodings as [bes|].
  - intros Hget Hk Hm.
    destruct (variations_cases bes V nodeNames k G Hget Hk)
      as [(HG & _ & _)|[HG _]].
    + apply list_elem_of_fmap in HG as (e & -> & He).
      by apply (Hlower bes e m).
    + by destruct (builtinVariations_lookup k G HG) as (_ & _ & _ & _ & Hl); apply Hl.
  - intros [= <- _] Hk Hm.
    by destruct (builtinVariations_lookup k G Hk) as (_ & _ & _ & _ & Hl); apply Hl.
Qed.

End EncodingVariations.

(** ** Idempotence of [normalizeEncodings] *)
Section Normalisation.

Lemma lowerChar_idempotent c : Js.lowerChar (Js.lowerChar c) = Js.lowerChar c.
Proof. destruct c as [[] [] [] [] [] [] [] []]; reflexivity. Qed.

Lemma toLowerCase_idempotent s :
  Js.toLowerCase (Js.toLowerCase s) = Js.toLowerCase s.
Proof.
  induction s as [|c s IH]; [reflexivity|].
  simpl. by rewrite lowerChar_idempotent, IH.
Qed.

Lemma map_fixed (f : string -> string) (l : list string) :
  (forall x, x ∈ l -> f x = x) -> map f l = l.
Proof.
  induction l as [|x l IH]; intros H; [reflexivity|].
  simpl. rewrite H by left. f_equal. apply IH. intros y Hy. apply H. by right.
Qed.

Lemma namesInLowerCase_spec bufferEncodings bes e name :
  namesInLowerCase bufferEncodings = true ->
  bufferEncodings = Some bes -> e ∈ bes -> name ∈ encodingsOf e ->
  Js.toLowerCase name = name.
Proof.
  intros Hlower -> He Hname. simpl in Hlower.
  rewrite forallb_forall in Hlower.
  specialize (Hlower e (proj1 (list_elem_of_In _ _) He)).
  rewrite forallb_forall in Hlower.
  specialize (Hlower name (proj1 (list_elem_of_In _ _) Hname)).
  by apply String.eqb_eq.
Qed.

(** On a record that is closed and whose groups are in lower case,
    normalising twice gives what normalising once gives. *)
Lemma normalizeEncodings_idempotent_closed (V : gmap string (list string)) L :
  (forall k G m, V !! k = Some G -> m ∈ G -> V !! m = Some G) ->
  (forall k G m, V !! k = Some G -> m ∈ G -> Js.toLowerCase m = m) ->
  normalizeEncodings (normalizeEncodings L V) V = normalizeEncodings L V.
Proof.
  intros Hclosed Hlower. unfold normalizeEncodings.
  assert (Hexp : forall x y, y ∈ variationsOf V x -> variationsOf V y = variationsOf V x).
  { intros x y. unfold variationsOf.
    destruct (V !! x) as [G|] eqn:Hx.
    - intros Hy. by rewrite (Hclosed x G y Hx Hy).
    - intros Hy. apply list_elem_of_singleton in Hy as ->. by rewrite Hx. }
  rewrite map_fixed; [by apply expansion_idempotent|].
  intros y Hy. unfold Js.uniq in Hy.
  apply elem_of_setAddAll in Hy as [Hy|Hy]; [inversion Hy|].
  apply elem_of_flatMap in Hy as (x & Hx & Hy).
  apply list_elem_of_fmap in Hx as (l & -> & _).
  unfold variationsOf in Hy.
  destruct (V !! Js.toLowerCase l) as [G|] eqn:HG.
  - by apply (Hlower _ G y HG).
  - apply list_elem_of_singleton in Hy as ->. apply toLowerCase_idempotent.
Qed.

Lemma plainNames_lower bufferEncodings :
  plainNames bufferEncodings = true -> namesInLowerCase bufferEncodings = true.
Proof. unfold plainNames. by intros [H _]%andb_true_iff. Qed.

(** C5, amended.  For every record that [getEncodingVariations]
    returns for encoders whose names are written in lower-case ASCII
    and are not ['__proto__'] (or for no encoders), and for every list
    of names of which none is, in lower case, the name of a property
    that the record inherits from [Object.prototype],
    [normalizeEncodings] is idempotent. *)
Theorem normalizeEncodings_idempotent
    (bufferEncodings : option (list BufferEncoder))
    (V : gmap string (list string)) (nodeEncodingVariations L : list string) :
  plainNames bufferEncodings = true ->
  getEncodingVariations bufferEncodings = Ok (V, nodeEncodingVariations) ->
  (forall name, name ∈ L -> Js.toLowerCase name ∉ Js.objectPrototypeNames) ->
  normalizeEncodings (normalizeEncodings L V) V = normalizeEncodings L V.
Proof.
  intros Hlower%plainNames_lower Hget _.
  apply normalizeEncodings_idempotent_closed.
  - intros k G m. by apply (getEncodingVariations_closed bufferEncodings V
                              nodeEncodingVariations).
  - intros k G m.
    apply (getEncodingVariations_lower bufferEncodings V nodeEncodingVariations);
      [|exact Hget].
    intros bes e name. by apply namesInLowerCase_spec.
Qed.

End Normalisation.

(** C5 at an encoder with the names ['x'] and ['Y']: the record maps
    ['x'] to both names, so the first normalisation of [['x']] brings in
    ['Y'], and the second one lowers it to ['y'], which has no group. *)
Lemma normalizeEncodings_mixed_case :
  exists V nodeEncodingVariations,
    getEncodingVariations (Some [Examples.encoder ["x"; "Y"]])
      = Ok (V, nodeEncodingVariations)
    /\ normalizeEncodings ["x"] V = ["x"; "Y"]
    /\ normalizeEncodings (normalizeEncodings ["x"] V) V = ["x"; "Y"; "y"]
    /\ normalizeEncodings (normalizeEncodings ["x"] V) V <> normalizeEncodings ["x"] V.
Proof.
  eexists. eexists. split; [reflexivity|].
  split; [vm_compute; reflexivity|].
  split; [vm_compute; reflexivity|].
  vm_compute. discriminate.
Qed.

(** C5, amended, for an encoder with two names in lower-case ASCII. *)
Lemma normalizeEncodings_idempotent_witness :
  exists V nodeEncodingVariations,
    getEncodingVariations (Some [Examples.encoder ["latin2"; "iso-8859-2"]])
      = Ok (V, nodeEncodingVariations)
    /\ normalizeEncodings ["UTF8"; "Latin2"; "hex"] V
       = ["utf-8"; "utf8"; "latin2"; "iso-8859-2"; "hex"]
    /\ normalizeEncodings (normalizeEncodings ["UTF8"; "Latin2"; "hex"] V) V
       = normalizeEncodings ["UTF8"; "Latin2"; "hex"] V.
Proof.
  eexists. eexists. split; [reflexivity|].
  split; [vm_compute; reflexivity|].
  eapply (normalizeEncodings_idempotent
            (Some [Examples.encoder ["latin2"; "iso-8859-2"]])).
  - reflexivity.
  - reflexivity.
  - intros name Hname. apply (bool_decide_unpack _).
    repeat (apply elem_of_cons in Hname as [->|Hname]; [vm_compute; exact I|]).
    inversion Hname.
Defined.

(** * Further properties of the set-up, the dispatcher and the engine *)

Import Decompressors Encoders Middleware.

(** ** Media type identifiers and matchers *)
Section MediaTypeIdentifiers.

Implicit Types (s a b : string) (mediaType : MediaType).

Lemma strIncludes_slash_cons c r :
  Js.strIncludes "/" (String c r) = Ascii.eqb c "/"%char || Js.strIncludes "/" r.
Proof. simpl. by rewrite andb_true_r, Ascii.eqb_sym. Qed.

Lemma split_without_slash a :
  Js.strIncludes "/" a = false -> Js.split "/"%char a = [a].
Proof.
  induction a as [|c a IH]; [reflexivity|].
  rewrite strIncludes_slash_cons. intros [Hc Ha]%orb_false_elim.
  simpl. by rewrite Hc, IH.
Qed.

Lemma split_at_slash a b :
  Js.strIncludes "/" a = false ->
  Js.split "/"%char (a +:+ "/" +:+ b) = a :: Js.split "/"%char b.
Proof.
  induction a as [|c a IH]; [reflexivity|].
  rewrite strIncludes_slash_cons. intros [Hc Ha]%orb_false_elim.
  simpl. by rewrite Hc, IH.
Qed.

Lemma split_not_nil s : Js.split "/"%char s <> [].
Proof.
  destruct s as [|c s]; simpl; [discriminate|].
  destruct (Ascii.eqb c "/"%char); [discriminate|].
  destruct (Js.split "/"%char s); discriminate.
Qed.

(** The first piece of [split] has no slash, and the other pieces are
    the pieces of what follows the first slash. *)
Lemma split_first s : forall p ps,
  Js.split "/"%char s = p :: ps ->
  Js.strIncludes "/" p = false
  /\ ((ps = [] /\ s = p)
      \/ exists r, s = p +:+ "/" +:+ r /\ Js.split "/"%char r = ps).
Proof.
  induction s as [|c s IH]; intros p ps.
  - intros [= <- <-]. split; [reflexivity|by left].
  - simpl. destruct (Ascii.eqb_spec c "/"%char) as [->|Hc].
    + intros [= <- <-]. split; [reflexivity|]. right. by exists s.
    + destruct (Js.split "/"%char s) as [|q qs] eqn:Hs;
        [by destruct (split_not_nil s)|].
      intros [= <- <-]. destruct (IH q qs eq_refl) as [Hq Hrest].
      split.
      * rewrite strIncludes_slash_cons, Hq.
        by destruct (Ascii.eqb_spec c "/"%char).
      * destruct Hrest as [[-> ->]|(r & -> & Hr)]; [by left|].
        right. by exists r.
Qed.

(** X1.  [getMediaTypeIdentifier] accepts a
    string exactly when it has two parts separated by one slash, and
    the template then holds [null] for a part that is ['*'] and the
    part itself otherwise (an empty part included); every other string
    makes it throw. *)
Theorem identifier_accepted_iff_one_slash s (t : MediaTypeTemplate) :
  getMediaTypeIdentifier s = Ok t
  <-> exists a b,
        s = a +:+ "/" +:+ b
        /\ Js.strIncludes "/" a = false /\ Js.strIncludes "/" b = false
        /\ t = (if String.eqb a "*" then None else Some a,
                if String.eqb b "*" then None else Some b).
Proof.
  unfold getMediaTypeIdentifier. split.
  - destruct (Js.split "/"%char s) as [|a [|b [|c l]]] eqn:Hs; try discriminate.
    intros [= <-].
    destruct (split_first s a [b] Hs) as [Ha [[? _]|(r & -> & Hr)]]; [done|].
    destruct (split_first r b [] Hr) as [Hb [[_ ->]|(r' & _ & Hr')]];
      [|by destruct (split_not_nil r')].
    by exists a, b.
  - intros (a & b & -> & Ha & Hb & ->).
    by rewrite split_at_slash, split_without_slash.
Qed.

Lemma matchPart_spec (x : string) (m : option string) :
  matchPart (if String.eqb x "*" then None else Some x) m
  = bool_decide (x = "*" \/ x = "" \/ m = Some x).
Proof.
  destruct (String.eqb_spec x "*") as [->|Hx].
  - rewrite bool_decide_eq_true_2 by (by left). reflexivity.
  - destruct x as [|c x].
    + rewrite bool_decide_eq_true_2 by (right; by left). reflexivity.
    + unfold matchPart. simpl Js.truthyStr. simpl negb. rewrite orb_false_l.
      apply bool_decide_ext. intuition congruence.
Qed.

(** X2.  The matchers that [getMediaTypeMatchers] makes
    of the identifier [a/b] accept a media type exactly when each of
    the two parts of the identifier is ['*'], is empty, or is equal to
    the part of the media type at the same index; what the media type
    holds beyond its second part is not looked at. *)
Theorem identifier_matches a b mediaType :
  Js.strIncludes "/" a = false -> Js.strIncludes "/" b = false ->
  (matchers ← getMediaTypeMatchers [IdString (a +:+ "/" +:+ b)];
   matchAnyType matchers mediaType)
  = Ok (bool_decide ((a = "*" \/ a = "" \/ mediaType !! 0%nat = Some a)
                     /\ (b = "*" \/ b = "" \/ mediaType !! 1%nat = Some b))).
Proof.
  intros Ha Hb. unfold getMediaTypeMatchers, getMediaTypeIdentifier.
  simpl mapM. rewrite split_at_slash, split_without_slash by done. simpl.
  unfold matchType. simpl. rewrite !matchPart_spec.
  repeat case_bool_decide; simpl; try reflexivity; tauto.
Qed.

(** X3.  [matchAnyType] on two arrays of matchers put one
    after the other: the second array is consulted only when no
    matcher of the first accepts; an acceptance by the first array, or
    an exception of one of its functions, is the outcome. *)
Theorem matchAnyType_app (matchers rest : MediaTypeMatchers) mediaType :
  matchAnyType (matchers ++ rest) mediaType
  = match matchAnyType matchers mediaType with
    | Ok false => matchAnyType rest mediaType
    | outcome => outcome
    end.
Proof.
  induction matchers as [|[t|f] matchers IH]; simpl; [reflexivity| |].
  - by destruct (matchType t mediaType).
  - destruct (f mediaType) as [[|]|e]; simpl; done.
Qed.

End MediaTypeIdentifiers.

(** The identifier ['application/*'] on a JSON and on a text media type. *)
Lemma identifier_matches_witness :
  Js.strIncludes "/" "application" = false
  /\ Js.strIncludes "/" "*" = false
  /\ (matchers ← getMediaTypeMatchers [IdString "application/*"];
      matchAnyType matchers ["application"; "json"]) = Ok true
  /\ (matchers ← getMediaTypeMatchers [IdString "application/*"];
      matchAnyType matchers ["text"; "plain"]) = Ok false.
Proof.
  split; [reflexivity|]. split; [reflexivity|]. split.
  - exact (identifier_matches "application" "*" ["application"; "json"] eq_refl eq_refl).
  - exact (identifier_matches "application" "*" ["text"; "plain"] eq_refl eq_refl).
Defined.

(** ** Objects with ordered keys *)
Section DecompressorObjects.

Context {D : Type}.
Implicit Types (obj : Fields D) (k key : string) (needed : list string).

Lemma deleteKey_filter obj key :
  deleteKey obj key = filter (fun kv => kv.1 ≠ key) obj.
Proof.
  induction obj as [|[k v] obj IH]; [reflexivity|].
  rewrite filter_cons. unfold deleteKey in *. cbn [List.filter fst].
  destruct (String.eqb_spec k key) as [->|Hk]; cbn [negb].
  - rewrite decide_False by (intros H; by apply H). exact IH.
  - rewrite decide_True by done. by rewrite IH.
Qed.

Lemma filter_agree {A} (P Q : A -> Prop) `{!forall x, Decision (P x)}
    `{!forall x, Decision (Q x)} (l : list A) :
  (forall x, x ∈ l -> P x <-> Q x) -> filter P l = filter Q l.
Proof.
  induction l as [|x l IH]; intros Hagree; [reflexivity|].
  rewrite !filter_cons.
  assert (Hx : P x <-> Q x) by (apply Hagree; left).
  rewrite IH by (intros y Hy; apply Hagree; by right).
  destruct (decide (P x)), (decide (Q x)); tauto || reflexivity.
Qed.

Lemma filter_everything {A} (P : A -> Prop) `{!forall x, Decision (P x)} (l : list A) :
  (forall x, x ∈ l -> P x) -> filter P l = l.
Proof.
  induction l as [|x l IH]; intros Hall; [reflexivity|].
  rewrite filter_cons, decide_True by (apply Hall; left).
  by rewrite IH by (intros y Hy; apply Hall; by right).
Qed.

(** The loop of [deleteMissingKeys] over the keys [ks]. *)
Lemma delete_loop needed ks : forall obj,
  foldl (fun obj key =>
           if negb (Js.includes needed key) then deleteKey obj key else obj) obj ks
  = filter (fun kv => kv.1 ∈ needed \/ kv.1 ∉ ks) obj.
Proof.
  induction ks as [|k ks IH]; intros obj.
  - simpl. symmetry. apply filter_everything. intros kv _. right. apply not_elem_of_nil.
  - simpl. rewrite IH. destruct (Js.includes needed k) eqn:Hk; simpl.
    + apply includes_true in Hk. apply filter_agree. intros kv _.
      rewrite not_elem_of_cons. split; [|tauto].
      intros [H|H]; [by left|].
      destruct (decide (kv.1 = k)) as [Heq|Hne]; [left; congruence|by right].
    + assert (Hk' : k ∉ needed).
      { intros H. apply includes_true in H. congruence. }
      rewrite deleteKey_filter, list_filter_filter. apply filter_agree.
      intros kv _. rewrite not_elem_of_cons. split; [tauto|].
      intros [H|[H1 H2]]; [|tauto]. split; [by left|]. congruence.
Qed.

Lemma elem_of_keys obj k : k ∈ keys obj <-> exists v, (k, v) ∈ obj.
Proof.
  unfold keys. rewrite list_elem_of_fmap. split.
  - intros ([k' v] & -> & H). by exists v.
  - intros (v & H). by exists (k, v).
Qed.

Lemma get_filter needed obj k :
  get (filter (fun kv => kv.1 ∈ needed) obj) k
  = if bool_decide (k ∈ needed) then get obj k else None.
Proof.
  induction obj as [|[k' v] obj IH]; [by case_bool_decide|].
  rewrite filter_cons. simpl. destruct (decide (k' ∈ needed)) as [Hin|Hout]; simpl.
  - destruct (String.eqb_spec k' k) as [->|Hne]; [|exact IH].
    by rewrite bool_decide_eq_true_2.
  - rewrite IH. destruct (String.eqb_spec k' k) as [->|Hne]; [|reflexivity].
    by rewrite bool_decide_eq_false_2.
Qed.

Lemma keys_filter needed obj k :
  k ∈ keys (filter (fun kv => kv.1 ∈ needed) obj) <-> k ∈ needed /\ k ∈ keys obj.
Proof.
  rewrite !elem_of_keys. split.
  - intros (v & [H1 H2]%list_elem_of_filter). split; [done|by exists v].
  - intros (H1 & v & H2). exists v. by apply list_elem_of_filter.
Qed.

Lemma get_Some_keys obj k : is_Some (get obj k) <-> k ∈ keys obj.
Proof.
  induction obj as [|[k' v] obj IH]; simpl.
  - split; [intros [? H]; discriminate H|intros H; inversion H].
  - rewrite elem_of_cons. simpl. destruct (String.eqb_spec k' k) as [->|Hne].
    + split; [by left|by eexists].
    + rewrite IH. split; [by right|]. intros [->|H]; done.
Qed.

Lemma get_set obj k v k' :
  get (set obj k v) k' = if String.eqb k k' then Some v else get obj k'.
Proof.
  induction obj as [|[k0 v0] obj IH]; simpl.
  - reflexivity.
  - destruct (String.eqb_spec k0 k) as [->|Hne]; simpl.
    + by destruct (String.eqb_spec k k').
    + rewrite IH. destruct (String.eqb_spec k0 k') as [->|Hne'];
        [|reflexivity].
      destruct (String.eqb_spec k k'); congruence.
Qed.

(** [{...a, ...b}]: the properties of [b] override those of [a]. *)
Lemma get_spread (b : Fields D) : forall (a : Fields D) k,
  NoDup (keys b) ->
  get (spread a b) k = match get b k with Some v => Some v | None => get a k end.
Proof.
  unfold spread. induction b as [|[k0 v0] b IH]; intros a k Hnd; [reflexivity|].
  simpl in *. apply NoDup_cons in Hnd as [Hk0 Hnd].
  rewrite IH by done. rewrite get_set.
  destruct (String.eqb_spec k0 k) as [->|Hne]; [|reflexivity].
  destruct (get b k) eqn:Hget; [|reflexivity].
  exfalso. apply Hk0, get_Some_keys. by eexists.
Qed.

Lemma keys_spread (b : Fields D) : forall (a : Fields D) k,
  k ∈ keys (spread a b) <-> k ∈ keys a \/ k ∈ keys b.
Proof.
  unfold spread. induction b as [|[k0 v0] b IH]; intros a k.
  - simpl. split; [by left|]. intros [H|H]; [done|inversion H].
  - simpl. rewrite IH, <- (get_Some_keys (set a k0 v0)), get_set.
    rewrite elem_of_cons.
    destruct (String.eqb_spec k0 k) as [->|Hne].
    + split; [intros _; right; by left|intros _; left; by eexists].
    + rewrite get_Some_keys.
      split; [intros [H|H]; auto|intros [H|[Heq|H]]; auto; congruence].
Qed.

Lemma deleteMissingKeys_filter (obj : option (Fields D)) needed :
  deleteMissingKeys obj needed = filter (fun kv => kv.1 ∈ needed) <$> obj.
Proof.
  destruct obj as [fields|]; [|reflexivity]. simpl. f_equal.
  rewrite delete_loop. apply filter_agree. intros [k v] Hin. simpl.
  split; [|by left]. intros [H|H]; [done|].
  destruct H. apply elem_of_keys. by exists v.
Qed.

(** X4.  After [deleteMissingKeys] the object holds
    exactly the properties whose key is among the needed ones, with
    their values and in their order, and [undefined] stays
    [undefined]: a needed key reads as before, any other key as
    absent. *)
Theorem deleteMissingKeys_keeps_needed (obj : option (Fields D)) needed :
  deleteMissingKeys obj needed = filter (fun kv => kv.1 ∈ needed) <$> obj
  /\ forall fields k,
       obj = Some fields ->
       (deleteMissingKeys obj needed ≫= fun kept => get kept k)
       = if bool_decide (k ∈ needed) then get fields k else None.
Proof.
  split; [apply deleteMissingKeys_filter|].
  intros fields k ->. rewrite deleteMissingKeys_filter. simpl. apply get_filter.
Qed.

End DecompressorObjects.

(** ** The available decompressors *)
Section SetLists.

Lemma NoDup_setAddAll l : forall seen, NoDup seen -> NoDup (Js.setAddAll seen l).
Proof.
  induction l as [|x l IH]; intros seen Hnd; [exact Hnd|].
  rewrite setAddAll_cons. destruct (Js.includes seen x) eqn:Hx; [by apply IH|].
  apply IH. apply NoDup_app. split; [exact Hnd|]. split.
  - intros y Hy Hyx. apply list_elem_of_singleton in Hyx as ->.
    apply includes_true in Hy. congruence.
  - apply NoDup_singleton.
Qed.

Lemma NoDup_uniq l : NoDup (Js.uniq l).
Proof. apply NoDup_setAddAll, NoDup_nil_2. Qed.

Lemma elem_of_uniq l x : x ∈ Js.uniq l <-> x ∈ l.
Proof.
  unfold Js.uniq. rewrite elem_of_setAddAll. split; [|by right].
  intros [H|H]; [inversion H|done].
Qed.

Lemma elem_of_flatMap_list {A} (f : A -> list string) (l : list A) y :
  y ∈ Js.flatMap f l <-> exists x, x ∈ l /\ y ∈ f x.
Proof.
  unfold Js.flatMap. rewrite elem_of_concat. split.
  - intros (g & Hy & Hg). apply list_elem_of_fmap in Hg as (x & -> & Hx). eauto.
  - intros (x & Hx & Hy). exists (f x). split; [done|].
    apply list_elem_of_fmap. eauto.
Qed.

(** [l.join(', ')] is the empty string only for the empty array and
    for the array that holds just the empty string. *)
Lemma joinWith_comma_empty l :
  NoDup l -> (joinWith ", " l = "" <-> forall x, x ∈ l -> x = "").
Proof.
  intros Hnd. destruct l as [|x [|y l]].
  - split; [intros _ x H; inversion H|reflexivity].
  - simpl. split.
    + intros -> y Hy. by apply list_elem_of_singleton in Hy.
    + intros H. apply H. left.
  - split.
    + change (joinWith ", " (x :: y :: l))
        with (x +:+ ", " +:+ joinWith ", " (y :: l)).
      destruct x; discriminate.
    + intros H. exfalso.
      assert (x = "") as -> by (apply H; left).
      assert (y = "") as -> by (apply H; right; left).
      apply NoDup_cons in Hnd as [Hx _]. apply Hx. left.
Qed.

End SetLists.

Section AvailableDecompressors.

Variable Factory : Type.
Variables createInflate createGunzip createBrotliDecompress : Factory.

Implicit Types (parsers : list PatchedParser) (n : string).
Implicit Types (decompressors : option (Fields Factory)).

Abbreviation setup :=
  (getAvailableDecompressors Factory createInflate createGunzip
     createBrotliDecompress).
Abbreviation standard :=
  (standardDecompressors Factory createInflate createGunzip createBrotliDecompress).
Abbreviation allowsAll parsers :=
  (existsb (fun p => match inflate p with InflateAll => true | _ => false end) parsers).
Abbreviation supplied parsers := (Js.uniq (Js.flatMap inflateNames parsers)).

Lemma allowsAll_spec parsers :
  allowsAll parsers = true <-> exists p, p ∈ parsers /\ inflate p = InflateAll.
Proof.
  rewrite existsb_exists. split.
  - intros (p & Hp & Hi). exists p. split; [by apply list_elem_of_In|].
    by destruct (inflate p).
  - intros (p & Hp & Hi). exists p. split; [by apply list_elem_of_In|].
    by rewrite Hi.
Qed.

Lemma supplied_spec parsers n :
  n ∈ supplied parsers <-> exists p, p ∈ parsers /\ n ∈ inflateNames p.
Proof. by rewrite elem_of_uniq, elem_of_flatMap_list. Qed.

(** The objects and the names that the function computes before its
    check. *)
Lemma setup_unfold parsers decompressors :
  let kept (obj : Fields Factory) :=
    if allowsAll parsers then obj
    else filter (fun kv => kv.1 ∈ supplied parsers) obj in
  let avail := spread (kept standard) (kept (default [] decompressors)) in
  let names :=
    (if allowsAll parsers || Js.includes (supplied parsers) "identity"
     then ["identity"] else []) ++ keys avail in
  setup parsers decompressors =
  if negb (String.eqb
             (joinWith ", " (filter (fun n => n ∉ names) (supplied parsers))) "")
  then Throw (newError
         ("The following decompressors in the parse configuration are not supplied: "
          +:+ joinWith ", " (filter (fun n => n ∉ names) (supplied parsers))))
  else Ok (avail, names).
Proof.
  intros kept avail names. unfold getAvailableDecompressors.
  rewrite !deleteMissingKeys_filter.
  subst names avail kept. cbv beta.
  destruct (allowsAll parsers); cbn [negb]; [reflexivity|].
  destruct decompressors as [d|]; reflexivity.
Qed.

Lemma names_spec parsers decompressors n :
  let kept (obj : Fields Factory) :=
    if allowsAll parsers then obj
    else filter (fun kv => kv.1 ∈ supplied parsers) obj in
  n ∈ (if allowsAll parsers || Js.includes (supplied parsers) "identity"
       then ["identity"] else [])
      ++ keys (spread (kept standard) (kept (default [] decompressors)))
  <-> (n = "identity"
       /\ (allowsAll parsers = true \/ "identity" ∈ supplied parsers))
      \/ ((allowsAll parsers = true \/ n ∈ supplied parsers)
          /\ (n ∈ keys standard \/ n ∈ keys (default [] decompressors))).
Proof.
  intros kept. rewrite elem_of_app, keys_spread. subst kept. cbv beta.
  assert (Hid : n ∈ (if allowsAll parsers || Js.includes (supplied parsers) "identity"
                     then ["identity"] else [])
                <-> n = "identity"
                    /\ (allowsAll parsers = true \/ "identity" ∈ supplied parsers)).
  { destruct (Js.includes (supplied parsers) "identity") eqn:Hinc.
    - apply includes_true in Hinc. rewrite orb_true_r, list_elem_of_singleton. tauto.
    - assert ("identity" ∉ supplied parsers)
        by (rewrite <- includes_true; congruence).
      rewrite orb_false_r.
      destruct (allowsAll parsers);
        rewrite ?list_elem_of_singleton, ?elem_of_nil; intuition congruence. }
  rewrite Hid. destruct (allowsAll parsers).
  - intuition auto.
  - rewrite !keys_filter. intuition congruence.
Qed.

(** X5.  [getAvailableDecompressors] returns, and does
    not throw, exactly when every non-empty name in the [inflate] list
    of a parser is ['identity'], one of the three names of [zlib], or
    a key of the supplied decompressors.  (The missing names are
    tested after they are joined, so the empty name alone is not
    reported.) *)
Theorem decompressors_available_iff parsers decompressors :
  (exists r, setup parsers decompressors = Ok r)
  <-> forall p n, p ∈ parsers -> n ∈ inflateNames p -> n <> "" ->
        n = "identity" \/ n ∈ ["deflate"; "gzip"; "br"]
        \/ n ∈ keys (default [] decompressors).
Proof.
  rewrite setup_unfold. cbv zeta.
  match goal with
  | |- context [String.eqb ?j ""] =>
      destruct (String.eqb_spec j "") as [Hj|Hj]; cbn [negb]
  end.
  - split; [intros _|by eexists].
    match type of Hj with
    | joinWith _ ?l = _ =>
        assert (Hnd : NoDup l) by apply NoDup_filter, NoDup_uniq;
        pose proof (proj1 (joinWith_comma_empty l Hnd) Hj) as Hempty
    end.
    intros p n Hp Hn Hne.
    assert (Hs : n ∈ supplied parsers) by (apply supplied_spec; eauto).
    destruct (decide (n ∈ (if allowsAll parsers
                                || Js.includes (supplied parsers) "identity"
                           then ["identity"] else [])
                          ++ keys (spread
                               (if allowsAll parsers then standard
                                else filter (fun kv => kv.1 ∈ supplied parsers) standard)
                               (if allowsAll parsers then default [] decompressors
                                else filter (fun kv => kv.1 ∈ supplied parsers)
                                       (default [] decompressors)))))
      as [Hin|Hout].
    + apply (names_spec parsers decompressors n) in Hin.
      destruct Hin as [[-> _]|[_ [H|H]]]; auto.
    + destruct Hne. apply Hempty. by apply list_elem_of_filter.
  - split; [intros [r Hr]; discriminate Hr|]. intros Hall. destruct Hj.
    match goal with
    | |- joinWith _ ?l = _ =>
        apply (proj2 (joinWith_comma_empty l (NoDup_filter _ _ (NoDup_uniq _))))
    end.
    intros n [Hout Hs]%list_elem_of_filter.
    destruct (decide (n = "")) as [|Hne]; [done|]. destruct Hout.
    apply (names_spec parsers decompressors n).
    apply supplied_spec in Hs as Hs'. destruct Hs' as (p & Hp & Hn).
    destruct (Hall p n Hp Hn Hne) as [->|H]; [left|right]; auto.
Qed.

Lemma setup_Ok parsers decompressors avail names :
  setup parsers decompressors = Ok (avail, names) ->
  let kept (obj : Fields Factory) :=
    if allowsAll parsers then obj
    else filter (fun kv => kv.1 ∈ supplied parsers) obj in
  avail = spread (kept standard) (kept (default [] decompressors))
  /\ names = (if allowsAll parsers || Js.includes (supplied parsers) "identity"
              then ["identity"] else []) ++ keys avail
  /\ forall n, n ∈ supplied parsers -> n <> "" -> n ∈ names.
Proof.
  rewrite setup_unfold. cbv zeta.
  match goal with
  | |- context [String.eqb ?j ""] =>
      destruct (String.eqb_spec j "") as [Hj|Hj]; cbn [negb]; [|discriminate]
  end.
  intros [= <- <-]. split; [reflexivity|]. split; [reflexivity|].
  intros n Hs Hne.
  match type of Hj with
  | joinWith _ (filter _ ?l) = _ =>
      pose proof (proj1 (joinWith_comma_empty _
                           (NoDup_filter _ l (NoDup_uniq _))) Hj) as Hempty
  end.
  match goal with |- n ∈ ?l => destruct (decide (n ∈ l)) as [|Hout]; [done|] end.
  destruct Hne. apply Hempty. by apply list_elem_of_filter.
Qed.

Lemma getAvailableDecompressors_coherent parsers decompressors avail names :
  setup parsers decompressors = Ok (avail, names) ->
  (forall p n, p ∈ parsers -> n ∈ inflateNames p -> n <> "" -> n ∈ names)
  /\ (forall n, n ∈ names -> n <> "identity" -> is_Some (get avail n))
  /\ ("identity" ∈ names
      <-> exists p, p ∈ parsers
                    /\ (inflate p = InflateAll \/ "identity" ∈ inflateNames p)).
Proof.
  intros Hsetup. destruct (setup_Ok _ _ _ _ Hsetup) as (Havail & Hnames & Hall).
  split; [|split].
  - intros p n Hp Hn Hne. apply Hall; [|done]. apply supplied_spec. eauto.
  - intros n Hn Hne. apply get_Some_keys. rewrite Hnames in Hn.
    apply elem_of_app in Hn as [Hn|Hn]; [|done].
    destruct (_ || _); [|inversion Hn].
    apply list_elem_of_singleton in Hn. congruence.
  - rewrite Hnames, Havail, (names_spec parsers decompressors "identity").
    rewrite allowsAll_spec, supplied_spec. split.
    + intros [[_ H]|[H _]]; destruct H as [(p & Hp & Hi)|(p & Hp & Hi)]; eauto.
    + intros (p & Hp & [Hi|Hi]); left; (split; [done|]); [left|right]; eauto.
Qed.

(** X6.  When [getAvailableDecompressors] returns,
    every non-empty name in the [inflate] list of a parser is among
    the available names, every available name other than ['identity']
    has a factory, and ['identity'] is available exactly when some
    parser has [inflate: true] or lists it. *)
Theorem available_decompressors_coherent parsers decompressors avail names :
  setup parsers decompressors = Ok (avail, names) ->
  (forall p n, p ∈ parsers -> n ∈ inflateNames p -> n <> "" -> n ∈ names)
  /\ (forall n, n ∈ names -> n <> "identity" -> is_Some (get avail n))
  /\ ("identity" ∈ names
      <-> exists p, p ∈ parsers
                    /\ (inflate p = InflateAll \/ "identity" ∈ inflateNames p)).
Proof. apply getAvailableDecompressors_coherent. Qed.

Lemma NoDup_keys_filter (P : string * Factory -> Prop)
    `{!forall x, Decision (P x)} (obj : Fields Factory) :
  NoDup (keys obj) -> NoDup (keys (filter P obj)).
Proof.
  induction obj as [|[k v] obj IH]; [done|].
  simpl. intros [Hk Hnd]%NoDup_cons. rewrite filter_cons.
  destruct (decide (P (k, v))); [|by apply IH].
  simpl. apply NoDup_cons. split; [|by apply IH].
  intros Hin. apply Hk. apply elem_of_keys in Hin as (w & Hw).
  apply list_elem_of_filter in Hw as [_ Hw]. apply elem_of_keys. by exists w.
Qed.

(** X7.  The factories that [getAvailableDecompressors]
    returns, name by name.  If some parser has [inflate: true] or
    lists the name, the factory is the supplied one when there is one
    and the one of [zlib] otherwise; if no parser has [inflate: true]
    and none lists the name, there is no factory under it, supplied
    or not. *)
Theorem available_decompressor_lookup parsers decompressors avail names n :
  NoDup (keys (default [] decompressors)) ->
  setup parsers decompressors = Ok (avail, names) ->
  ((exists p, p ∈ parsers /\ (inflate p = InflateAll \/ n ∈ inflateNames p)) ->
   get avail n = match get (default [] decompressors) n with
                 | Some factory => Some factory
                 | None => get standard n
                 end)
  /\ ((forall p, p ∈ parsers -> inflate p <> InflateAll /\ n ∉ inflateNames p) ->
      get avail n = None).
Proof.
  intros Hnd Hsetup. destruct (setup_Ok _ _ _ _ Hsetup) as (-> & _ & _).
  destruct (allowsAll parsers) eqn:Hall.
  - rewrite get_spread by done. split; [done|].
    apply allowsAll_spec in Hall as (p & Hp & Hi). intros Hno.
    by destruct (Hno p Hp).
  - rewrite get_spread by (by apply NoDup_keys_filter). rewrite !get_filter.
    split.
    + intros (p & Hp & [Hi|Hi]).
      * assert (allowsAll parsers = true) by (apply allowsAll_spec; eauto).
        congruence.
      * rewrite bool_decide_eq_true_2 by (apply supplied_spec; eauto). done.
    + intros Hno. rewrite bool_decide_eq_false_2; [done|].
      intros (p & Hp & Hi)%supplied_spec. by destruct (Hno p Hp).
Qed.

End AvailableDecompressors.

(** The parser of [bodyParser.json({inflate: ['gzip', 'deflate']})]
    with a supplied factory for ['gzip'] and one that is not asked
    for. *)
Lemma available_decompressors_coherent_witness :
  getAvailableDecompressors string "createInflate" "createGunzip"
    "createBrotliDecompress"
    [Examples.gzipJsonConfiguration] (Some [("gzip", "custom"); ("zstd", "unused")])
  = Ok ([("deflate", "createInflate"); ("gzip", "custom")], ["deflate"; "gzip"])
  /\ is_Some (get [("deflate", "createInflate"); ("gzip", "custom")] "gzip").
Proof.
  split; [reflexivity|].
  apply (available_decompressors_coherent string "createInflate" "createGunzip"
           "createBrotliDecompress" [Examples.gzipJsonConfiguration]
           (Some [("gzip", "custom"); ("zstd", "unused")])
           [("deflate", "createInflate"); ("gzip", "custom")] ["deflate"; "gzip"]
           eq_refl).
  - apply (bool_decide_unpack _); vm_compute; exact I.
  - discriminate.
Defined.

Lemma available_decompressor_lookup_witness :
  get [("deflate", "createInflate"); ("gzip", "custom")] "gzip" = Some "custom"
  /\ get [("deflate", "createInflate"); ("gzip", "custom")] "zstd" = None.
Proof.
  split.
  - apply (available_decompressor_lookup string "createInflate" "createGunzip"
             "createBrotliDecompress" [Examples.gzipJsonConfiguration]
             (Some [("gzip", "custom"); ("zstd", "unused")])
             [("deflate", "createInflate"); ("gzip", "custom")] ["deflate"; "gzip"]
             "gzip").
    + apply (bool_decide_unpack _); vm_compute; exact I.
    + reflexivity.
    + exists Examples.gzipJsonConfiguration. split; [left|right; left].
  - apply (available_decompressor_lookup string "createInflate" "createGunzip"
             "createBrotliDecompress" [Examples.gzipJsonConfiguration]
             (Some [("gzip", "custom"); ("zstd", "unused")])
             [("deflate", "createInflate"); ("gzip", "custom")] ["deflate"; "gzip"]
             "zstd").
    + apply (bool_decide_unpack _); vm_compute; exact I.
    + reflexivity.
    + intros p ->%list_elem_of_singleton. split; [discriminate|].
      apply (bool_decide_unpack _); vm_compute; exact I.
Defined.

(** ** Which configuration the dispatcher selects *)
Section Selection.

Lemma filterResult_Ok {A} (f : A -> Result bool) (l : list A) : forall kept,
  filterResult f l = Ok kept ->
  kept = List.filter (fun x => match f x with Ok true => true | _ => false end) l.
Proof.
  induction l as [|x l IH]; intros kept; simpl; [by intros [= <-]|].
  destruct (f x) as [b|e]; simpl; [|discriminate].
  destruct (filterResult f l) as [kept'|e]; simpl; [|discriminate].
  intros [= <-]. rewrite (IH kept' eq_refl). by destruct b.
Qed.

Lemma filterResult_Throw {A} (f : A -> Result bool) (l : list A) e :
  filterResult f l = Throw e -> exists x, x ∈ l /\ f x = Throw e.
Proof.
  induction l as [|x l IH]; simpl; [discriminate|].
  destruct (f x) as [b|e'] eqn:Hx; simpl.
  - destruct (filterResult f l) as [kept'|e'']; simpl; [discriminate|].
    intros [= <-]. destruct (IH eq_refl) as (y & Hy & Hfy).
    exists y. split; [by right|done].
  - intros [= <-]. exists x. split; [left|done].
Qed.

Lemma matchAnyType_Throw (matchers : MediaTypeMatchers) mediaType e :
  matchAnyType matchers mediaType = Throw e ->
  exists f, Predicate f ∈ matchers /\ f mediaType = Throw e.
Proof.
  induction matchers as [|[t|f] matchers IH]; simpl; [discriminate| |].
  - destruct (matchType t mediaType); [discriminate|].
    intros H. destruct (IH H) as (f & Hf & He). exists f. split; [by right|done].
  - destruct (f mediaType) as [[|]|e'] eqn:Hf; simpl.
    + discriminate.
    + intros H. destruct (IH H) as (g & Hg & He). exists g. split; [by right|done].
    + intros [= <-]. exists f. split; [left|done].
Qed.

Lemma find_filter {A} (g h : A -> bool) (l : list A) :
  List.find h (List.filter g l) = List.find (fun x => g x && h x) l.
Proof.
  induction l as [|x l IH]; [reflexivity|].
  simpl. destruct (g x); simpl; [|exact IH].
  destruct (h x); [reflexivity|exact IH].
Qed.

Lemma filter_filter_bool {A} (g h : A -> bool) (l : list A) :
  List.filter h (List.filter g l) = List.filter (fun x => g x && h x) l.
Proof.
  induction l as [|x l IH]; [reflexivity|].
  simpl. destruct (g x); simpl; [|exact IH].
  destruct (h x); [by rewrite IH|exact IH].
Qed.

Lemma find_split {A} (f : A -> bool) (l : list A) x :
  List.find f l = Some x ->
  exists pre post, l = pre ++ x :: post /\ f x = true
                   /\ forall y, y ∈ pre -> f y = false.
Proof.
  induction l as [|y l IH]; simpl; [discriminate|].
  destruct (f y) eqn:Hy.
  - intros [= ->]. exists [], l. split; [reflexivity|]. split; [done|].
    intros z Hz. inversion Hz.
  - intros H. destruct (IH H) as (pre & post & -> & Hx & Hpre).
    exists (y :: pre), post. split; [reflexivity|]. split; [done|].
    intros z [->|Hz]%elem_of_cons; auto.
Qed.

Variable contentTypeParse : option string -> Result ParsedMediaType.
Variable parsers : list PatchedParser.
Variable availableDecompressorNames : list string.
Variable availableBufferEncodings : gmap string BufferEncoder.
Variable availableBufferEncodingNames : list string.
Variable requireContentLength : bool.
Variable defaultContentTypeEncoding : option string.
Variable defaultContentType : option MediaType.

Abbreviation dispatch :=
  (mediaTypeParser contentTypeParse parsers availableDecompressorNames
     availableBufferEncodings availableBufferEncodingNames requireContentLength
     defaultContentTypeEncoding defaultContentType).

(** Whether a configuration accepts the media type, the charset and
    the content encoding of a request. *)
Abbreviation accepts hs pm mt :=
  (fun p : PatchedParser =>
     match matchAnyType (matcher p) mt with Ok true => true | _ => false end
     && matchCharsetEncoding (encodings p)
          (encodingOf defaultContentTypeEncoding pm)
          availableBufferEncodingNames (defaultEncoding p)
     && matchContentEncoding (contentEncodingOf hs) (inflate p)
          availableDecompressorNames).

(** When the media type has been parsed, or left to the default, there
    is a media type. *)
Lemma mediaTypeOf_is_Some hs pm :
  parsedMediaTypeOf contentTypeParse defaultContentType hs = Ok pm ->
  is_Some (mediaTypeOf defaultContentType pm).
Proof.
  unfold parsedMediaTypeOf, mediaTypeOf.
  destruct pm as [parsed|]; [by eexists|].
  destruct (truthy (hs !! "Content-Type")); simpl.
  - destruct (contentTypeParse _); discriminate.
  - case_bool_decide as Hd; simpl; [done|].
    destruct (contentTypeParse _); discriminate.
Qed.

(** The three ways in which [readStream] ends: it calls the callback,
    a media type function throws, or it reaches the hand-over with the
    first configuration that accepts the request. *)
Lemma dispatch_cases req :
  (exists a, dispatch req = Completed a)
  \/ (exists e p f mt,
        dispatch req = Thrown e
        /\ p ∈ parsers /\ Predicate f ∈ matcher p /\ f mt = Throw e)
  \/ (exists hs pm mt pc,
        headers req = Some hs
        /\ parsedMediaTypeOf contentTypeParse defaultContentType hs = Ok pm
        /\ mediaTypeOf defaultContentType pm = Some mt
        /\ List.find (accepts hs pm mt) parsers = Some pc
        /\ dispatch req
           = handOver availableBufferEncodings hs
               (encodingOf defaultContentTypeEncoding pm) pc).
Proof.
  unfold mediaTypeParser.
  destruct (headers req) as [hs|] eqn:Hh; [|left; eauto].
  destruct (bool_decide _ && requireContentLength); [left; eauto|].
  destruct (parsedMediaTypeOf _ _ hs) as [pm|err] eqn:Hpm;
    [|destruct (Js.includes _ _); left; eauto].
  destruct (mediaTypeOf_is_Some hs pm Hpm) as [mt Hmt]. rewrite Hmt.
  destruct (allowedMediaTypeParsers parsers mt) as [allowed|e] eqn:Hal.
  2: { right; left. apply filterResult_Throw in Hal as (p & Hp & He).
       apply matchAnyType_Throw in He as (f & Hf & He). exists e, p, f, mt. eauto. }
  destruct (Nat.eqb (length allowed) 0); [left; eauto|].
  destruct (Nat.eqb (length (allowedCharsetParsers _ _ _)) 0).
  { destruct (negb _); [left; eauto|]. destruct (Js.includes _ _); left; eauto. }
  destruct (bodiless req hs); [left; eauto|].
  destruct (parseConfigurationOf _ _ _) as [pc|] eqn:Hpc.
  2: { destruct (Js.includes _ _); left; eauto. }
  right; right. exists hs, pm, mt, pc. repeat split; try done.
  unfold parseConfigurationOf, allowedCharsetParsers in Hpc.
  apply filterResult_Ok in Hal as ->.
  by rewrite filter_filter_bool, find_filter in Hpc.
Qed.

Lemma handOver_Streaming hs encoding pc args :
  handOver availableBufferEncodings hs encoding pc = Streaming args ->
  parseConfiguration args = pc
  /\ contentEncoding args = contentEncodingOf hs
  /\ contentLength args = contentLengthOf hs
  /\ limit_ args = limit pc.
Proof.
  unfold handOver. destruct (orElse _ None) as [name|]; [|by intros [= <-]].
  destruct (availableBufferEncodings !! name); [by intros [= <-]|discriminate].
Qed.

Lemma dispatch_first_match req args :
  dispatch req = Streaming args ->
  exists hs pm mt pre post,
    headers req = Some hs
    /\ parsedMediaTypeOf contentTypeParse defaultContentType hs = Ok pm
    /\ mediaTypeOf defaultContentType pm = Some mt
    /\ parsers = pre ++ parseConfiguration args :: post
    /\ accepts hs pm mt (parseConfiguration args) = true
    /\ forall q, q ∈ pre -> accepts hs pm mt q = false.
Proof.
  intros Hd. destruct (dispatch_cases req)
    as [(a & Ha)|[(e & p & f & mt & He & _)|(hs & pm & mt & pc & Hh & Hpm & Hmt & Hpc & Ho)]];
    [congruence|congruence|].
  rewrite Hd in Ho. symmetry in Ho. apply handOver_Streaming in Ho as (-> & _).
  apply find_split in Hpc as (pre & post & Hl & Hacc & Hpre).
  exists hs, pm, mt, pre, post. done.
Qed.

(** X12.  The configuration that [readStream] hands over
    to the engine is the first one of the list that accepts the media
    type of the request, its charset and its content encoding: it
    accepts all three, and every configuration before it in the list
    fails one of them. *)
Theorem dispatch_selects_first_match req args :
  dispatch req = Streaming args ->
  exists hs pm mt pre post,
    headers req = Some hs
    /\ parsedMediaTypeOf contentTypeParse defaultContentType hs = Ok pm
    /\ mediaTypeOf defaultContentType pm = Some mt
    /\ parsers = pre ++ parseConfiguration args :: post
    /\ accepts hs pm mt (parseConfiguration args) = true
    /\ forall q, q ∈ pre -> accepts hs pm mt q = false.
Proof. apply dispatch_first_match. Qed.

End Selection.

(** ** The available buffer encodings *)
Section AvailableEncodings.

Variable decoderWrite : string -> Buffer -> Buffer -> JsValue * Buffer.
Variable decoderEnd : string -> Buffer -> JsValue * Buffer.

Implicit Types (parsers : list PatchedParser) (n : string).
Implicit Types (V : gmap string (list string)) (nodeNames : list string).
Implicit Types (bes : option (list BufferEncoder)).

Abbreviation encoders :=
  (getAvailableBufferEncodings decoderWrite decoderEnd).
Abbreviation native := (nativeEncoder decoderWrite decoderEnd).

(** The lower-cased names of the supplied encoders. *)
Abbreviation suppliedNames bes :=
  (match bes with
   | Some bufferEncodings => map Js.toLowerCase (Js.flatMap encodingsOf bufferEncodings)
   | None => []
   end).

(** The encoders in the order of the search: the native ones that are
    not replaced, then the supplied ones. *)
Abbreviation encoderArray V nodeNames bes :=
  (map (native V)
     (filter (fun nodeEncoding =>
                (nodeEncoding ∉ suppliedNames bes) /\ (nodeEncoding ∉ nodeNames))
        nodeBufferEncodings)
   ++ default [] bes).

(** The names that the parsers ask for, with their variations. *)
Abbreviation requestedNames parsers V :=
  (Js.uniq
     (Js.flatMap (variationsOf V)
        (Js.flatMap requestedEncodings
           (filter (fun parser => is_Some (encodings parser)
                                  \/ is_Some (defaultEncoding parser)) parsers)))).

Lemma find_is_Some {A} (f : A -> bool) (l : list A) x :
  x ∈ l -> f x = true -> is_Some (List.find f l).
Proof.
  induction l as [|y l IH]; intros Hin Hx; [inversion Hin|].
  simpl. destruct (f y) eqn:Hy; [by eexists|].
  apply elem_of_cons in Hin as [->|Hin]; [congruence|by apply IH].
Qed.

Lemma find_Some_elem {A} (f : A -> bool) (l : list A) x :
  List.find f l = Some x -> x ∈ l /\ f x = true.
Proof.
  induction l as [|y l IH]; simpl; [discriminate|].
  destruct (f y) eqn:Hy.
  - intros [= ->]. split; [left|done].
  - intros H. destruct (IH H). split; [by right|done].
Qed.

(** The object that [Object.fromEntries] builds, key by key. *)
Lemma encoderEntries_lookup (array : list BufferEncoder) names n :
  encoderEntries array names !! n
  = if bool_decide (n ∈ names)
    then List.find (fun e => Js.includes (encodingsOf e) n) array
    else None.
Proof.
  unfold encoderEntries.
  assert (Hgen : forall entries : gmap string BufferEncoder,
            foldl (fun entries encoding =>
                     match List.find (fun e => Js.includes (encodingsOf e) encoding)
                             array with
                     | Some e => <[encoding := e]> entries
                     | None => entries
                     end) entries names !! n
            = if bool_decide (n ∈ names)
              then match List.find (fun e => Js.includes (encodingsOf e) n) array with
                   | Some e => Some e
                   | None => entries !! n
                   end
              else entries !! n).
  { induction names as [|a names IH]; intros entries; [reflexivity|].
    simpl. rewrite IH.
    destruct (decide (a = n)) as [->|Hne].
    - rewrite (bool_decide_eq_true_2 (n ∈ n :: names)) by left.
      destruct (List.find _ array) as [e|] eqn:Hfind.
      + rewrite lookup_insert_eq. by case_bool_decide.
      + by case_bool_decide.
    - assert (Hiff : n ∈ a :: names <-> n ∈ names).
      { rewrite elem_of_cons. intuition congruence. }
      rewrite (bool_decide_ext _ _ Hiff).
      destruct (List.find (fun e => Js.includes (encodingsOf e) a) array);
        [by rewrite lookup_insert_ne|done]. }
  rewrite Hgen, lookup_empty. case_bool_decide; [|done].
  by destruct (List.find _ array).
Qed.

(** What the function returns when it does not throw. *)
Lemma encoders_Ok parsers V nodeNames bes encs names :
  encoders parsers V nodeNames bes = Ok (encs, names) ->
  NoDup (suppliedNames bes)
  /\ names = filter (fun encoding => encoding ∈ requestedNames parsers V)
               (Js.uniq (Js.flatMap encodingsOf (encoderArray V nodeNames bes)))
  /\ encs = encoderEntries (encoderArray V nodeNames bes) names
  /\ forall n, n ∈ requestedNames parsers V -> n <> "" -> n ∈ names.
Proof.
  unfold getAvailableBufferEncodings.
  destruct (Nat.eqb _ _) eqn:Hlen; cbn [negb]; [|discriminate].
  match goal with
  | |- context [String.eqb ?j ""] =>
      destruct (String.eqb_spec j "") as [Hj|Hj]; cbn [negb]; [|discriminate]
  end.
  intros [= <- <-]. split.
  { apply uniq_check_NoDup. apply Nat.eqb_eq in Hlen. apply Nat.ltb_ge. lia. }
  split; [reflexivity|]. split; [reflexivity|].
  intros n Hn Hne.
  match type of Hj with
  | joinWith _ (filter _ ?l) = _ =>
      pose proof (proj1 (joinWith_comma_empty _
                           (NoDup_filter _ l (NoDup_uniq _))) Hj) as Hempty
  end.
  match goal with |- n ∈ ?l => destruct (decide (n ∈ l)) as [|Hout]; [done|] end.
  destruct Hne. apply Hempty. by apply list_elem_of_filter.
Qed.

Lemma encoders_lookup parsers V nodeNames bes encs names n :
  encoders parsers V nodeNames bes = Ok (encs, names) ->
  (n ∈ names <-> is_Some (encs !! n))
  /\ forall e, encs !! n = Some e ->
       n ∈ encodingsOf e
       /\ (e ∈ default [] bes
           \/ exists nodeEncoding,
                nodeEncoding ∈ nodeBufferEncodings /\ e = native V nodeEncoding).
Proof.
  intros (_ & Hnames & -> & _)%encoders_Ok.
  rewrite encoderEntries_lookup. split.
  - case_bool_decide as Hin; [|by split; [|intros [? ?]]].
    split; [intros _|done].
    rewrite Hnames in Hin. apply list_elem_of_filter in Hin as [_ Hin].
    apply elem_of_uniq, elem_of_flatMap_list in Hin as (e & He & Hn).
    apply (find_is_Some _ _ e He). by apply includes_true.
  - intros e. case_bool_decide; [|discriminate].
    intros [He Hn]%find_Some_elem. split; [by apply includes_true|].
    apply elem_of_app in He as [He|He]; [right|by left].
    apply list_elem_of_fmap in He as (x & -> & [_ Hx]%list_elem_of_filter).
    by exists x.
Qed.

Lemma encoders_requested parsers V nodeNames bes encs names :
  encoders parsers V nodeNames bes = Ok (encs, names) ->
  forall p r n,
    p ∈ parsers ->
    is_Some (encodings p) \/ is_Some (defaultEncoding p) ->
    r ∈ requestedEncodings p -> n ∈ variationsOf V r -> n <> "" ->
    n ∈ names.
Proof.
  intros (_ & _ & _ & Hall)%encoders_Ok p r n Hp Hdef Hr Hn Hne.
  apply Hall; [|done].
  apply elem_of_uniq, elem_of_flatMap_list. exists r. split; [|done].
  apply elem_of_flatMap_list. exists p. split; [|done].
  by apply list_elem_of_filter.
Qed.

(** X9.  When [getAvailableBufferEncodings] returns, the
    keys of the object of encoders are the available names; the
    encoder under a name lists that name and is a supplied encoder or
    the one made for a native encoding; and every non-empty name that
    a parser asks for, with its variations, is available. *)
Theorem available_encodings_coherent parsers V nodeNames bes encs names :
  encoders parsers V nodeNames bes = Ok (encs, names) ->
  (forall n, n ∈ names <-> is_Some (encs !! n))
  /\ (forall n e, encs !! n = Some e ->
        n ∈ encodingsOf e
        /\ (e ∈ default [] bes
            \/ exists nodeEncoding,
                 nodeEncoding ∈ nodeBufferEncodings /\ e = native V nodeEncoding))
  /\ (forall p r n,
        p ∈ parsers ->
        is_Some (encodings p) \/ is_Some (defaultEncoding p) ->
        r ∈ requestedEncodings p -> n ∈ variationsOf V r -> n <> "" ->
        n ∈ names).
Proof.
  intros Hok. split; [|split].
  - intros n. by apply (encoders_lookup parsers V nodeNames bes encs names n).
  - intros n. by apply (encoders_lookup parsers V nodeNames bes encs names n).
  - by apply (encoders_requested parsers V nodeNames bes encs names).
Qed.

Lemma setAddAll_NoDup l : forall seen,
  NoDup (seen ++ l) -> Js.setAddAll seen l = seen ++ l.
Proof.
  induction l as [|x l IH]; intros seen Hnd; [by rewrite app_nil_r|].
  rewrite setAddAll_cons.
  assert (Hx : Js.includes seen x = false).
  { destruct (Js.includes seen x) eqn:Hx; [|done].
    apply includes_true in Hx. apply NoDup_app in Hnd as (_ & Hd & _).
    destruct (Hd x Hx). left. }
  rewrite Hx, IH; rewrite <- app_assoc; done.
Qed.

Lemma uniq_NoDup l : NoDup l -> Js.uniq l = l.
Proof. intros Hnd. by apply (setAddAll_NoDup l []). Qed.


End AvailableEncodings.

(** ** What cannot go wrong after the set-up *)
Section AfterSetup.

Variable Factory : Type.
Variables createInflate createGunzip createBrotliDecompress : Factory.
Variable decoderWrite : string -> Buffer -> Buffer -> JsValue * Buffer.
Variable decoderEnd : string -> Buffer -> JsValue * Buffer.
Variable contentTypeParse : option string -> Result ParsedMediaType.
Variable parsers : list PatchedParser.
Variable requireContentLength : bool.
Variable defaultContentTypeEncoding : option string.
Variable defaultContentType : option MediaType.

(** A name is among its own variations. *)
Lemma variationsOf_self bufferEncodings V nodeNames n :
  getEncodingVariations bufferEncodings = Ok (V, nodeNames) ->
  n ∈ variationsOf V n.
Proof.
  intros Hget. unfold variationsOf.
  destruct (V !! n) as [G|] eqn:Hn; [|left].
  destruct bufferEncodings as [bes|].
  - destruct (variations_cases bes V nodeNames n G Hget Hn)
      as [(_ & Hin & _)|[HG _]]; [done|].
    by destruct (builtinVariations_lookup n G HG) as (_ & Hin & _).
  - injection Hget as <- _.
    by destruct (builtinVariations_lookup n G Hn) as (_ & Hin & _).
Qed.

Lemma contentEncodingOf_not_empty hs : contentEncodingOf hs <> "".
Proof.
  unfold contentEncodingOf.
  destruct (Js.toLowerCase _) as [|c r]; discriminate.
Qed.

Lemma dispatch_decompressor
    (decompressors : option (Fields Factory)) (avail : Fields Factory)
    (names : list string) (encs : gmap string BufferEncoder)
    (encodingNames : list string) (req : Request) (args : EngineArgs) :
  getAvailableDecompressors Factory createInflate createGunzip
    createBrotliDecompress parsers decompressors = Ok (avail, names) ->
  mediaTypeParser contentTypeParse parsers names encs encodingNames
    requireContentLength defaultContentTypeEncoding defaultContentType req
  = Streaming args ->
  contentEncoding args = "identity"
  \/ is_Some (get avail (contentEncoding args)).
Proof.
  intros Hsetup Hd.
  destruct (getAvailableDecompressors_coherent _ _ _ _ _ _ _ _ Hsetup)
    as (Hlisted & Hfactory & _).
  destruct (dispatch_cases contentTypeParse parsers names encs encodingNames
              requireContentLength defaultContentTypeEncoding defaultContentType req)
    as [(a & Ha)|[(e & p & f & mt & He & _)
                 |(hs & pm & mt & pc & Hh & Hpm & Hmt & Hpc & Ho)]];
    [congruence|congruence|].
  rewrite Hd in Ho. symmetry in Ho.
  apply handOver_Streaming in Ho as (_ & -> & _).
  apply find_Some_elem in Hpc as [Hpc Hacc].
  apply andb_prop in Hacc as [_ Hce]. unfold matchContentEncoding in Hce.
  destruct (String.eqb_spec (contentEncodingOf hs) "identity") as [|Hne];
    [by left|right].
  apply includes_true in Hce. apply Hfactory; [|done].
  destruct (inflate pc) as [|listed] eqn:Hi; [done|].
  apply (Hlisted pc); [done| |apply contentEncodingOf_not_empty].
  unfold inflateNames. by rewrite Hi.
Qed.

(** X8.  With the names that [getAvailableDecompressors]
    returns, whenever [readStream] hands a request over to the engine
    the content encoding is ['identity'] or has a factory among the
    available decompressors, so that the call
    [availableDecompressors[contentEncoding]()] of [decompressStream]
    finds a function. *)
Theorem hand_over_has_decompressor
    (decompressors : option (Fields Factory)) (avail : Fields Factory)
    (names : list string) (encs : gmap string BufferEncoder)
    (encodingNames : list string) (req : Request) (args : EngineArgs) :
  getAvailableDecompressors Factory createInflate createGunzip
    createBrotliDecompress parsers decompressors = Ok (avail, names) ->
  mediaTypeParser contentTypeParse parsers names encs encodingNames
    requireContentLength defaultContentTypeEncoding defaultContentType req
  = Streaming args ->
  contentEncoding args = "identity"
  \/ is_Some (get avail (contentEncoding args)).
Proof. apply dispatch_decompressor. Qed.

Lemma dispatch_thrown_by_matcher
    (bufferEncodings : option (list BufferEncoder))
    (V : gmap string (list string)) (nodeNames : list string)
    (names : list string) (encs : gmap string BufferEncoder)
    (encodingNames : list string) (req : Request) (e : JsError) :
  getEncodingVariations bufferEncodings = Ok (V, nodeNames) ->
  getAvailableBufferEncodings decoderWrite decoderEnd parsers V nodeNames
    bufferEncodings = Ok (encs, encodingNames) ->
  mediaTypeParser contentTypeParse parsers names encs encodingNames
    requireContentLength defaultContentTypeEncoding defaultContentType req
  = Thrown e ->
  exists p f mt, p ∈ parsers /\ Predicate f ∈ matcher p /\ f mt = Throw e.
Proof.
  intros HV Henc Hd.
  destruct (dispatch_cases contentTypeParse parsers names encs encodingNames
              requireContentLength defaultContentTypeEncoding defaultContentType req)
    as [(a & Ha)|[(e' & p & f & mt & He & H)
                 |(hs & pm & mt & pc & Hh & Hpm & Hmt & Hpc & Ho)]];
    [congruence| |].
  { rewrite Hd in He. injection He as <-. eauto. }
  exfalso. rewrite Hd in Ho. unfold handOver in Ho.
  apply find_Some_elem in Hpc as [Hpc Hacc].
  apply andb_prop in Hacc as [Hacc _]. apply andb_prop in Hacc as [_ Hcs].
  unfold matchCharsetEncoding in Hcs.
  set (d := orElse (encodingOf defaultContentTypeEncoding pm) (defaultEncoding pc)) in *.
  assert (Hname : forall name, d = Some name -> Js.truthyStr name = true ->
                    name ∈ encodingNames -> False).
  { intros name Hdn Ht Hin. rewrite Hdn in Ho. simpl in Ho. rewrite Ht in Ho.
    apply (encoders_lookup _ _ _ _ _ _ _ _ name Henc) in Hin as [x Hx].
    rewrite Hx in Ho. discriminate Ho. }
  destruct (encodings pc) as [[|listed]|] eqn:Hencs.
  - destruct d as [name|] eqn:Hdn; [|discriminate].
    apply andb_prop in Hcs as [Ht Hin]. apply includes_true in Hin. eauto.
  - destruct d as [name|] eqn:Hdn; [|discriminate].
    apply andb_prop in Hcs as [Ht Hin]. apply includes_true in Hin.
    apply (Hname name eq_refl Ht).
    apply (encoders_requested _ _ _ _ _ _ _ _ Henc pc name name);
      [done|left; by rewrite Hencs| |by apply (variationsOf_self bufferEncodings V nodeNames)
      |by destruct name].
    unfold requestedEncodings. rewrite Hencs.
    destruct (defaultEncoding pc) as [own|]; [|done].
    destruct (Js.truthyStr own); [by right|done].
  - destruct d as [name|]; [|discriminate Ho]. simpl in Hcs, Ho.
    destruct (Js.truthyStr name); [discriminate Hcs|discriminate Ho].
Qed.

(** X11.  With the record of [getEncodingVariations]
    and the encoders of [getAvailableBufferEncodings] for the same
    parsers, the only exception that leaves [readStream] is one thrown
    by a media type function of a parser: the encoder of the charset
    is always found, and the error for a missing content type is never
    reached. *)
Theorem dispatch_throws_only_from_matchers
    (bufferEncodings : option (list BufferEncoder))
    (V : gmap string (list string)) (nodeNames : list string)
    (names : list string) (encs : gmap string BufferEncoder)
    (encodingNames : list string) (req : Request) (e : JsError) :
  getEncodingVariations bufferEncodings = Ok (V, nodeNames) ->
  getAvailableBufferEncodings decoderWrite decoderEnd parsers V nodeNames
    bufferEncodings = Ok (encs, encodingNames) ->
  mediaTypeParser contentTypeParse parsers names encs encodingNames
    requireContentLength defaultContentTypeEncoding defaultContentType req
  = Thrown e ->
  exists p f mt, p ∈ parsers /\ Predicate f ∈ matcher p /\ f mt = Throw e.
Proof. apply dispatch_thrown_by_matcher. Qed.

End AfterSetup.

(** ** The streaming engine: one call, chunks, and the end of the stream *)
Section EngineRuns.

Variable jsonStringify : JsValue -> option string.
Variable availableDecompressors : gmap string (Result unit).
Variable availableDecompressorNames : list string.
Variable args : EngineArgs.
Variable heldDecoders : Decoders.

Abbreviation start :=
  (rawBodyParser availableDecompressors availableDecompressorNames args heldDecoders).
Abbreviation step := (handle jsonStringify args).
Abbreviation engine :=
  (run jsonStringify availableDecompressors availableDecompressorNames args
     heldDecoders).

Implicit Types (s : EngineState) (ev : StreamEvent) (cs : list Buffer).

(** One event on an engine that has not called the callback: it
    still has not, or it has called it once. *)
Lemma handle_calls s ev :
  complete s = false -> calls s = [] ->
  (complete (step s ev) = false /\ calls (step s ev) = [])
  \/ (complete (step s ev) = true
      /\ exists a, calls (step s ev) = [{| deferred := sync s; arg := a |}]).
Proof.
  intros Hc Hk. unfold handle. destruct (listening s); [|by left].
  destruct ev; unfold onAborted, onData, onEnd, cleanup; rewrite Hc.
  - right. simpl. rewrite Hk. eauto.
  - destruct (limit_ args) as [lim|]; [|by left].
    destruct (Number.gt _ lim); [|by left].
    right. simpl. rewrite Hk. eauto.
  - repeat match goal with
           | |- context [if ?b then _ else _] => destruct b
           | |- context [match ?x with _ => _ end] => destruct x
           end; right; simpl; rewrite Hk; eauto.
  - repeat match goal with
           | |- context [if ?b then _ else _] => destruct b
           | |- context [match ?x with _ => _ end] => destruct x
           end; right; simpl; rewrite Hk; eauto.
  - by left.
Qed.

Lemma calls_invariant evs : forall s,
  (complete s = false -> calls s = []) ->
  (complete s = true -> length (calls s) = 1%nat) ->
  (complete (foldl step s evs) = false -> calls (foldl step s evs) = [])
  /\ (complete (foldl step s evs) = true -> length (calls (foldl step s evs)) = 1%nat).
Proof.
  induction evs as [|ev evs IH]; intros s H0 H1; [done|].
  simpl. apply IH.
  - destruct (complete s) eqn:Hc.
    + destruct (handle_complete jsonStringify args s ev Hc) as (Hc' & _). congruence.
    + destruct (handle_calls s ev Hc (H0 eq_refl)) as [[_ Hk]|[Hc' _]]; [done|congruence].
  - destruct (complete s) eqn:Hc.
    + destruct (handle_complete jsonStringify args s ev Hc) as (_ & _ & ->). auto.
    + destruct (handle_calls s ev Hc (H0 eq_refl)) as [[Hc' _]|[_ (a & ->)]];
        [congruence|done].
Qed.

(** X13.  Whatever the events of the stream and their
    order, the engine calls the callback at most once, and it has
    called it exactly when [complete] is set. *)
Theorem callback_called_at_most_once (evs : list StreamEvent) :
  (length (calls (engine evs)) <= 1)%nat
  /\ (complete (engine evs) = true <-> length (calls (engine evs)) = 1%nat).
Proof.
  destruct (calls_invariant evs start) as [H0 H1].
  { unfold rawBodyParser. destruct (decompressStream _ _ _); simpl; done. }
  { unfold rawBodyParser. destruct (decompressStream _ _ _); simpl; done. }
  fold (engine evs) in H0, H1.
  destruct (complete (engine evs)).
  - rewrite H1 by done. split; [lia|done].
  - rewrite H0 by done. split; [simpl; lia|]. split; discriminate.
Qed.

(** After ['close'] the listeners are removed: later events change
    nothing. *)
Lemma nothing_happens_after_close (pre suf : list StreamEvent) :
  engine (pre ++ Close :: suf) = engine (pre ++ [Close]).
Proof.
  rewrite (run_app _ _ _ _ _ pre (Close :: suf)), (run_app _ _ _ _ _ pre [Close]).
  simpl. apply deaf_engine.
  generalize (engine pre). intros s.
  unfold handle. destruct (listening s) eqn:Hl; [reflexivity|exact Hl].
Qed.

End EngineRuns.


Section EngineData.

Variable jsonStringify : JsValue -> option string.
Variable availableDecompressors : gmap string (Result unit).
Variable availableDecompressorNames : list string.
Variable args : EngineArgs.
Variable heldDecoders : Decoders.

Abbreviation start :=
  (rawBodyParser availableDecompressors availableDecompressorNames args heldDecoders).
Abbreviation step := (handle jsonStringify args).
Abbreviation engine :=
  (run jsonStringify availableDecompressors availableDecompressorNames args
     heldDecoders).

Implicit Types (s : EngineState) (ev : StreamEvent) (cs : list Buffer).

(** The byte count [r] does not exceed the limit, if there is one. *)
Abbreviation withinLimit r :=
  (forall lim, limit_ args = Some lim -> Number.gt (Num r) lim = false).

(** The number of bytes of the chunks [cs]. *)
Abbreviation size cs := (Z.of_nat (length (concat cs))).

Lemma concatBuffers_buffers cs : concatBuffers (map VBuffer cs) = concat cs.
Proof.
  unfold concatBuffers, Js.flatMap. induction cs as [|c cs IH]; [reflexivity|].
  simpl. by rewrite IH.
Qed.

Lemma flatMap_id cs : Js.flatMap id cs = concat cs.
Proof. unfold Js.flatMap. by rewrite map_id. Qed.

(** Without a chunked decoder the chunks are stored as they are and
    the decoders are not touched. *)
Lemma pushChunks_None cs (decoders : Decoders) :
  pushChunks None decoders cs = (map VBuffer cs, decoders).
Proof.
  induction cs as [|c cs IH]; [reflexivity|]. simpl. by rewrite IH.
Qed.

(** X16.  For the content encoding ['identity'] and a
    [Content-Length] that differs from the number of bytes received
    (within the limit), the end of the stream makes the one call of
    the callback, with the 400 error of type ['request.size.invalid']
    that carries the expected and the received count, however the
    body was cut into chunks and whatever decoder and parser are
    configured. *)
Theorem size_mismatch_is_rejected cs (expected : JsNumber) :
  Js.includes availableDecompressorNames "identity" = true ->
  contentEncoding args = "identity" ->
  contentLength args = Some expected ->
  withinLimit (size cs) ->
  Num (size cs) <> expected ->
  calls (engine (map Data cs ++ [End_])) =
  [{| deferred := false;
      arg := CbError (HttpErrors.createError 400
               "request size did not match content length"
               [("expected", HttpErrors.PNumber expected);
                ("length", HttpErrors.PNumber expected);
                ("received", HttpErrors.PNumber (Num (size cs)));
                ("type", HttpErrors.PString "request.size.invalid")]) |}].
Proof.
  intros Hnames Hce Hcl Hle Hne.
  rewrite run_app, run_data_start; [|unfold decompressStream; by rewrite Hce, Hnames|done].
  simpl. unfold handle, onEnd. simpl. rewrite Hcl, Hce. simpl.
  rewrite bool_decide_eq_false_2 by congruence. reflexivity.
Qed.

(** X17.  When the stream ends without a byte received
    and there is no [Content-Length], the callback receives the
    [emptyResponse] of the configuration ([undefined] if it has none):
    neither the parser nor [verify] is called. *)
Theorem empty_body_yields_empty_response cs :
  decompressStream availableDecompressors availableDecompressorNames args = Ok () ->
  contentLength args = None ->
  withinLimit 0 ->
  size cs = 0 ->
  calls (engine (map Data cs ++ [End_])) =
  [{| deferred := false;
      arg := CbBody (default VUndefined (emptyResponse (parseConfiguration args))) |}].
Proof.
  intros Hstart Hcl Hle Hsize.
  rewrite run_app, run_data_start; [|done|by rewrite Hsize].
  simpl. unfold handle, onEnd. simpl. rewrite Hcl, Hsize. reflexivity.
Qed.

(** X15.  When the decoding is not made chunk by
    chunk, the call of the callback at the end of a stream that stays
    within the limit depends only on the bytes received, not on how
    they were cut into chunks: the chunks [cs] give the call that
    their concatenation gives as one chunk. *)
Theorem chunking_is_irrelevant_without_decoder (cs : list Buffer) :
  bufferEncodingIsStreamDecoder args = false ->
  withinLimit (size cs) ->
  calls (engine (map Data cs ++ [End_])) = calls (engine [Data (concat cs); End_]).
Proof.
  intros Hflag Hle.
  destruct (decompressStream availableDecompressors availableDecompressorNames args)
    as [[]|err] eqn:Hstart.
  2: { unfold run, rawBodyParser. rewrite Hstart.
       by rewrite !deaf_engine. }
  assert (Hone : size [concat cs] = size cs) by (simpl; by rewrite app_nil_r).
  change [Data (concat cs); End_] with (map Data [concat cs] ++ [End_]).
  rewrite !run_app, !run_data_start; try done; [|by rewrite Hone].
  rewrite Hone. simpl. unfold handle, onEnd, streamDecoder. rewrite Hflag. simpl.
  rewrite !pushChunks_None. simpl.
  rewrite andb_false_r, concatBuffers_buffers.
  change (concatBuffers [VBuffer (concat cs)]) with (concat cs ++ []).
  rewrite ?app_nil_r.
  repeat match goal with
         | |- context [if ?b then _ else _] => destruct b
         | |- context [match ?x with _ => _ end] => destruct x
         end; reflexivity.
Qed.

(** X14.  A stream that is closed after data within the
    limit, before any ['end'], ['error'] or ['aborted'], never has the
    callback called, whatever events come after the ['close']: the
    listeners are gone. *)
Theorem close_before_end_never_calls cs (evs : list StreamEvent) :
  decompressStream availableDecompressors availableDecompressorNames args = Ok () ->
  withinLimit (size cs) ->
  calls (engine (map Data cs ++ Close :: evs)) = [].
Proof.
  intros Hstart Hle.
  rewrite nothing_happens_after_close, run_app, run_data_start by done.
  reflexivity.
Qed.

(** What the chunked decoder [c] makes of the chunks [cs]: the
    result of [reduce] on the pieces of [onData], chunk after chunk
    from the decoders as the earlier requests left them, and on the
    piece of [onEnd()]. *)
Abbreviation reduced c cs :=
  (reduce c ((pushChunks (Some c) heldDecoders cs).1
             ++ [(BufferEncoding.onEnd c
                    (pushChunks (Some c) heldDecoders cs).2).1])).

(** X18.  With a chunked decoder and a [verify] function,
    at the end of a non-empty stream within the limit, whose size is
    the [Content-Length] if the content encoding is ['identity'] and
    there is one, the parser receives what [reduce] makes of the
    decoded chunks and of [onEnd()], and [verify] receives the
    concatenation of the raw chunks together with the parsed body; an
    exception of [verify] becomes the 403 error of type
    ['entity.verify.failed'] (or the status and type of the
    exception). *)
Theorem verify_receives_the_raw_bytes cs (c : ChunkedBufferEncoder)
    (check : VerifyFn) :
  decompressStream availableDecompressors availableDecompressorNames args = Ok () ->
  streamDecoder args = Some c ->
  verify (parseConfiguration args) = Some check ->
  (contentEncoding args = "identity" ->
   forall expected, contentLength args = Some expected -> expected = Num (size cs)) ->
  withinLimit (size cs) ->
  size cs <> 0 ->
  calls (engine (map Data cs ++ [End_])) =
  [{| deferred := false;
      arg :=
        match
          match parser (parseConfiguration args) with
          | Some parse => parse (reduced c cs)
          | None => Ok (reduced c cs)
          end
        with
        | Throw err =>
            CbError (HttpErrors.createError (statusOr err 400)
                       ("Parse error: " +:+ e_message err)
                       [("body", HttpErrors.PValue (reduced c cs));
                        ("type", HttpErrors.PString
                                   (typeOr err "entity.parse.failed"))])
        | Ok body =>
            match check (VBuffer (concat cs)) body (defaultEncoding_ args) with
            | Ok _ => CbBody body
            | Throw err =>
                CbError (HttpErrors.createError (statusOr err 403)
                           ("Verify function did not match: " +:+ e_message err)
                           [("body",
                             match body with
                             | VString text => HttpErrors.PString text
                             | _ =>
                                 match jsonStringify body with
                                 | Some text => HttpErrors.PString text
                                 | None => HttpErrors.PUndefined
                                 end
                             end);
                            ("type", HttpErrors.PString
                                       (typeOr err "entity.verify.failed"))])
            end
        end |}].
Proof.
  intros Hstart Hdec Hver Hcl Hle Hsize.
  assert (Hflag : bufferEncodingIsStreamDecoder args = true).
  { unfold streamDecoder in Hdec. by destruct (bufferEncodingIsStreamDecoder args). }
  rewrite run_app, run_data_start by done.
  simpl. unfold handle, onEnd. simpl.
  assert (Hcheck : bool_decide (is_Some (contentLength args))
                   && negb (bool_decide (Some (Num (size cs)) = contentLength args))
                   && String.eqb (contentEncoding args) "identity" = false).
  { destruct (String.eqb_spec (contentEncoding args) "identity") as [Hid|Hne];
      [|apply andb_false_r].
    destruct (contentLength args) as [expected|] eqn:Hexp; [|reflexivity].
    rewrite (Hcl Hid expected eq_refl).
    apply andb_false_intro1, andb_false_intro2.
    by rewrite bool_decide_eq_true_2. }
  rewrite Hcheck, Hdec, Hver, Hflag.
  assert ((size cs =? 0) = false) as -> by (by apply Z.eqb_neq).
  simpl. rewrite flatMap_id.
  destruct (encodings (parseConfiguration args)); simpl.
  all: repeat match goal with
         | |- context [match ?x with _ => _ end] => destruct x
         end; reflexivity.
Qed.

(** X19.  Without a limit ([limit] is [null], as for a
    limit string that [bytes] cannot read) no sequence of events makes
    the engine call the callback with the error
    ['request entity too large']. *)
Theorem no_limit_no_entity_too_large (evs : list StreamEvent) :
  limit_ args = None ->
  forall inv e, inv ∈ calls (engine evs) -> arg inv = CbError e ->
    HttpErrors.message e <> "request entity too large".
Proof.
  intros Hlim.
  assert (Hstep : forall s ev,
            (forall inv e, inv ∈ calls s -> arg inv = CbError e ->
               HttpErrors.message e <> "request entity too large") ->
            forall inv e, inv ∈ calls (step s ev) -> arg inv = CbError e ->
              HttpErrors.message e <> "request entity too large").
  { intros s ev Hs. unfold handle. destruct (listening s); [|exact Hs].
    destruct ev; unfold onAborted, onData, onEnd, cleanup; rewrite ?Hlim;
      repeat match goal with
             | |- context [if ?b then _ else _] => destruct b
             | |- context [match ?x with _ => _ end] => destruct x
             end; try exact Hs.
    all: intros inv x Hin Hx; simpl in Hin;
      apply elem_of_app in Hin as [Hin|Hin]; [by apply (Hs inv)|];
      apply list_elem_of_singleton in Hin; subst inv; simpl in Hx;
      try discriminate Hx; injection Hx as <-; simpl; discriminate. }
  assert (Hinit : forall inv e, inv ∈ calls start -> arg inv = CbError e ->
            HttpErrors.message e <> "request entity too large").
  { unfold rawBodyParser. destruct (decompressStream _ _ _); simpl.
    - intros inv e Hin. inversion Hin.
    - intros inv x Hin Hx. apply list_elem_of_singleton in Hin. subst inv.
      simpl in Hx. injection Hx as <-. simpl. discriminate. }
  unfold run. revert Hinit. generalize start.
  induction evs as [|ev evs IH]; intros s0 H0; [exact H0|].
  simpl. apply IH. by apply Hstep.
Qed.

End EngineData.


(** ** The query string parser *)
Section QuerystringParser.

Variable querystringParse : string -> JsNumber -> JsValue.

(** The number of ['&'] in a text. *)
Abbreviation ampersands body :=
  (Z.of_nat (length (filter (fun c => c = "&"%char) (list_ascii_of_string body)))).

Lemma ampersands_cons c body :
  ampersands (String c body)
  = (if Ascii.eqb c "&"%char then 1 else 0) + ampersands body.
Proof.
  simpl. rewrite filter_cons.
  destruct (Ascii.eqb_spec c "&"%char) as [->|Hne].
  - rewrite decide_True by done. simpl length. lia.
  - rewrite decide_False by done. lia.
Qed.

Lemma parameterCountFrom_spec body : forall count limit,
  parameterCountFrom body count limit
  = match limit with
    | Num l =>
        if (count <? l) && (l <=? count + ampersands body) then None
        else Some (count + ampersands body)
    | _ => Some (count + ampersands body)
    end.
Proof.
  induction body as [|c body IH]; intros count limit.
  - simpl. rewrite Z.add_0_r. destruct limit as [l| | |]; try reflexivity.
    destruct (Z.ltb_spec count l), (Z.leb_spec l count); simpl; try reflexivity; lia.
  - rewrite ampersands_cons. simpl parameterCountFrom.
    destruct (Ascii.eqb c "&"%char).
    + case_bool_decide as Hl.
      * subst limit.
        destruct (Z.ltb_spec count (count + 1)),
                 (Z.leb_spec (count + 1) (count + (1 + ampersands body)));
          simpl; try reflexivity; lia.
      * rewrite IH. destruct limit as [l| | |]; try (f_equal; lia).
        assert (l <> count + 1) by congruence.
        replace (count + 1 + ampersands body) with (count + (1 + ampersands body)) by lia.
        destruct (Z.ltb_spec (count + 1) l), (Z.ltb_spec count l);
          simpl; try reflexivity; lia.
    + rewrite IH. reflexivity.
Qed.

Lemma parameterCount_ampersands (body : string) (limit : JsNumber) :
  parameterCount body limit
  = match limit with
    | Num l =>
        if (1 <=? l) && (l <=? ampersands body) then None
        else Some (ampersands body)
    | _ => Some (ampersands body)
    end.
Proof.
  unfold parameterCount. rewrite parameterCountFrom_spec.
  destruct limit as [l| | |]; try reflexivity.
  rewrite !Z.add_0_l.
  destruct (Z.ltb_spec 0 l), (Z.leb_spec 1 l); simpl; try reflexivity; lia.
Qed.

(** X20.  [parameterCount(body, limit)] is the number of ['&']
    in the body, or [undefined] when that number is at least the
    limit and the limit is at least one; with the limit [0] (or with a
    limit that is not an integer) it always returns the number. *)
Theorem parameterCount_spec (body : string) (limit : JsNumber) :
  parameterCount body limit
  = match limit with
    | Num l =>
        if (1 <=? l) && (l <=? ampersands body) then None
        else Some (ampersands body)
    | _ => Some (ampersands body)
    end.
Proof. apply parameterCount_ampersands. Qed.

(** X21.  [getQuerystringParser(maxKeys)] throws for a
    negative [maxKeys]; otherwise the parser that it returns throws
    the 413 error ['too many parameters'] exactly for a payload with
    at least [maxKeys] ampersands when [maxKeys] is at least one, and
    parses every payload when [maxKeys] is [0] or [Infinity] (which it
    passes on as [0]). *)
Theorem querystring_parser_limits_the_keys (maxKeys : Z) :
  (maxKeys < 0 ->
   getQuerystringParser querystringParse (Num maxKeys)
   = Throw (newError "maxKeys can not be smaller than 0"))
  /\ (0 <= maxKeys ->
      exists parse,
        getQuerystringParser querystringParse (Num maxKeys) = Ok parse
        /\ forall payload : string,
             parse (VString payload)
             = if (1 <=? maxKeys) && (maxKeys <=? ampersands payload)
               then Throw tooManyParameters
               else Ok (querystringParse payload (Num maxKeys)))
  /\ exists parse,
       getQuerystringParser querystringParse PosInfinity = Ok parse
       /\ forall payload : string,
            parse (VString payload) = Ok (querystringParse payload (Num 0)).
Proof.
  unfold getQuerystringParser, Number.gt. split; [|split].
  - intros Hneg. by rewrite (proj2 (Z.ltb_lt maxKeys 0)).
  - intros Hpos. rewrite (proj2 (Z.ltb_ge maxKeys 0)) by done.
    eexists. split; [reflexivity|]. intros payload. cbv beta.
    rewrite bool_decide_eq_false_2 by discriminate.
    simpl Value.toString. rewrite parameterCount_ampersands.
    by destruct (_ && _).
  - eexists. split; [reflexivity|]. intros payload. cbv beta.
    rewrite bool_decide_eq_true_2 by done.
    simpl Value.toString. rewrite parameterCount_ampersands.
    simpl. reflexivity.
Qed.

End QuerystringParser.

(** ** The record of variations and the normalised names *)
Section VariationGroups.

Implicit Types (V : gmap string (list string)) (k m n d : string).
Implicit Types (G names nodeNames : list string).

(** X22.  [getEncodingVariations] throws for a list of
    encoders exactly when a name occurs twice among all their
    [encodings], in one encoder or in two. *)
Theorem repeated_encoding_names_are_rejected (bufferEncodings : list BufferEncoder) :
  getEncodingVariations (Some bufferEncodings)
  = Throw (newError
      "Same encoding is supplied more than one time in BufferEncoding object.")
  <-> ~ NoDup (Js.flatMap encodingsOf bufferEncodings).
Proof.
  unfold getEncodingVariations.
  destruct (Nat.ltb _ _) eqn:Hcheck.
  - split; [intros _ Hnd|done].
    rewrite (uniq_NoDup _ Hnd) in Hcheck. apply Nat.ltb_lt in Hcheck. lia.
  - split; [discriminate|]. intros Hnd. destruct Hnd. by apply uniq_check_NoDup.
Qed.

(** X23.  The record that [getEncodingVariations] returns
    maps a name to a group of at least two names that contains the
    name itself, and every name of the group is a key with the same
    group. *)
Theorem encoding_variations_are_groups
    (bufferEncodings : option (list BufferEncoder)) V nodeNames k G :
  getEncodingVariations bufferEncodings = Ok (V, nodeNames) ->
  V !! k = Some G ->
  k ∈ G /\ (2 <= length G)%nat /\ forall m, m ∈ G -> V !! m = Some G.
Proof.
  intros Hget Hk. split; [|split].
  - pose proof (variationsOf_self bufferEncodings V nodeNames k Hget) as Hself.
    unfold variationsOf in Hself. by rewrite Hk in Hself.
  - destruct bufferEncodings as [bes|].
    + destruct (variations_cases bes V nodeNames k G Hget Hk)
        as [(_ & _ & Hlen)|[HG _]]; [lia|].
      destruct (builtinVariations_lookup k G HG) as (_ & _ & Hlen & _). lia.
    + injection Hget as <- _.
      destruct (builtinVariations_lookup k G Hk) as (_ & _ & Hlen & _). lia.
  - intros m Hm. by apply (getEncodingVariations_closed bufferEncodings V nodeNames k).
Qed.

(** The result of [normalizeEncodings] has no name twice, and it holds
    exactly the variations of the given names in lower case. *)
Lemma normalizeEncodings_members names V n :
  NoDup (normalizeEncodings names V)
  /\ (n ∈ normalizeEncodings names V
      <-> exists name, name ∈ names /\ n ∈ variationsOf V (Js.toLowerCase name)).
Proof.
  unfold normalizeEncodings. split; [apply NoDup_uniq|].
  rewrite elem_of_uniq, elem_of_flatMap_list. split.
  - intros (x & Hx & Hn). apply list_elem_of_fmap in Hx as (name & -> & Hname). eauto.
  - intros (name & Hname & Hn). exists (Js.toLowerCase name). split; [|done].
    apply list_elem_of_fmap. eauto.
Qed.

(** X24.  For a configuration with a list of
    [encodings] and a [defaultEncoding] in ASCII that is not the name
    of a property inherited from [Object.prototype], resolved by
    [getEncodings] over the record of encoders whose names are written
    in lower-case ASCII and are not ['__proto__']: a request without
    charset is accepted by [matchCharsetEncoding] exactly when the
    [defaultEncoding] is written in lower case.  (The listed names are
    converted to lower case, the default encoding is compared as it
    was given.) *)
Theorem default_encoding_must_be_lower_case
    (bufferEncodings : option (list BufferEncoder)) V nodeNames
    (listed : EncodingsOption) d (third : option string)
    (availableBufferEncodingNames : list string) (settings : EncodingSettings) :
  getEncodingVariations bufferEncodings = Ok (V, nodeNames) ->
  plainNames bufferEncodings = true ->
  Js.truthyStr d = true ->
  Js.isAscii d = true ->
  d ∉ Js.objectPrototypeNames ->
  (exists name, listed = EncodingsString name /\ Js.truthyStr name = true)
  \/ (exists names, listed = EncodingsArray names) ->
  getEncodings listed (Some d) V third = Ok settings ->
  matchCharsetEncoding (es_encodings settings) None availableBufferEncodingNames
    (es_defaultEncoding settings)
  = bool_decide (Js.toLowerCase d = d).
Proof.
  intros Hget Hlower%plainNames_lower Hd _ _ Hlisted.
  unfold getEncodings, ownDefaultEncoding.
  assert (Hnot : bool_decide (listed = EncodingsBool true) = false
                 /\ encodingsFalsy listed = false).
  { destruct Hlisted as [(name & -> & Hname)|(names & ->)]; simpl;
      [by rewrite Hname|done]. }
  destruct Hnot as [-> ->]. simpl. rewrite Hd. intros [= <-]. simpl. rewrite Hd. simpl.
  match goal with
  | |- Js.includes (normalizeEncodings ?l V) d = _ => set (given := l)
  end.
  assert (Hgiven : d ∈ given).
  { subst given. apply elem_of_uniq. left. }
  destruct (bool_decide (Js.toLowerCase d = d)) eqn:Hlc.
  - apply bool_decide_eq_true in Hlc. apply includes_true.
    apply normalizeEncodings_members. exists d. split; [done|].
    rewrite Hlc. by apply (variationsOf_self bufferEncodings V nodeNames).
  - apply bool_decide_eq_false in Hlc.
    destruct (Js.includes (normalizeEncodings given V) d) eqn:Hin; [|done].
    destruct Hlc. apply includes_true, normalizeEncodings_members in Hin
      as (name & _ & Hin).
    unfold variationsOf in Hin.
    destruct (V !! Js.toLowerCase name) as [G|] eqn:HG.
    + apply (getEncodingVariations_lower bufferEncodings V nodeNames
               (Js.toLowerCase name) G d); try done.
      intros bes e x -> He Hx. by apply (namesInLowerCase_spec (Some bes) bes e x).
    + apply list_elem_of_singleton in Hin as ->. apply toLowerCase_idempotent.
Qed.

End VariationGroups.

(** ** Joining: names of default media types, and arrays *)
Section JoiningArrays.

Variable querystringParse : string -> JsNumber -> JsValue.

Implicit Types (V : gmap string (list string)) (entries : list ParserConfigurationEntry).

Abbreviation join := (joinParserConfigurations querystringParse).
Abbreviation joinOne := (joinParserConfiguration querystringParse).

Lemma mapM_cons_Result {A B} (f : A -> Result B) (x : A) (l : list A) :
  mapM f (x :: l) = (y ← f x; k ← mapM f l; Ok (y :: k)).
Proof. reflexivity. Qed.

Lemma mapM_app_Result {A B} (f : A -> Result B) (l1 l2 : list A) :
  mapM f (l1 ++ l2) = (k1 ← mapM f l1; k2 ← mapM f l2; Ok (k1 ++ k2)).
Proof.
  induction l1 as [|x l1 IH].
  - simpl. change (mapM f []) with (Ok (@nil B)). simpl.
    by destruct (mapM f l2).
  - rewrite <- app_comm_cons, !mapM_cons_Result, IH.
    destruct (f x) as [y|e]; simpl; [|reflexivity].
    destruct (mapM f l1) as [k1|e]; simpl; [|reflexivity].
    by destruct (mapM f l2).
Qed.

(** The entries are resolved one by one, in their order. *)
Lemma joining_is_entry_by_entry
    (entries1 entries2 : list ParserConfigurationEntry) (entry : ParserConfigurationEntry)
    (defaultLimit : LimitOption) (inflate : InflateOption) V
    (requireContentLength : bool) :
  join (Some (EntryArray (entries1 ++ entries2))) defaultLimit inflate V
    requireContentLength
  = (parsers1 ← join (Some (EntryArray entries1)) defaultLimit inflate V
                  requireContentLength;
     parsers2 ← join (Some (EntryArray entries2)) defaultLimit inflate V
                  requireContentLength;
     Ok (parsers1 ++ parsers2))
  /\ join (Some (OneEntry entry)) defaultLimit inflate V requireContentLength
     = join (Some (EntryArray [entry])) defaultLimit inflate V requireContentLength
  /\ join None defaultLimit inflate V requireContentLength
     = join (Some (EntryArray allDefaults)) defaultLimit inflate V requireContentLength.
Proof.
  unfold joinParserConfigurations. split; [apply mapM_app_Result|]. done.
Qed.

(** X25.  An array of names of default media types always
    resolves, whatever the options: [joinParserConfigurations] returns
    one parser for each name, in order, with the template of the
    name, the default limit as [bytes] reads it ([null] for a text
    that it cannot read), the default [inflate] as a list and the
    default [requireContentLength], and without [verify]. *)
Theorem default_names_always_resolve
    (names : list DefaultMediaType) (defaultLimit : LimitOption)
    (inflate : InflateOption) V (requireContentLength : bool) :
  exists parsers,
    join (Some (EntryArray (map DefaultName names))) defaultLimit inflate V
      requireContentLength = Ok parsers
    /\ map matcher parsers
       = map (fun d => match d with
                       | FormUrlencoded =>
                           [Template (Some "application", Some "x-www-form-urlencoded")]
                       | ApplicationJson => [Template (Some "application", Some "json")]
                       | TextPlain => [Template (Some "text", Some "plain")]
                       | OctetStream =>
                           [Template (Some "application", Some "octet-stream")]
                       end) names
    /\ forall p, p ∈ parsers ->
         limit p = toLimit defaultLimit
         /\ BufferEncoding.inflate p = getInflate inflate
         /\ BufferEncoding.requireContentLength p = requireContentLength
         /\ verify p = None.
Proof.
  unfold joinParserConfigurations.
  induction names as [|d names (parsers & IH & Hm & Hall)].
  - exists []. split; [reflexivity|]. split; [reflexivity|]. intros p Hp. inversion Hp.
  - simpl map. rewrite mapM_cons_Result, IH.
    destruct d; eexists; (split; [reflexivity|]); (split; [simpl; by rewrite Hm|]);
      intros p [->|Hp]%elem_of_cons; auto.
Qed.

End JoiningArrays.


(** ** The set-up of the middleware *)
Section DefaultContentType.

Variable contentTypeParse : option string -> Result ParsedMediaType.
Variable parsers : list PatchedParser.
Variable availableDecompressorNames : list string.
Variable availableBufferEncodings : gmap string BufferEncoder.
Variable availableBufferEncodingNames : list string.
Variable requireContentLength : bool.
Variable defaultContentTypeEncoding : option string.

Lemma findResult_Ok_None {A} (f : A -> Result bool) (l : list A) :
  (forall x, x ∈ l -> f x = Ok false) -> findResult f l = Ok None.
Proof.
  induction l as [|x l IH]; intros Hall; [reflexivity|].
  simpl. rewrite (Hall x) by left. simpl. apply IH.
  intros y Hy. apply Hall. by right.
Qed.

Lemma findResult_Ok_Some {A} (f : A -> Result bool) (l : list A) x :
  findResult f l = Ok (Some x) ->
  exists pre post, l = pre ++ x :: post /\ f x = Ok true
                   /\ forall y, y ∈ pre -> f y = Ok false.
Proof.
  induction l as [|y l IH]; simpl; [discriminate|].
  destruct (f y) as [[|]|e] eqn:Hy; simpl; [| |discriminate].
  - intros [= ->]. exists [], l. split; [reflexivity|]. split; [done|].
    intros z Hz. inversion Hz.
  - intros H. destruct (IH H) as (pre & post & -> & Hx & Hpre).
    exists (y :: pre), post. split; [reflexivity|]. split; [done|].
    intros z [->|Hz]%elem_of_cons; auto.
Qed.

(** X26.  The check of the option [defaultContentType]
    in [bodyParser]: when no parser matches the split default type,
    the set-up throws, with the message ['... does not match any
    parser configuration'] for a type of two parts and ['... is
    invalid.'] otherwise; when it does not throw, the default charset
    is the [defaultEncoding] of the first parser that matches ([false]
    if it has none). *)
Theorem default_content_type_needs_a_parser
    (defaultContentType : MediaType) :
  ((forall p, p ∈ parsers -> matchAnyType (matcher p) defaultContentType = Ok false) ->
   defaultContentTypeEncodingOf parsers (Some defaultContentType)
   = Throw (newError
       ("The specified default content type '"
        +:+ joinWith "/" defaultContentType
        +:+ (if Nat.eqb (length defaultContentType) 2
             then "' does not match any parser configuration"
             else "' is invalid."))))
  /\ (forall encoding,
        defaultContentTypeEncodingOf parsers (Some defaultContentType) = Ok encoding ->
        exists pre p post,
          parsers = pre ++ p :: post
          /\ matchAnyType (matcher p) defaultContentType = Ok true
          /\ (forall q, q ∈ pre -> matchAnyType (matcher q) defaultContentType = Ok false)
          /\ encoding = orElse (defaultEncoding p) None).
Proof.
  unfold defaultContentTypeEncodingOf. split.
  - intros Hnone. rewrite findResult_Ok_None by done. simpl.
    by destruct (Nat.eqb _ 2).
  - intros encoding.
    destruct (findResult _ parsers) as [[p|]|e] eqn:Hfind; simpl;
      [|destruct (Nat.eqb _ 2); discriminate|discriminate].
    intros [= <-].
    apply findResult_Ok_Some in Hfind as (pre & post & -> & Hp & Hpre).
    exists pre, p, post. done.
Qed.

(** X27.  With a default content type, a request
    whose headers have no key ['Content-Type'] in this spelling (the
    platform delivers header names in lower case) is never given to
    [contentType.parse]: [readStream] treats it as it treats the same
    request without its ['content-type'] header, with the default
    media type. *)
Theorem default_content_type_replaces_the_header
    (defaultContentType : MediaType) (req : Request) (hs : gmap string string) :
  headers req = Some hs ->
  hs !! "Content-Type" = None ->
  parsedMediaTypeOf contentTypeParse (Some defaultContentType) hs = Ok None
  /\ mediaTypeParser contentTypeParse parsers availableDecompressorNames
       availableBufferEncodings availableBufferEncodingNames requireContentLength
       defaultContentTypeEncoding (Some defaultContentType) req
     = mediaTypeParser contentTypeParse parsers availableDecompressorNames
         availableBufferEncodings availableBufferEncodingNames requireContentLength
         defaultContentTypeEncoding (Some defaultContentType)
         {| method := method req; headers := Some (delete "content-type" hs) |}.
Proof.
  intros Hh Hct.
  assert (Hpm : forall hs', hs' !! "Content-Type" = None ->
            parsedMediaTypeOf contentTypeParse (Some defaultContentType) hs' = Ok None).
  { intros hs' H. unfold parsedMediaTypeOf. rewrite H. reflexivity. }
  split; [by apply Hpm|].
  unfold mediaTypeParser. rewrite Hh. simpl.
  rewrite !Hpm by (by rewrite ?lookup_delete_ne).
  unfold bodiless, handOver, contentEncodingOf, contentLengthOf. simpl.
  by rewrite !lookup_delete_ne.
Qed.

End DefaultContentType.

Section ConfiguredMiddleware.

Variable querystringParse : string -> JsNumber -> JsValue.
Variable Factory : Type.
Variables createInflate createGunzip createBrotliDecompress : Factory.
Variable decoderWrite : string -> Buffer -> Buffer -> JsValue * Buffer.
Variable decoderEnd : string -> Buffer -> JsValue * Buffer.
Variable contentTypeParse : option string -> Result ParsedMediaType.

Abbreviation configure :=
  (bodyParser querystringParse Factory createInflate createGunzip
     createBrotliDecompress decoderWrite decoderEnd).

(** X28.  When [bodyParser] returns the middleware, then
    for every request: the only exception that leaves [readStream] is
    one thrown by a media type function of a parser; and a hand-over
    to the engine is made with one of the resolved parsers and a
    content encoding that is ['identity'] or has a factory among the
    available decompressors. *)
Theorem configured_middleware_is_coherent
    (options : DefaultOptions) (parserConfigurations : option ParserConfigurations)
    (bufferEncodings : option (list BufferEncoder))
    (decompressors : option (Fields Factory)) (getBody : GetBody Factory)
    (req : Request) :
  configure options parserConfigurations bufferEncodings decompressors = Ok getBody ->
  (forall e, readStream contentTypeParse getBody req = Thrown e ->
     exists p f mt,
       p ∈ gb_parsers getBody /\ Predicate f ∈ matcher p /\ f mt = Throw e)
  /\ (forall args, readStream contentTypeParse getBody req = Streaming args ->
        parseConfiguration args ∈ gb_parsers getBody
        /\ (contentEncoding args = "identity"
            \/ is_Some (get (gb_availableDecompressors getBody)
                          (contentEncoding args)))).
Proof.
  unfold bodyParser.
  destruct (getEncodingVariations bufferEncodings) as [[V nodeNames]|e0] eqn:HV;
    simpl; [|discriminate].
  destruct (joinParserConfigurations _ _ _ _ _ _) as [parsers|e0] eqn:Hjoin;
    simpl; [|discriminate].
  destruct (getAvailableDecompressors _ _ _ _ _ _) as [[avail names]|e0] eqn:Hdec;
    simpl; [|discriminate].
  destruct (getAvailableBufferEncodings _ _ _ _ _ _) as [[encs encodingNames]|e0]
    eqn:Henc; simpl; [|discriminate].
  destruct (defaultContentTypeEncodingOf _ _) as [encoding|e0]; simpl; [|discriminate].
  intros [= <-]. unfold readStream. simpl. split.
  - intros e He.
    eapply dispatch_thrown_by_matcher; [exact HV|exact Henc|exact He].
  - intros args Hs. split.
    + apply dispatch_first_match in Hs
        as (hs & pm & mt & pre & post & _ & _ & _ & -> & _).
      apply elem_of_app. right. left.
    + eapply dispatch_decompressor; [exact Hdec|exact Hs].
Qed.

End ConfiguredMiddleware.


Section EngineCalls.

Variable jsonStringify : JsValue -> option string.
Variable availableDecompressors : gmap string (Result unit).
Variable availableDecompressorNames : list string.
Variable args : EngineArgs.
Variable heldDecoders : Decoders.

Abbreviation start :=
  (rawBodyParser availableDecompressors availableDecompressorNames args heldDecoders).
Abbreviation step := (handle jsonStringify args).
Abbreviation engine :=
  (run jsonStringify availableDecompressors availableDecompressorNames args
     heldDecoders).

(** An event leaves [sync] as it is and adds at most one call, marked
    with [sync]. *)
Lemma handle_deferred s ev :
  sync (step s ev) = sync s
  /\ (calls (step s ev) = calls s
      \/ exists a, calls (step s ev) = calls s ++ [{| deferred := sync s; arg := a |}]).
Proof.
  unfold handle. destruct (listening s); [|by split; [|left]].
  destruct ev; unfold onAborted, onData, onEnd, cleanup;
    repeat match goal with
           | |- context [if ?b then _ else _] => destruct b
           | |- context [match ?x with _ => _ end] => destruct x
           end; simpl; (split; [reflexivity|]); eauto.
Qed.

(** X29.  The callback is never called during the call
    of [rawBodyParser] itself: when the stream can be set up, every
    call is made from a listener, on the spot; when [decompressStream]
    throws, the one call, with the error ['Decompression failed'], is
    put off to the next tick, and no event changes it. *)
Theorem callback_is_never_synchronous (evs : list StreamEvent) :
  (decompressStream availableDecompressors availableDecompressorNames args = Ok () ->
   forall inv, inv ∈ calls (engine evs) -> deferred inv = false)
  /\ (forall err,
        decompressStream availableDecompressors availableDecompressorNames args
        = Throw err ->
        calls (engine evs) =
        [{| deferred := true;
            arg := CbError (HttpErrors.createError (statusOr err 415)
                     ("Decompression failed: " +:+ e_message err)
                     [("contentEncoding", HttpErrors.PString (contentEncoding args));
                      ("type", HttpErrors.PString
                                 (typeOr err "decompression.failed"))]) |}]).
Proof.
  split.
  - intros Hstart.
    assert (Hinv : forall evs s,
              sync s = false ->
              (forall inv, inv ∈ calls s -> deferred inv = false) ->
              forall inv, inv ∈ calls (foldl step s evs) -> deferred inv = false).
    { clear evs. induction evs as [|ev evs IH]; intros s Hs Hk; [exact Hk|].
      simpl. destruct (handle_deferred s ev) as [Hsync Hcalls]. apply IH.
      - congruence.
      - intros inv Hin. destruct Hcalls as [Heq|(a & Heq)]; rewrite Heq in Hin.
        + by apply Hk.
        + apply elem_of_app in Hin as [Hin|Hin]; [by apply Hk|].
          apply list_elem_of_singleton in Hin. by subst inv. }
    unfold run, rawBodyParser. rewrite Hstart. apply Hinv; [reflexivity|].
    intros inv Hin. inversion Hin.
  - intros err Hstart. unfold run, rawBodyParser. rewrite Hstart.
    by rewrite deaf_engine.
Qed.

End EngineCalls.

(** ** A field that is not read *)
Section RequireContentLength.

Variable contentTypeParse : option string -> Result ParsedMediaType.
Variable parsers : list PatchedParser.
Variable availableDecompressorNames : list string.
Variable availableBufferEncodings : gmap string BufferEncoder.
Variable availableBufferEncodingNames : list string.
Variable requireContentLength : bool.
Variable defaultContentTypeEncoding : option string.
Variable defaultContentType : option MediaType.
Variable jsonStringify : JsValue -> option string.
Variable availableDecompressors : gmap string (Result unit).

Lemma filterResult_map {A} (f : A -> Result bool) (g : A -> A) (l : list A) :
  (forall x, f (g x) = f x) ->
  filterResult f (map g l) = map g <$> filterResult f l.
Proof.
  intros Hfg. induction l as [|x l IH]; [reflexivity|].
  simpl. rewrite Hfg, IH. destruct (f x) as [b|e]; simpl; [|reflexivity].
  destruct (filterResult f l) as [kept|e]; simpl; [|reflexivity].
  by destruct b.
Qed.

Lemma filter_map_bool {A} (f : A -> bool) (g : A -> A) (l : list A) :
  (forall x, f (g x) = f x) ->
  List.filter f (map g l) = map g (List.filter f l).
Proof.
  intros Hfg. induction l as [|x l IH]; [reflexivity|].
  simpl. rewrite Hfg, IH. by destruct (f x).
Qed.

Lemma find_map_bool {A} (f : A -> bool) (g : A -> A) (l : list A) :
  (forall x, f (g x) = f x) ->
  List.find f (map g l) = g <$> List.find f l.
Proof.
  intros Hfg. induction l as [|x l IH]; [reflexivity|].
  simpl. rewrite Hfg, IH. by destruct (f x).
Qed.

(** X30.  The [requireContentLength] of a resolved
    parser is read neither by [readStream] nor by the engine: with
    another value in every parser, [readStream] ends in the same way
    (handing over the same parser, with the other value), and the
    engine makes the same calls.  Only the option of the middleware
    is tested. *)
Theorem requireContentLength_of_a_configuration_is_not_read
    (b : bool) (req : Request) (args : EngineArgs) (heldDecoders : Decoders)
    (evs : list StreamEvent) :
  mediaTypeParser contentTypeParse
    (map (Examples.withRequireContentLength b) parsers)
    availableDecompressorNames availableBufferEncodings
    availableBufferEncodingNames requireContentLength defaultContentTypeEncoding
    defaultContentType req
  = Examples.onConfiguration (Examples.withRequireContentLength b)
      (mediaTypeParser contentTypeParse parsers availableDecompressorNames
         availableBufferEncodings availableBufferEncodingNames requireContentLength
         defaultContentTypeEncoding defaultContentType req)
  /\ calls (run jsonStringify availableDecompressors availableDecompressorNames
              (Examples.withConfiguration (Examples.withRequireContentLength b) args)
              heldDecoders evs)
     = calls (run jsonStringify availableDecompressors availableDecompressorNames
                args heldDecoders evs).
Proof.
  split.
  - unfold mediaTypeParser.
    destruct (headers req) as [hs|]; [|reflexivity].
    destruct (bool_decide _ && requireContentLength); [reflexivity|].
    destruct (parsedMediaTypeOf _ _ hs) as [pm|err];
      [|by destruct (Js.includes _ _)].
    destruct (mediaTypeOf _ pm) as [mt|]; [|reflexivity].
    unfold allowedMediaTypeParsers. rewrite filterResult_map by done.
    destruct (filterResult _ parsers) as [allowed|e]; simpl; [|reflexivity].
    rewrite length_map. destruct (Nat.eqb (length allowed) 0); [reflexivity|].
    unfold allowedCharsetParsers. rewrite filter_map_bool by done.
    rewrite length_map.
    unfold parseConfigurationOf. rewrite find_map_bool by done.
    destruct (Nat.eqb (length (List.filter _ allowed)) 0).
    { destruct (negb _); [reflexivity|]. by destruct (Js.includes _ _). }
    destruct (List.find _ _) as [pc|]; simpl.
    + destruct (bodiless req hs); [reflexivity|].
      unfold handOver. simpl. destruct (orElse _ None) as [name|]; [|reflexivity].
      by destruct (availableBufferEncodings !! name).
    + destruct (bodiless req hs); [reflexivity|]. by destruct (Js.includes _ _).
  - reflexivity.
Qed.

End RequireContentLength.


Lemma hand_over_has_decompressor_witness :
  exists args,
    Examples.gzipJsonDispatcher
      (Examples.request "POST"
         [("content-type", "application/json"); ("content-encoding", "GZIP");
          ("content-length", "20")])
    = Streaming args
    /\ contentEncoding args = "gzip"
    /\ (contentEncoding args = "identity"
        \/ is_Some (get [("deflate", "createInflate"); ("gzip", "createGunzip")]
                      (contentEncoding args))).
Proof.
  eexists. split; [reflexivity|]. split; [reflexivity|].
  eapply (hand_over_has_decompressor string "createInflate" "createGunzip"
            "createBrotliDecompress" Examples.parseTypeOnly
            [Examples.gzipJsonConfiguration] false None None None
            [("deflate", "createInflate"); ("gzip", "createGunzip")]
            ["deflate"; "gzip"] Examples.utf8Encodings Examples.nativeEncodingNames
            (Examples.request "POST"
               [("content-type", "application/json"); ("content-encoding", "GZIP");
                ("content-length", "20")])).
  - reflexivity.
  - reflexivity.
Defined.

Lemma dispatch_throws_only_from_matchers_witness :
  mediaTypeParser Examples.parseTypeOnly [Examples.throwingConfiguration]
    ["identity"] ∅ [] false None None
    (Examples.request "POST" [("content-type", "text/plain"); ("content-length", "5")])
  = Thrown (newError "no media type expected")
  /\ exists p f mt,
       p ∈ [Examples.throwingConfiguration] /\ Predicate f ∈ matcher p
       /\ f mt = Throw (newError "no media type expected").
Proof.
  split; [reflexivity|].
  eapply (dispatch_throws_only_from_matchers Examples.decoderWrite Examples.decoderEnd
            Examples.parseTypeOnly [Examples.throwingConfiguration] false None None
            None builtinVariations ["utf8"; "ucs2"] ["identity"] ∅ []
            (Examples.request "POST"
               [("content-type", "text/plain"); ("content-length", "5")])).
  - reflexivity.
  - reflexivity.
  - reflexivity.
Defined.

Lemma dispatch_selects_first_match_witness :
  exists hs pm mt pre post,
    headers (Examples.request "POST"
               [("content-type", "text/plain"); ("content-length", "5")]) = Some hs
    /\ parsedMediaTypeOf Examples.parseTypeOnly None hs = Ok pm
    /\ mediaTypeOf None pm = Some mt
    /\ [Examples.jsonConfiguration; Examples.textConfiguration]
       = pre ++ Examples.textConfiguration :: post
    /\ (match matchAnyType (matcher Examples.textConfiguration) mt with
        | Ok true => true
        | _ => false
        end
        && matchCharsetEncoding (encodings Examples.textConfiguration)
             (encodingOf None pm) Examples.nativeEncodingNames
             (defaultEncoding Examples.textConfiguration)
        && matchContentEncoding (contentEncodingOf hs)
             (inflate Examples.textConfiguration) ["identity"]) = true
    /\ forall q, q ∈ pre ->
         (match matchAnyType (matcher q) mt with Ok true => true | _ => false end
          && matchCharsetEncoding (encodings q) (encodingOf None pm)
               Examples.nativeEncodingNames (defaultEncoding q)
          && matchContentEncoding (contentEncodingOf hs) (inflate q) ["identity"])
         = false.
Proof.
  apply (dispatch_selects_first_match Examples.parseTypeOnly
           [Examples.jsonConfiguration; Examples.textConfiguration] ["identity"]
           Examples.utf8Encodings Examples.nativeEncodingNames false None None
           (Examples.request "POST"
              [("content-type", "text/plain"); ("content-length", "5")])
           {| parseConfiguration := Examples.textConfiguration;
              contentLength := Some (Num 5);
              contentEncoding := "identity";
              defaultEncoding_ := Some "utf-8";
              limit_ := Some (Num 20480);
              bufferEncoding := Some (Chunked Examples.utf8Decoder);
              bufferEncodingIsStreamDecoder := true |}).
  reflexivity.
Defined.

Lemma available_encodings_coherent_witness :
  match getAvailableBufferEncodings Examples.decoderWrite Examples.decoderEnd
          [Examples.textConfiguration] builtinVariations ["utf8"; "ucs2"] None with
  | Ok (encs, names) => "utf8" ∈ names <-> is_Some (encs !! "utf8")
  | Throw _ => False
  end.
Proof.
  destruct (getAvailableBufferEncodings Examples.decoderWrite Examples.decoderEnd
              [Examples.textConfiguration] builtinVariations ["utf8"; "ucs2"] None)
    as [[encs names]|e] eqn:H.
  - apply (available_encodings_coherent Examples.decoderWrite Examples.decoderEnd
             [Examples.textConfiguration] builtinVariations ["utf8"; "ucs2"] None
             encs names H).
  - apply (f_equal (fun r => match r with Ok _ => true | Throw _ => false end)) in H.
    vm_compute in H. discriminate H.
Defined.

Lemma close_before_end_never_calls_witness :
  calls (run Examples.noStringify ∅ ["identity"]
           (Examples.rawArgs None (Some (Num 20480))) ∅
           (map Data [list_byte_of_string "hel"; list_byte_of_string "lo"]
            ++ Close :: [End_; Aborted]))
  = [].
Proof.
  apply (close_before_end_never_calls Examples.noStringify ∅ ["identity"]
           (Examples.rawArgs None (Some (Num 20480))) ∅
           [list_byte_of_string "hel"; list_byte_of_string "lo"] [End_; Aborted]).
  - reflexivity.
  - intros lim [= <-]. reflexivity.
Defined.

Lemma chunking_is_irrelevant_without_decoder_witness :
  calls (run Examples.noStringify ∅ ["identity"]
           (Examples.rawArgs (Some 5) (Some (Num 20480))) ∅
           (map Data [list_byte_of_string "hel"; list_byte_of_string "lo"] ++ [End_]))
  = calls (run Examples.noStringify ∅ ["identity"]
             (Examples.rawArgs (Some 5) (Some (Num 20480))) ∅
             [Data (concat [list_byte_of_string "hel"; list_byte_of_string "lo"]);
              End_]).
Proof.
  apply (chunking_is_irrelevant_without_decoder Examples.noStringify ∅ ["identity"]
           (Examples.rawArgs (Some 5) (Some (Num 20480))) ∅
           [list_byte_of_string "hel"; list_byte_of_string "lo"]).
  - reflexivity.
  - intros lim [= <-]. reflexivity.
Defined.

Lemma size_mismatch_is_rejected_witness :
  calls (run Examples.noStringify ∅ ["identity"]
           (Examples.rawArgs (Some 9) (Some (Num 20480))) ∅
           (map Data [list_byte_of_string "hel"; list_byte_of_string "lo"] ++ [End_]))
  = [{| deferred := false;
        arg := CbError (HttpErrors.createError 400
                 "request size did not match content length"
                 [("expected", HttpErrors.PNumber (Num 9));
                  ("length", HttpErrors.PNumber (Num 9));
                  ("received", HttpErrors.PNumber (Num 5));
                  ("type", HttpErrors.PString "request.size.invalid")]) |}].
Proof.
  apply (size_mismatch_is_rejected Examples.noStringify ∅ ["identity"]
           (Examples.rawArgs (Some 9) (Some (Num 20480))) ∅
           [list_byte_of_string "hel"; list_byte_of_string "lo"] (Num 9)).
  - reflexivity.
  - reflexivity.
  - reflexivity.
  - intros lim [= <-]. reflexivity.
  - vm_compute. discriminate.
Defined.

Lemma empty_body_yields_empty_response_witness :
  calls (run Examples.noStringify ∅ ["identity"]
           (Examples.rawArgs None (Some (Num 20480))) ∅
           (map Data [[]; []] ++ [End_]))
  = [{| deferred := false; arg := CbBody (VBuffer []) |}].
Proof.
  apply (empty_body_yields_empty_response Examples.noStringify ∅ ["identity"]
           (Examples.rawArgs None (Some (Num 20480))) ∅ [[]; []]).
  - reflexivity.
  - reflexivity.
  - intros lim [= <-]. reflexivity.
  - reflexivity.
Defined.

Lemma verify_receives_the_raw_bytes_witness :
  calls (run Examples.noStringify ∅ ["identity"] Examples.verifiedTextArgs ∅
           (map Data [list_byte_of_string "hel"; list_byte_of_string "lo"] ++ [End_]))
  = [{| deferred := false;
        arg := CbError (HttpErrors.createError 403
                 "Verify function did not match: not signed"
                 [("body", HttpErrors.PString "hello");
                  ("type", HttpErrors.PString "entity.verify.failed")]) |}].
Proof.
  etransitivity.
  - apply (verify_receives_the_raw_bytes Examples.noStringify ∅ ["identity"]
             Examples.verifiedTextArgs ∅
             [list_byte_of_string "hel"; list_byte_of_string "lo"]
             Examples.utf8Decoder Examples.rejectAll).
    + reflexivity.
    + reflexivity.
    + reflexivity.
    + intros _ expected [= <-]. reflexivity.
    + intros lim [= <-]. reflexivity.
    + vm_compute. discriminate.
  - vm_compute. reflexivity.
Defined.

Lemma no_limit_no_entity_too_large_witness :
  calls (run Examples.noStringify ∅ ["identity"] (Examples.rawArgs None None) ∅
           [Data (list_byte_of_string "hello"); Aborted])
  = [{| deferred := false;
        arg := CbError (HttpErrors.createError 400 "request aborted"
                 [("code", HttpErrors.PString "ECONNABORTED");
                  ("type", HttpErrors.PString "request.aborted")]) |}]
  /\ HttpErrors.message
       (HttpErrors.createError 400 "request aborted"
          [("code", HttpErrors.PString "ECONNABORTED");
           ("type", HttpErrors.PString "request.aborted")])
     <> "request entity too large".
Proof.
  split; [reflexivity|].
  apply (no_limit_no_entity_too_large Examples.noStringify ∅ ["identity"]
           (Examples.rawArgs None None) ∅
           [Data (list_byte_of_string "hello"); Aborted] eq_refl
           {| deferred := false;
              arg := CbError (HttpErrors.createError 400 "request aborted"
                       [("code", HttpErrors.PString "ECONNABORTED");
                        ("type", HttpErrors.PString "request.aborted")]) |}).
  - vm_compute. left.
  - reflexivity.
Defined.

Lemma encoding_variations_are_groups_witness :
  "utf8" ∈ ["utf-8"; "utf8"]
  /\ (2 <= length ["utf-8"; "utf8"])%nat
  /\ forall m, m ∈ ["utf-8"; "utf8"] -> builtinVariations !! m = Some ["utf-8"; "utf8"].
Proof.
  apply (encoding_variations_are_groups None builtinVariations ["utf8"; "ucs2"]).
  - reflexivity.
  - reflexivity.
Defined.

Lemma default_encoding_must_be_lower_case_witness :
  exists settings,
    getEncodings (EncodingsArray ["latin1"]) (Some "UTF-8") builtinVariations None
    = Ok settings
    /\ es_encodings settings = Some (EncodingList ["utf-8"; "utf8"; "latin1"])
    /\ es_defaultEncoding settings = Some "UTF-8"
    /\ matchCharsetEncoding (es_encodings settings) None Examples.nativeEncodingNames
         (es_defaultEncoding settings) = false.
Proof.
  eexists. split; [reflexivity|]. split; [vm_compute; reflexivity|].
  split; [reflexivity|].
  apply (default_encoding_must_be_lower_case None builtinVariations ["utf8"; "ucs2"]
           (EncodingsArray ["latin1"]) "UTF-8" None Examples.nativeEncodingNames).
  - reflexivity.
  - reflexivity.
  - reflexivity.
  - reflexivity.
  - apply (bool_decide_unpack _). vm_compute. exact I.
  - right. by eexists.
  - reflexivity.
Defined.

Lemma default_content_type_replaces_the_header_witness :
  mediaTypeParser Examples.parseTypeOnly [Examples.jsonConfiguration] ["identity"]
    Examples.utf8Encodings Examples.nativeEncodingNames false (Some "utf-8")
    (Some ["application"; "json"])
    (Examples.request "POST" [("content-type", "text/plain"); ("content-length", "36")])
  = mediaTypeParser Examples.parseTypeOnly [Examples.jsonConfiguration] ["identity"]
      Examples.utf8Encodings Examples.nativeEncodingNames false (Some "utf-8")
      (Some ["application"; "json"])
      {| method := "POST";
         headers := Some (delete "content-type"
                            (list_to_map [("content-type", "text/plain");
                                          ("content-length", "36")])) |}.
Proof.
  apply (default_content_type_replaces_the_header Examples.parseTypeOnly
           [Examples.jsonConfiguration] ["identity"] Examples.utf8Encodings
           Examples.nativeEncodingNames false (Some "utf-8") ["application"; "json"]
           (Examples.request "POST"
              [("content-type", "text/plain"); ("content-length", "36")])
           (list_to_map [("content-type", "text/plain"); ("content-length", "36")])).
  - reflexivity.
  - vm_compute. reflexivity.
Defined.

Lemma configured_middleware_is_coherent_witness :
  match Examples.gzipJsonMiddleware with
  | Ok getBody =>
      (forall e,
         readStream Examples.parseTypeOnly getBody (Examples.jsonPost "36") = Thrown e ->
         exists p f mt,
           p ∈ gb_parsers getBody /\ Predicate f ∈ matcher p /\ f mt = Throw e)
      /\ (forall args,
            readStream Examples.parseTypeOnly getBody (Examples.jsonPost "36")
            = Streaming args ->
            parseConfiguration args ∈ gb_parsers getBody
            /\ (contentEncoding args = "identity"
                \/ is_Some (get (gb_availableDecompressors getBody)
                              (contentEncoding args))))
  | Throw _ => False
  end.
Proof.
  destruct Examples.gzipJsonMiddleware as [getBody|e] eqn:H.
  - exact (configured_middleware_is_coherent Examples.noQuerystring string
             "createInflate" "createGunzip" "createBrotliDecompress"
             Examples.decoderWrite Examples.decoderEnd Examples.parseTypeOnly
             _ _ _ _ getBody (Examples.jsonPost "36") H).
  - apply (f_equal (fun r => match r with Ok _ => true | Throw _ => false end)) in H.
    vm_compute in H. discriminate H.
Defined.

(** ['br'] is not among the needed keys and is deleted. *)
Lemma deleteMissingKeys_keeps_needed_witness :
  (deleteMissingKeys (Some [("deflate", 1%Z); ("gzip", 2%Z); ("br", 3%Z)]) ["gzip"]
   ≫= fun kept => get kept "br") = None
  /\ (deleteMissingKeys (Some [("deflate", 1%Z); ("gzip", 2%Z); ("br", 3%Z)]) ["gzip"]
      ≫= fun kept => get kept "gzip") = Some 2%Z.
Proof.
  split.
  - exact (proj2 (deleteMissingKeys_keeps_needed
                    (Some [("deflate", 1%Z); ("gzip", 2%Z); ("br", 3%Z)]) ["gzip"])
             [("deflate", 1%Z); ("gzip", 2%Z); ("br", 3%Z)] "br" eq_refl).
  - exact (proj2 (deleteMissingKeys_keeps_needed
                    (Some [("deflate", 1%Z); ("gzip", 2%Z); ("br", 3%Z)]) ["gzip"])
             [("deflate", 1%Z); ("gzip", 2%Z); ("br", 3%Z)] "gzip" eq_refl).
Defined.

(** [maxKeys] of [-1], and [maxKeys] of [2] on a payload of three
    pairs. *)
Lemma querystring_parser_limits_the_keys_witness :
  getQuerystringParser Examples.noQuerystring (Num (-1))
  = Throw (newError "maxKeys can not be smaller than 0")
  /\ exists parse,
       getQuerystringParser Examples.noQuerystring (Num 2) = Ok parse
       /\ parse (VString "a=1&b=2&c=3") = Throw tooManyParameters.
Proof.
  split.
  - apply (proj1 (querystring_parser_limits_the_keys Examples.noQuerystring (-1))).
    lia.
  - destruct (proj1 (proj2 (querystring_parser_limits_the_keys
                              Examples.noQuerystring 2)))
      as (parse & Hparse & Hpayload); [lia|].
    exists parse. split; [exact Hparse|].
    rewrite Hpayload. reflexivity.
Defined.

(** The default content type ['text/plain'] with the parser of JSON
    alone. *)
Lemma default_content_type_needs_a_parser_witness :
  defaultContentTypeEncodingOf [Examples.jsonConfiguration] (Some ["text"; "plain"])
  = Throw (newError
      "The specified default content type 'text/plain' does not match any parser configuration").
Proof.
  apply (proj1 (default_content_type_needs_a_parser [Examples.jsonConfiguration]
                  ["text"; "plain"])).
  intros p ->%list_elem_of_singleton. reflexivity.
Defined.

(** A request with the content encoding ['identity']: the call for the
    aborted stream is made on the spot. *)
Lemma callback_is_never_synchronous_witness :
  deferred {| deferred := false;
              arg := CbError (HttpErrors.createError 400 "request aborted"
                       [("code", HttpErrors.PString "ECONNABORTED");
                        ("type", HttpErrors.PString "request.aborted")]) |}
  = false.
Proof.
  apply (proj1 (callback_is_never_synchronous Examples.noStringify ∅ ["identity"]
                  (Examples.rawArgs None None) ∅
                  [Data (list_byte_of_string "hello"); Aborted]) eq_refl).
  vm_compute. left.
Defined.
